(** * Welch's method (welch/welch.py): a shallow embedding and its properties

    The development follows the Python module function by function.  Arrays
    are one-dimensional along the transform axis (the default [axis=-1]);
    batch axes of the original are mapped over pointwise and are not
    modelled.  NumPy's float64 arithmetic is idealised as exact arithmetic
    over [Q]; complex128 values are pairs of rationals.  The transcendental
    library calls ([np.pi], [np.cos], [np.sqrt], [np.fft.fft],
    [np.fft.rfft]) and Python's [float()] on strings are parameters of the
    model.  Python exceptions are values of type [exn]; a function that can
    raise returns a [result]. *)

From Stdlib Require Import ZArith QArith Qround Qabs Qfield Lqa List Ascii String Bool
  Lia.
Import ListNotations.
Local Open Scope string_scope.
Local Open Scope list_scope.
Local Open Scope Z_scope.

Local Abbreviation length := Datatypes.length.

(** ** Exceptions and the error monad *)

Inductive exn : Type :=
| ValueError (msg : string)
| NameError (name : string)
| TypeError (msg : string)
| IndexError (msg : string)
| ZeroDivisionError.

Definition result (A : Type) : Type := (exn + A)%type.

Definition ok {A : Type} (a : A) : result A := inr a.
Definition raise {A : Type} (e : exn) : result A := inl e.

Definition bind {A B : Type} (m : result A) (k : A -> result B) : result B :=
  match m with
  | inl e => inl e
  | inr a => k a
  end.

Notation "x <- m ;; k" := (bind m (fun x => k))
  (at level 61, m at next level, right associativity).
Notation "' pat <- m ;; k" := (bind m (fun x => match x with pat => k end))
  (at level 61, pat pattern, m at next level, right associativity).

Definition is_ok {A : Type} (r : result A) : bool :=
  match r with inr _ => true | inl _ => false end.

Definition is_ValueError {A : Type} (r : result A) : bool :=
  match r with inl (ValueError _) => true | _ => false end.

(** The module never imports [warnings] (its only import is numpy, line 2),
    so evaluating [warnings.warn(...)] raises [NameError] on the name. *)
Definition warnings_warn (msg : string) : result unit :=
  raise (NameError "warnings").

(** ** Scalars: float64 as [Q], complex128 as pairs *)

Definition C : Type := (Q * Q)%type.

Class Scalar (A : Type) : Type := {
  szero : A;
  sone : A;
  sadd : A -> A -> A;
  ssub : A -> A -> A;
  smul : A -> A -> A;
  sscale : Q -> A -> A;      (* product with a real number *)
  sleb : A -> A -> bool      (* NumPy's sort order *)
}.

Definition Cadd (a b : C) : C := (fst a + fst b, snd a + snd b)%Q.
Definition Csub (a b : C) : C := (fst a - fst b, snd a - snd b)%Q.
Definition Cmul (a b : C) : C :=
  (fst a * fst b - snd a * snd b, fst a * snd b + snd a * fst b)%Q.
Definition Cscale (q : Q) (a : C) : C := (q * fst a, q * snd a)%Q.
Definition Cconj (a : C) : C := (fst a, - snd a)%Q.
Definition Cre (a : C) : Q := fst a.
Definition C_of_Q (q : Q) : C := (q, 0%Q).

(** Complex numbers sort lexicographically, real part first. *)
Definition Cleb (a b : C) : bool :=
  match (fst a ?= fst b)%Q with
  | Lt => true
  | Gt => false
  | Eq => Qle_bool (snd a) (snd b)
  end.

#[global] Instance Scalar_Q : Scalar Q := {
  szero := 0%Q; sone := 1%Q;
  sadd := Qplus; ssub := Qminus; smul := Qmult;
  sscale := Qmult; sleb := Qle_bool
}.

#[global] Instance Scalar_C : Scalar C := {
  szero := (0%Q, 0%Q); sone := (1%Q, 0%Q);
  sadd := Cadd; ssub := Csub; smul := Cmul;
  sscale := Cscale; sleb := Cleb
}.

Definition Q_of_Z (z : Z) : Q := inject_Z z.

Definition ssum {A : Type} `{Scalar A} (l : list A) : A :=
  fold_left sadd l szero.

(** [a.mean()] of a one-dimensional array. *)
Definition smean {A : Type} `{Scalar A} (l : list A) : A :=
  sscale (/ Q_of_Z (Z.of_nat (length l)))%Q (ssum l).

(** ** One-dimensional arrays and NumPy helpers *)

Definition len {A : Type} (l : list A) : Z := Z.of_nat (length l).

Fixpoint map2 {A B D : Type} (f : A -> B -> D) (a : list A) (b : list B)
  : list D :=
  match a, b with
  | u :: a', v :: b' => f u v :: map2 f a' b'
  | _, _ => []
  end.

(** NumPy broadcasting of a binary operation over two 1-D operands. *)
Definition broadcast2 {A B D : Type} (f : A -> B -> D)
  (a : list A) (b : list B) : result (list D) :=
  if (length a =? length b)%nat then ok (map2 f a b)
  else match a, b with
       | [u], _ => ok (map (f u) b)
       | _, [v] => ok (map (fun w => f w v) a)
       | _, _ => raise (ValueError "operands could not be broadcast together")
       end.

(** [np.zeros(n)], [np.ones(n)]: a negative length is refused. *)
Definition np_full {A : Type} (v : A) (n : Z) : result (list A) :=
  if n <? 0 then raise (ValueError "negative dimensions are not allowed")
  else ok (repeat v (Z.to_nat n)).

(** Python's slice normalisation ([PySlice_AdjustIndices]) for a sequence
    of length [n] and a non-zero [step]. *)
Definition slice_adjust (n step : Z) (v : option Z) (is_start : bool) : Z :=
  let lower := if step <? 0 then -1 else 0 in
  let upper := if step <? 0 then n - 1 else n in
  match v with
  | None => if Bool.eqb is_start (step <? 0) then upper else lower
  | Some i => if i <? 0 then Z.max (i + n) lower else Z.min i upper
  end.

Definition slice_length (start stop step : Z) : Z :=
  if step <? 0
  then (if stop <? start then (start - stop - 1) / (- step) + 1 else 0)
  else (if start <? stop then (stop - start - 1) / step + 1 else 0).

(** The element at index [i] as a list of at most one element: nothing
    when [i] is outside the list. *)
Definition at_index {A : Type} (l : list A) (i : Z) : list A :=
  if i <? 0 then []
  else match nth_error l (Z.to_nat i) with
       | Some v => [v]
       | None => []
       end.

(** [a[start:stop:step]] on a list. *)
Definition py_slice {A : Type} (a : list A) (start stop step : option Z)
  : result (list A) :=
  let st := match step with None => 1 | Some s => s end in
  if st =? 0 then raise (ValueError "slice step cannot be zero")
  else
    let b := slice_adjust (len a) st start true in
    let e := slice_adjust (len a) st stop false in
    let k := Z.to_nat (slice_length b e st) in
    ok (flat_map (fun j => at_index a (b + Z.of_nat j * st)) (seq 0 k)).

(** [axis_slice] (lines 189-193) along the only axis. *)
Definition axis_slice {A : Type} (a : list A) (start stop step : option Z)
  : result (list A) :=
  py_slice a start stop step.

(** [axis_reverse] (lines 195-199). *)
Definition axis_reverse {A : Type} (a : list A) : result (list A) :=
  axis_slice a None None (Some (-1)).

(** ** Boundary extension (lines 157-224) *)

Definition even_ext {A : Type} (x : list A) (n : Z) : result (list A) :=
  if n <? 1 then ok x
  else if n >? len x - 1 then
    raise (ValueError "The extension length n is too big. It must not exceed x.shape[axis]-1.")
  else
    left_ext <- axis_slice x (Some n) (Some 0) (Some (-1)) ;;
    right_ext <- axis_slice x (Some (-2)) (Some (- (n + 2))) (Some (-1)) ;;
    ok (left_ext ++ x ++ right_ext).

Definition odd_ext {A : Type} `{Scalar A} (x : list A) (n : Z)
  : result (list A) :=
  if n <? 1 then ok x
  else if n >? len x - 1 then
    raise (ValueError "The extension length n is too big. It must not exceed x.shape[axis]-1.")
  else
    left_end <- axis_slice x (Some 0) (Some 1) None ;;
    left_ext <- axis_slice x (Some n) (Some 0) (Some (-1)) ;;
    right_end <- axis_slice x (Some (-1)) None None ;;
    right_ext <- axis_slice x (Some (-2)) (Some (- (n + 2))) (Some (-1)) ;;
    l <- broadcast2 ssub (map (sscale 2%Q) left_end) left_ext ;;
    r <- broadcast2 ssub (map (sscale 2%Q) right_end) right_ext ;;
    ok (l ++ x ++ r).

Definition const_ext {A : Type} `{Scalar A} (x : list A) (n : Z)
  : result (list A) :=
  if n <? 1 then ok x
  else
    left_end <- axis_slice x (Some 0) (Some 1) None ;;
    ones <- np_full sone n ;;
    left_ext <- broadcast2 smul ones left_end ;;
    right_end <- axis_slice x (Some (-1)) None None ;;
    right_ext <- broadcast2 smul ones right_end ;;
    ok (left_ext ++ x ++ right_ext).

Definition zero_ext {A : Type} `{Scalar A} (x : list A) (n : Z)
  : result (list A) :=
  if n <? 1 then ok x
  else
    zeros <- np_full szero n ;;
    ok (zeros ++ x ++ zeros).

(** The [boundary_funcs] table of [_spectral_helper] (lines 235-239); the
    key [None] is the [None] of the option. *)
Definition boundary_funcs {A : Type} `{Scalar A} (boundary : string)
  : option (list A -> Z -> result (list A)) :=
  if String.eqb boundary "even" then Some even_ext
  else if String.eqb boundary "odd" then Some odd_ext
  else if String.eqb boundary "constant" then Some const_ext
  else if String.eqb boundary "zeros" then Some zero_ext
  else None.

(** ** Two-dimensional intermediate arrays and n-dimensional results *)

(** A signal as the caller passes it: a real or a complex 1-D array. *)
Inductive array1 : Type :=
| RealArr (l : list Q)
| ComplexArr (l : list C).

Definition array1_len (a : array1) : Z :=
  match a with RealArr l => len l | ComplexArr l => len l end.

(** [np.iscomplexobj]. *)
Definition iscomplexobj (a : array1) : bool :=
  match a with RealArr _ => false | ComplexArr _ => true end.

(** A Python object: [ident] is its identity, what [is] compares. *)
Record pyobj : Type := { ident : nat; value : array1 }.

Definition py_is (a b : pyobj) : bool := (ident a =? ident b)%nat.

(** The stack of segments, one row per segment. *)
Inductive array2 : Type :=
| RealRows (r : list (list Q))
| ComplexRows (r : list (list C)).

Inductive buffer : Type :=
| RealBuf (l : list Q)
| ComplexBuf (l : list C).

(** An n-dimensional array: its shape and its elements in row-major
    order. *)
Record ndarray : Type := { shape : list nat; buf : buffer }.

Definition size (a : ndarray) : nat := fold_right Nat.mul 1%nat (shape a).

(** [a.real]: a real array is returned as it is. *)
Definition real (a : ndarray) : ndarray :=
  match buf a with
  | RealBuf _ => a
  | ComplexBuf l => {| shape := shape a; buf := RealBuf (map Cre l) |}
  end.

Fixpoint chunks {A : Type} (n k : nat) (l : list A) : list (list A) :=
  match k with
  | O => []
  | S k' => firstn n l :: chunks n k' (skipn n l)
  end.

(** [np.rollaxis(result, -1, -2)] on rows of [ncols] entries: the flat
    row-major data of the transposed array. *)
Definition transpose_flat {A : Type} (ncols : nat) (rows : list (list A))
  : list A :=
  flat_map (fun j => flat_map (fun row => at_index row (Z.of_nat j)) rows)
           (seq 0 ncols).

Fixpoint mapM {A B : Type} (f : A -> result B) (l : list A)
  : result (list B) :=
  match l with
  | [] => ok []
  | a :: l' => b <- f a ;; bs <- mapM f l' ;; ok (b :: bs)
  end.

(** ** Sorting, median and mean along the last axis *)

Fixpoint insert_sorted {A : Type} (leb : A -> A -> bool) (a : A) (l : list A)
  : list A :=
  match l with
  | [] => [a]
  | b :: l' => if leb a b then a :: l else b :: insert_sorted leb a l'
  end.

Definition sort {A : Type} (leb : A -> A -> bool) (l : list A) : list A :=
  fold_right (insert_sorted leb) [] l.

(** [np.median] of a 1-D array: the middle element of the sorted data, or
    the mean of the two middle elements. *)
Definition median {A : Type} `{Scalar A} (l : list A) : A :=
  let s := sort sleb l in
  let n := length l in
  if Nat.even n
  then sscale (1 # 2) (sadd (nth (n / 2 - 1) s szero) (nth (n / 2) s szero))
  else nth (n / 2) s szero.

(** [np.arange(1., m + 1)] as rationals. *)
Definition arange_from_1 (m : Z) : list Q :=
  map (fun i => Q_of_Z (Z.of_nat i + 1)) (seq 0 (Z.to_nat m)).

(** [_median_bias] (lines 119-121). *)
Definition _median_bias (n : Z) : Q :=
  let ii_2 := map (fun v => 2 * v)%Q (arange_from_1 ((n - 1) / 2)) in
  (1 + ssum (map (fun v => 1 / (v + 1) - 1 / v) ii_2))%Q.

(** Reduction of a row-major buffer along the last axis of length [n]. *)
Definition reduce_last {A : Type} (f : list A -> A) (n k : nat) (l : list A)
  : list A :=
  map f (chunks n k l).

Definition last_dim (s : list nat) : nat := last s 0%nat.

(** The averaging block of [csd] (lines 143-153). *)
Definition csd_average (Pxy : ndarray) (average : string) : result ndarray :=
  if (2 <=? length (shape Pxy))%nat && (0 <? size Pxy)%nat then
    if (1 <? last_dim (shape Pxy))%nat then
      let n := last_dim (shape Pxy) in
      let outer := removelast (shape Pxy) in
      let k := fold_right Nat.mul 1%nat outer in
      if String.eqb average "median" then
        let bias := _median_bias (Z.of_nat n) in
        ok {| shape := outer;
              buf := match buf Pxy with
                     | RealBuf l =>
                         RealBuf (map (fun m => m / bias)%Q
                                      (reduce_last median n k l))
                     | ComplexBuf l =>
                         ComplexBuf (map (fun m => Cscale (/ bias) m)
                                         (reduce_last median n k l))
                     end |}
      else if String.eqb average "mean" then
        ok {| shape := outer;
              buf := match buf Pxy with
                     | RealBuf l => RealBuf (reduce_last smean n k l)
                     | ComplexBuf l => ComplexBuf (reduce_last smean n k l)
                     end |}
      else raise (ValueError "average must be median or mean")
    else ok {| shape := removelast (shape Pxy); buf := buf Pxy |}
  else ok Pxy.

(** ** The segmenter and detrending *)

(** [np.lib.stride_tricks.as_strided(x, shape=(count, nperseg),
    strides=(step*s, s))]: row [i] holds [x[i*step], ..., x[i*step +
    nperseg - 1]].  NumPy refuses a negative dimension; it does not check
    that the rows stay inside the buffer, and here an index outside [x]
    contributes no element. *)
Definition as_strided {A : Type} (x : list A) (count nperseg step : Z)
  : result (list (list A)) :=
  if (count <? 0) || (nperseg <? 0)
  then raise (ValueError "negative dimensions are not allowed")
  else ok (map (fun i =>
                  flat_map (fun j => at_index x (Z.of_nat i * step + Z.of_nat j))
                           (seq 0 (Z.to_nat nperseg)))
               (seq 0 (Z.to_nat count))).

(** The segmenting step of [_fft_helper] (lines 437-445). *)
Definition segmenter {A : Type} (x : list A) (nperseg noverlap : Z)
  : result (list (list A)) :=
  if (nperseg =? 1) && (noverlap =? 0) then ok (map (fun v => [v]) x)
  else
    let step := nperseg - noverlap in
    if step =? 0 then raise ZeroDivisionError
    else as_strided x ((len x - noverlap) / step) nperseg step.

Definition str_in (s : string) (l : list string) : bool :=
  existsb (String.eqb s) l.

Definition detrend_constant {A : Type} `{Scalar A} (rows : list (list A))
  : list (list A) :=
  map (fun row => map (fun v => ssub v (smean row)) row) rows.

(** [signaltools_detrend(data, type=..., axis=-1)] (lines 464-508).  The
    linear branch reaches [_prod], a name the module never defines. *)
Definition signaltools_detrend (data : array2) (type : string)
  : result array2 :=
  if negb (str_in type ["linear"; "l"; "constant"; "c"])
  then raise (ValueError "Trend type must be 'linear' or 'constant'.")
  else if str_in type ["constant"; "c"] then
    ok match data with
       | RealRows r => RealRows (detrend_constant r)
       | ComplexRows r => ComplexRows (detrend_constant r)
       end
  else raise (NameError "_prod").

(** The [detrend] argument: a falsy value, a string, or a callable. *)
Inductive detrend_spec : Type :=
| DetrendFalsy
| DetrendStr (s : string)
| DetrendCallable (f : array2 -> result array2).

(** The choice of [detrend_func] (lines 345-359), with [axis = -1]. *)
Definition detrend_func (detrend : detrend_spec) (d : array2) : result array2 :=
  match detrend with
  | DetrendFalsy => ok d
  | DetrendStr s =>
      if String.eqb s "" then ok d else signaltools_detrend d s
  | DetrendCallable f => f d
  end.

(** [np.fft.fftfreq(n, d)] and [np.fft.rfftfreq(n, d)] (lines 510-515). *)
Definition sp_fft_fftfreq (n : Z) (d : Q) : list Q :=
  let val := (1 / (Q_of_Z n * d))%Q in
  let pos := map (fun i => Q_of_Z (Z.of_nat i)) (seq 0 (Z.to_nat ((n - 1) / 2 + 1))) in
  let neg := map (fun i => Q_of_Z (- (n / 2) + Z.of_nat i)) (seq 0 (Z.to_nat (n / 2))) in
  map (fun v => v * val)%Q (pos ++ neg).

Definition sp_fft_rfftfreq (n : Z) (d : Q) : list Q :=
  let val := (1 / (Q_of_Z n * d))%Q in
  map (fun i => Q_of_Z (Z.of_nat i) * val)%Q (seq 0 (Z.to_nat (n / 2 + 1))).

(** [np.arange(start, stop, step)] on floats. *)
Definition np_arange (start stop step : Q) : list Q :=
  let k := Z.to_nat (Qceiling ((stop - start) / step)) in
  map (fun i => start + Q_of_Z (Z.of_nat i) * step)%Q (seq 0 k).

(** In-place update of [row[start:stop]] (unit step) by [f]. *)
Definition slice_update {A : Type} (f : A -> A) (start stop : option Z)
  (row : list A) : list A :=
  let b := slice_adjust (len row) 1 start true in
  let e := slice_adjust (len row) 1 stop false in
  map (fun p => if (b <=? Z.of_nat (fst p)) && (Z.of_nat (fst p) <? e)
                then f (snd p) else snd p)
      (combine (seq 0 (length row)) row).

(** The one-sided correction of [_spectral_helper] (lines 406-411). *)
Definition onesided_correction (sides mode : string) (nfft : Z)
  (result : list (list C)) : list (list C) :=
  if String.eqb sides "onesided" && String.eqb mode "psd" then
    if negb (nfft mod 2 =? 0)
    then map (slice_update (Cscale 2) (Some 1) None) result
    else map (slice_update (Cscale 2) (Some 1) (Some (-1))) result
  else result.

(** The overlap default and its check in [_spectral_helper] (lines
    314-319). *)
Definition resolve_noverlap (noverlap : option Z) (nperseg : Z) : result Z :=
  let noverlap := match noverlap with
                  | None => nperseg / 2
                  | Some n => n
                  end in
  if noverlap >=? nperseg
  then raise (ValueError "noverlap must be less than nperseg.")
  else ok noverlap.

(** ** The bias factor as the specification words it

    The sum over odd [i = 1, 3, 5, ...], [i <= n - 2], of
    [1/(i+1) - 1/i], added to 1; kept apart from [_median_bias] to compare
    the two. *)
Definition bias_as_specified (n : Z) : Q :=
  let odd := map (fun t => Q_of_Z (2 * Z.of_nat t + 1))
                 (seq 0 (Z.to_nat ((n - 1) / 2))) in
  (1 + ssum (map (fun i => 1 / (i + 1) - 1 / i) odd))%Q.

(** The sum of [1/(2i+1) - 1/(2i)] for [i = 1, ..., m]. *)
Fixpoint bias_sum (m : nat) : Q :=
  match m with
  | O => 0
  | S m' => bias_sum m'
            + (1 / (2 * Q_of_Z (Z.of_nat m) + 1) - 1 / (2 * Q_of_Z (Z.of_nat m)))
  end%Q.

(** ** The window argument *)

(** A number, a name, a non-empty tuple headed by a name, or a sequence of
    coefficients (a Python list or a 1-D array). *)
Inductive window_spec : Type :=
| WinNum (beta : Q)
| WinStr (s : string)
| WinTuple (winstr : string) (args : list Q)
| WinArray (w : list Q).

Definition _extend (M : Z) (sym : bool) : Z * bool :=
  if negb sym then (M + 1, true) else (M, false).

Definition _len_guards (M : Z) : result bool :=
  if M <? 0
  then raise (ValueError "Window length M must be a non-negative integer")
  else ok (M <=? 1).

Definition _truncate {A : Type} (w : list A) (needed : bool) : list A :=
  if needed then removelast w else w.

(** [np.linspace(start, stop, num)] for [num >= 2]. *)
Definition np_linspace (start stop : Q) (num : Z) : list Q :=
  let step := ((stop - start) / Q_of_Z (num - 1))%Q in
  let y := map (fun i => Q_of_Z (Z.of_nat i) * step + start)%Q
               (seq 0 (Z.to_nat num)) in
  removelast y ++ [stop].

(** ** A rational reference instance of the library parameters

    Used to run the model on concrete inputs: [np.pi] as 355/113, the
    cosine by Bhaskara's rational approximation
    [(pi^2 - 4 t^2) / (pi^2 + t^2)] on [[-pi/2, pi/2]] and the symmetries
    of the cosine elsewhere, the square root by Newton's iteration, the
    transforms by the defining sum of the discrete Fourier transform, and
    [float()] on plain decimal literals. *)

Definition ref_pi : Q := 355 # 113.

(** The angle brought into [[-pi, pi)]. *)
Definition reduce_angle (x : Q) : Q :=
  let t := (2 * ref_pi)%Q in
  Qred (x - Q_of_Z (Qfloor (x / t + (1 # 2))) * t).

Definition bhaskara (t : Q) : Q :=
  Qred ((ref_pi * ref_pi - 4 * (t * t)) / (ref_pi * ref_pi + t * t)).

Definition ref_cos (x : Q) : Q :=
  let y := Qabs (reduce_angle x) in
  if Qle_bool y (ref_pi / 2) then bhaskara y
  else Qred (- bhaskara (ref_pi - y)).

Definition ref_sin (x : Q) : Q := ref_cos (x - ref_pi / 2).

Fixpoint newton_sqrt (fuel : nat) (x y : Q) : Q :=
  match fuel with
  | O => y
  | S f => newton_sqrt f x (Qred ((y + x / y) / 2))
  end.

Definition ref_sqrt (x : Q) : Q :=
  if Qle_bool x 0 then 0%Q else newton_sqrt 6 x (Qred ((1 + x) / 2)).

(** [x] cropped or zero-padded to [n] entries, as the transforms do. *)
Definition fit_length {A : Type} (zero : A) (n : nat) (x : list A) : list A :=
  firstn n x ++ repeat zero (n - length x).

Definition ref_fft (n : Z) (x : list C) : list C :=
  let xs := fit_length (0%Q, 0%Q) (Z.to_nat n) x in
  map (fun k =>
         fold_left Cadd
           (map (fun p =>
                   let a := (2 * ref_pi * Q_of_Z ((Z.of_nat (fst p) * Z.of_nat k) mod n)
                             / Q_of_Z n)%Q in
                   Cmul (snd p) (ref_cos a, - ref_sin a)%Q)
                (combine (seq 0 (length xs)) xs))
           (0%Q, 0%Q))
      (seq 0 (Z.to_nat n)).

Definition ref_rfft (n : Z) (x : list Q) : list C :=
  firstn (Z.to_nat (n / 2 + 1)) (ref_fft n (map C_of_Q x)).

Definition is_digit (c : Ascii.ascii) : bool :=
  (48 <=? Ascii.nat_of_ascii c)%nat && (Ascii.nat_of_ascii c <=? 57)%nat.

Fixpoint skip_digits (s : string) : string :=
  match s with
  | String c s' => if is_digit c then skip_digits s' else s
  | EmptyString => s
  end.

Definition starts_with_digit (s : string) : bool :=
  match s with String c _ => is_digit c | EmptyString => false end.

Definition ref_float_accepts (s : string) : bool :=
  let body := match s with
              | String "+"%char s' => s'
              | String "-"%char s' => s'
              | _ => s
              end in
  if str_in body ["nan"; "inf"; "infinity"] then true
  else if starts_with_digit body then
    match skip_digits body with
    | EmptyString => true
    | String "."%char s' => String.eqb (skip_digits s') ""
    | _ => false
    end
  else match body with
       | String "."%char s' => starts_with_digit s' && String.eqb (skip_digits s') ""
       | _ => false
       end.

(** ** The spectral engine, over the library parameters *)

Section Welch.

Variable np_pi : Q.
Variable np_cos : Q -> Q.
Variable np_sqrt : Q -> Q.
(** [np.fft.fft(row, n)] and [np.fft.rfft(row, n)] on one row. *)
Variable np_fft : Z -> list C -> list C.
Variable np_rfft : Z -> list Q -> list C.
(** Whether [float(s)] accepts the string [s]. *)
Variable float_accepts : string -> bool.

(** [general_cosine] (lines 24-34). *)
Definition general_cosine (M : Z) (a : list Q) (sym : bool)
  : result (list Q) :=
  g <- _len_guards M ;;
  if (g : bool) then np_full 1%Q M
  else
    let (M1, needs_trunc) := _extend M sym in
    let fac := np_linspace (- np_pi) np_pi M1 in
    zeros <- np_full 0%Q M1 ;;
    let w := fold_left
               (fun w k =>
                  map2 Qplus w
                       (map (fun f => nth k a 0 * np_cos (Q_of_Z (Z.of_nat k) * f))%Q
                            fac))
               (seq 0 (length a)) zeros in
    ok (_truncate w needs_trunc).

Definition general_hamming (M : Z) (alpha : Q) (sym : bool)
  : result (list Q) :=
  general_cosine M [alpha; 1 - alpha]%Q sym.

Definition hann (M : Z) (sym : bool) : result (list Q) :=
  general_hamming M (1 # 2) sym.

(** A window function of the catalogue, called as [winfunc(M, sym)]. *)
Definition winfunc : Type := Z -> bool -> result (list Q).

Definition _win_equiv_raw : list (list string * (winfunc * bool)) :=
  [ (["hanning"; "hann"; "han"], (hann, false)) ].

Definition _win_equiv : list (string * winfunc) :=
  flat_map (fun kv : list string * (winfunc * bool) =>
              map (fun key => (key, fst (snd kv))) (fst kv))
           _win_equiv_raw.

Definition _needs_param : list string :=
  flat_map (fun kv : list string * (winfunc * bool) =>
              if snd (snd kv) then fst kv else [])
           _win_equiv_raw.

Fixpoint dict_get {V : Type} (d : list (string * V)) (key : string)
  : option V :=
  match d with
  | [] => None
  | (k, v) :: d' => if String.eqb k key then Some v else dict_get d' key
  end.

(** Look [winstr] up and call the function on [(Nx,) + args + (sym,)]:
    every catalogue function takes [(M, sym)] only. *)
Definition call_window (winstr : string) (Nx : Z) (args : list Q) (sym : bool)
  : result (list Q) :=
  match dict_get _win_equiv winstr with
  | None => raise (ValueError "Unknown window type.")
  | Some f =>
      match args with
      | [] => f Nx sym
      | _ :: _ => raise (TypeError "too many positional arguments")
      end
  end.

(** [get_window] (lines 60-90). *)
Definition get_window (window : window_spec) (Nx : Z) (fftbins : bool)
  : result (list Q) :=
  let sym := negb fftbins in
  match window with
  | WinNum beta => hann Nx sym
  | WinStr s =>
      if float_accepts s then hann Nx sym
      else if str_in s _needs_param
      then raise (ValueError "The window needs one or more parameters -- pass a tuple.")
      else call_window s Nx [] sym
  | WinTuple winstr args => call_window winstr Nx args sym
  | WinArray _ => raise (ValueError "as window type is not supported.")
  end.

(** [_triage_segments] (lines 93-117). *)
Definition _triage_segments (window : window_spec) (nperseg : option Z)
  (input_length : Z) : result (list Q * Z) :=
  let by_name :=
    let nperseg1 := match nperseg with None => 256 | Some n => n end in
    nperseg2 <- (if nperseg1 >? input_length
                 then _ <- warnings_warn "nperseg is greater than input length" ;;
                      ok input_length
                 else ok nperseg1) ;;
    win <- get_window window nperseg2 true ;;
    ok (win, nperseg2) in
  match window with
  | WinStr _ => by_name
  | WinTuple _ _ => by_name
  | WinNum _ => raise (ValueError "window must be 1-D")
  | WinArray win =>
      if input_length <? len win
      then raise (ValueError "window is longer than input signal")
      else match nperseg with
           | None => ok (win, len win)
           | Some n =>
               if negb (n =? len win)
               then raise (ValueError "value specified for nperseg is different from length of window")
               else ok (win, n)
           end
  end.

(** [_fft_helper] (lines 435-461). *)
Definition _fft_helper (x : array1) (win : list Q)
  (detrend_func : array2 -> result array2)
  (nperseg noverlap nfft : Z) (sides : string) : result (list (list C)) :=
  strided <- match x with
             | RealArr l => r <- segmenter l nperseg noverlap ;; ok (RealRows r)
             | ComplexArr l =>
                 r <- segmenter l nperseg noverlap ;; ok (ComplexRows r)
             end ;;
  detrended <- detrend_func strided ;;
  windowed <- match detrended with
              | RealRows r =>
                  r' <- mapM (broadcast2 sscale win) r ;; ok (RealRows r')
              | ComplexRows r =>
                  r' <- mapM (broadcast2 sscale win) r ;; ok (ComplexRows r')
              end ;;
  if String.eqb sides "twosided" then
    ok match windowed with
       | RealRows r => map (fun row => np_fft nfft (map C_of_Q row)) r
       | ComplexRows r => map (np_fft nfft) r
       end
  else
    ok match windowed with
       | RealRows r => map (np_rfft nfft) r
       | ComplexRows r => map (fun row => np_rfft nfft (map Cre row)) r
       end.

(** [np.concatenate((x, np.zeros(n)), -1)]. *)
Definition array1_pad (a : array1) (n : Z) : result array1 :=
  match a with
  | RealArr l => z <- np_full 0%Q n ;; ok (RealArr (l ++ z))
  | ComplexArr l => z <- np_full (0%Q, 0%Q) n ;; ok (ComplexArr (l ++ z))
  end.

(** [boundary_funcs[boundary](x, n, axis=-1)] for a non-[None] key. *)
Definition ext_func (boundary : string) (a : array1) (n : Z) : result array1 :=
  match a with
  | RealArr l =>
      match boundary_funcs boundary with
      | Some f => r <- f l n ;; ok (RealArr r)
      | None => raise (TypeError "'NoneType' object is not callable")
      end
  | ComplexArr l =>
      match boundary_funcs boundary with
      | Some f => r <- f l n ;; ok (ComplexArr r)
      | None => raise (TypeError "'NoneType' object is not callable")
      end
  end.

Definition empty_array : ndarray := {| shape := [0%nat]; buf := RealBuf [] |}.

(** What [_spectral_helper] has settled when the input checks are done:
    the signals as they go to the segmenter, the window, and the segment,
    overlap and transform lengths. *)
Record prepared : Type := {
  px : array1;
  py : array1;
  pwin : list Q;
  pnperseg : Z;
  pnoverlap : Z;
  pnfft : Z
}.

(** Lines 287-342 of [_spectral_helper]: zero-padding of the shorter
    input, the segment triage, the checks of [nfft] and [noverlap], the
    boundary extension and the padding to whole segments. *)
Definition prepare_segments (same_data : bool) (x0 y0 : array1)
  (window : window_spec) (nperseg noverlap nfft : option Z)
  (boundary : option string) (padded : bool) : result prepared :=
  (* Check if x and y are the same length, zero-pad if necessary *)
  xy <- (if negb same_data && negb (array1_len x0 =? array1_len y0) then
           if array1_len x0 <? array1_len y0
           then x1 <- array1_pad x0 (array1_len y0 - array1_len x0) ;;
                ok (x1, y0)
           else y1 <- array1_pad y0 (array1_len x0 - array1_len y0) ;;
                ok (x0, y1)
         else ok (x0, y0)) ;;
  let (x1, y1) := (xy : array1 * array1) in
  _ <- (match nperseg with
        | Some n => if n <? 1
                    then raise (ValueError "nperseg must be a positive integer")
                    else ok tt
        | None => ok tt
        end) ;;
  wn <- _triage_segments window nperseg (array1_len x1) ;;
  let (win, nperseg) := (wn : list Q * Z) in
  nfft <- (match nfft with
           | None => ok nperseg
           | Some n => if n <? nperseg
                       then raise (ValueError "nfft must be greater than or equal to nperseg.")
                       else ok n
           end) ;;
  noverlap <- resolve_noverlap noverlap nperseg ;;
  let nstep := nperseg - noverlap in
  xy <- (match boundary with
         | Some b =>
             x2 <- ext_func b x1 (nperseg / 2) ;;
             if negb same_data
             then y2 <- ext_func b y1 (nperseg / 2) ;; ok (x2, y2)
             else ok (x2, y1)
         | None => ok (x1, y1)
         end) ;;
  let (x2, y2) := (xy : array1 * array1) in
  xy <- (if padded then
           let nadd := (- (array1_len x2 - nperseg) mod nstep) mod nperseg in
           x3 <- array1_pad x2 nadd ;;
           if negb same_data
           then y3 <- array1_pad y2 nadd ;; ok (x3, y3)
           else ok (x3, y2)
         else ok (x2, y2)) ;;
  let (x3, y3) := (xy : array1 * array1) in
  ok {| px := x3; py := y3; pwin := win; pnperseg := nperseg;
        pnoverlap := noverlap; pnfft := nfft |}.

(** [_spectral_helper] (lines 228-432) on 1-D inputs with [axis = -1].
    [fs] is a Python float: [1/fs] raises on zero. *)
Definition _spectral_helper (x y : pyobj) (fs : Q) (window : window_spec)
  (nperseg noverlap nfft : option Z) (detrend : detrend_spec)
  (return_onesided : bool) (scaling mode : string)
  (boundary : option string) (padded : bool)
  : result (list Q * list Q * ndarray) :=
  if negb (str_in mode ["psd"; "stft"])
  then raise (ValueError "Unknown value for mode, must be one of: {'psd', 'stft'}")
  else if match boundary with
          | Some b => negb (str_in b ["even"; "odd"; "constant"; "zeros"])
          | None => false
          end
  then raise (ValueError "Unknown boundary option")
  else
  let same_data := py_is y x in
  if negb same_data && negb (String.eqb mode "psd")
  then raise (ValueError "x and y must be equal if mode is 'stft'")
  else
  if (if same_data then array1_len (value x) =? 0
      else (array1_len (value x) =? 0) || (array1_len (value y) =? 0))
  then ok ([], [], empty_array)
  else
  p <- prepare_segments same_data (value x) (value y) window nperseg
                        noverlap nfft boundary padded ;;
  let x := px p in
  let y := py p in
  let win := pwin p in
  let nperseg := pnperseg p in
  let noverlap := pnoverlap p in
  let nfft := pnfft p in
  scale <- (if String.eqb scaling "density"
            then ok (1 / (fs * ssum (map (fun w => w * w) win)))%Q
            else if String.eqb scaling "spectrum"
            then ok (1 / (ssum win * ssum win))%Q
            else raise (ValueError "Unknown scaling")) ;;
  let scale := if String.eqb mode "stft" then np_sqrt scale else scale in
  sides <- (if return_onesided then
              if iscomplexobj x
              then _ <- warnings_warn "Input data is complex, switching to return_onesided=False" ;;
                   ok "twosided"
              else if negb same_data && iscomplexobj y
              then _ <- warnings_warn "Input data is complex, switching to return_onesided=False" ;;
                   ok "twosided"
              else ok "onesided"
            else ok "twosided") ;;
  if Qeq_bool fs 0 then raise ZeroDivisionError
  else
  let freqs := if String.eqb sides "twosided"
               then sp_fft_fftfreq nfft (1 / fs)
               else sp_fft_rfftfreq nfft (1 / fs) in
  result <- _fft_helper x win (detrend_func detrend) nperseg noverlap nfft sides ;;
  result <- (if negb same_data then
               result_y <- _fft_helper y win (detrend_func detrend)
                                       nperseg noverlap nfft sides ;;
               ok (map2 (map2 (fun a b => Cmul (Cconj a) b)) result result_y)
             else if String.eqb mode "psd"
             then ok (map (map (fun a => Cmul (Cconj a) a)) result)
             else ok result) ;;
  let result := map (map (Cscale scale)) result in
  let result := onesided_correction sides mode nfft result in
  let time := map (fun t => t / fs)%Q
                  (np_arange (Q_of_Z nperseg / 2)
                             (Q_of_Z (array1_len x) - Q_of_Z nperseg / 2 + 1)
                             (Q_of_Z (nperseg - noverlap)))%Q in
  let time := match boundary with
              | Some _ => map (fun t => t - (Q_of_Z nperseg / 2) / fs)%Q time
              | None => time
              end in
  let nfreq := Z.to_nat (if String.eqb sides "twosided" then nfft
                         else nfft / 2 + 1) in
  let flat := transpose_flat nfreq result in
  ok (freqs, time,
      {| shape := [nfreq; length result];
         buf := if same_data && negb (String.eqb mode "stft")
                then RealBuf (map Cre flat)
                else ComplexBuf flat |}).

(** The keyword arguments [welch] and [csd] share. *)
Record config : Type := {
  fs : Q;
  window : window_spec;
  nperseg : option Z;
  noverlap : option Z;
  nfft : option Z;
  detrend : detrend_spec;
  return_onesided : bool;
  scaling : string;
  average : string
}.

(** The defaults of the two signatures (lines 123-125 and 135-137). *)
Definition default_config : config := {|
  fs := 1; window := WinStr "hann"; nperseg := None; noverlap := None;
  nfft := None; detrend := DetrendStr "constant"; return_onesided := true;
  scaling := "density"; average := "mean"
|}.

(** [csd] (lines 135-155). *)
Definition csd (x y : pyobj) (c : config) : result (list Q * ndarray) :=
  r <- _spectral_helper x y (fs c) (window c) (nperseg c) (noverlap c)
         (nfft c) (detrend c) (return_onesided c) (scaling c) "psd"
         None false ;;
  let '(freqs, _, Pxy) := (r : list Q * list Q * ndarray) in
  Pxy <- csd_average Pxy (average c) ;;
  ok (freqs, Pxy).

(** [welch] (lines 123-133). *)
Definition welch (x : pyobj) (c : config) : result (list Q * ndarray) :=
  r <- csd x x c ;;
  let (freqs, Pxx) := (r : list Q * ndarray) in
  ok (freqs, real Pxx).

(** ** Predicates on results *)

(** The array holds real data ([dtype] float64). *)
Definition is_real (a : ndarray) : bool :=
  match buf a with RealBuf _ => true | ComplexBuf _ => false end.

(** The spectrum of an engine result, if there is one, is real. *)
Definition helper_real (r : result (list Q * list Q * ndarray)) : Prop :=
  match r with
  | inr (_, _, P) => is_real P = true
  | inl _ => True
  end.

(** The length along the transform axis that [_spectral_helper] hands to
    [_triage_segments]: that of [x], after the shorter of two distinct
    inputs has been zero-padded (lines 288-297). *)
Definition input_length (x y : pyobj) : Z :=
  if py_is y x then array1_len (value x)
  else Z.max (array1_len (value x)) (array1_len (value y)).

(** ** Concrete inputs used below *)

Definition cfg (np : option Z) (nov : option Z) (avg : string) : config := {|
  fs := 1; window := WinStr "hann"; nperseg := np; noverlap := nov;
  nfft := None; detrend := DetrendStr "constant"; return_onesided := true;
  scaling := "density"; average := avg
|}.

Definition x_empty : pyobj := {| ident := 0; value := RealArr [] |}.
Definition x_two : pyobj := {| ident := 1; value := RealArr [1; 2]%Q |}.
Definition x_three : pyobj := {| ident := 2; value := RealArr [1; 2; 4]%Q |}.
Definition x_complex : pyobj :=
  {| ident := 3; value := ComplexArr [(1, 1); (2, 0); (3, 0); (4, 0)]%Q |}.



(** The keys of [_win_equiv_raw] (line 45). *)
Definition window_names : list string := ["hanning"; "hann"; "han"].

(** The number of elements an array holds in its buffer. *)
Definition buf_len (b : buffer) : nat :=
  match b with RealBuf l => length l | ComplexBuf l => length l end.

(** The [detrend] arguments that cannot fail: a falsy value and the
    constant type. *)
Definition detrend_total (d : detrend_spec) : bool :=
  match d with
  | DetrendFalsy => true
  | DetrendStr t => str_in t [""; "constant"; "c"]
  | DetrendCallable _ => false
  end.

(** The segment length a call asks for: the argument, or 256. *)
Definition requested_nperseg (nperseg : option Z) : Z :=
  match nperseg with Some n => n | None => 256 end.

(** A window given by name or by a tuple. *)
Definition is_named (w : window_spec) : bool :=
  match w with WinStr _ | WinTuple _ _ => true | _ => false end.

(** The spectrum of an engine result, if there is one, is complex. *)
Definition helper_complex (r : result (list Q * list Q * ndarray)) : Prop :=
  match r with
  | inr (_, _, P) => is_real P = false
  | inl _ => True
  end.

(** The array holds real data, none of it negative. *)
Definition nonneg_array (P : ndarray) : Prop :=
  match buf P with
  | RealBuf l => Forall (fun v => 0 <= v)%Q l
  | ComplexBuf _ => False
  end.

(** The spectrum of an engine result, if there is one, is real and has no
    negative entry. *)
Definition helper_nonneg (r : result (list Q * list Q * ndarray)) : Prop :=
  match r with
  | inr (_, _, P) => nonneg_array P
  | inl _ => True
  end.
(** * Properties *)

Set Default Proof Using "Type".

(** ** The error monad *)

Lemma bind_ok_inv {A B : Type} (m : result A) (k : A -> result B) (b : B) :
  bind m k = ok b -> exists a, m = ok a /\ k a = ok b.
Proof.
  destruct m as [e | a]; simpl; intros Hk.
  - discriminate Hk.
  - exists a. split; [reflexivity | exact Hk].
Qed.

Lemma len_nonneg {A : Type} (l : list A) : 0 <= len l.
Proof. unfold len. lia. Qed.

Lemma len_app {A : Type} (l1 l2 : list A) : len (l1 ++ l2) = len l1 + len l2.
Proof. unfold len. rewrite length_app. lia. Qed.

Lemma len_repeat {A : Type} (v : A) (n : nat) : len (repeat v n) = Z.of_nat n.
Proof. unfold len. now rewrite repeat_length. Qed.

Lemma np_full_ok {A : Type} (v : A) (n : Z) :
  0 <= n -> np_full v n = ok (repeat v (Z.to_nat n)).
Proof.
  intros Hn. unfold np_full.
  destruct (n <? 0) eqn:E; [apply Z.ltb_lt in E; lia | reflexivity].
Qed.

(** ** Python slices *)

Lemma at_index_nth_error {A : Type} (l : list A) (i : nat) (v : A) :
  nth_error l i = Some v -> at_index l (Z.of_nat i) = [v].
Proof.
  intros Hv. unfold at_index.
  destruct (Z.of_nat i <? 0) eqn:E; [apply Z.ltb_lt in E; lia |].
  now rewrite Nat2Z.id, Hv.
Qed.

Lemma slice_first {A : Type} (a : A) (l : list A) :
  axis_slice (a :: l) (Some 0) (Some 1) None = ok [a].
Proof.
  unfold axis_slice, py_slice, slice_adjust, slice_length.
  change (1 =? 0) with false. change (1 <? 0) with false.
  change (0 <? 0) with false. cbv iota.
  assert (Hl : 1 <= len (a :: l)) by (unfold len; simpl length; lia).
  rewrite (Z.min_l 0) by lia. rewrite (Z.min_l 1) by lia.
  reflexivity.
Qed.

Lemma nth_error_last {A : Type} (l : list A) (a d : A) :
  nth_error (a :: l) (length l) = Some (last (a :: l) d).
Proof.
  revert a. induction l as [| b l IH]; intros a.
  - reflexivity.
  - change (nth_error (b :: l) (length l) = Some (last (b :: l) d)).
    apply IH.
Qed.

Lemma slice_last {A : Type} (a d : A) (l : list A) :
  axis_slice (a :: l) (Some (-1)) None None = ok [last (a :: l) d].
Proof.
  unfold axis_slice, py_slice, slice_adjust, slice_length.
  change (1 =? 0) with false. change (1 <? 0) with false.
  change (-1 <? 0) with true. cbv iota. simpl Bool.eqb. cbv iota.
  assert (Hl : len (a :: l) = Z.of_nat (length l) + 1)
    by (unfold len; simpl length; lia).
  rewrite Hl. rewrite Z.max_l by lia.
  replace (-1 + (Z.of_nat (length l) + 1)) with (Z.of_nat (length l)) by lia.
  destruct (Z.of_nat (length l) <? Z.of_nat (length l) + 1) eqn:E;
    [| apply Z.ltb_ge in E; lia].
  replace (Z.of_nat (length l) + 1 - Z.of_nat (length l) - 1) with 0 by lia.
  change (Z.to_nat (0 / 1 + 1)) with 1%nat. simpl seq. simpl flat_map.
  rewrite Z.add_0_r, app_nil_r.
  rewrite (at_index_nth_error _ _ _ (nth_error_last l a d)). reflexivity.
Qed.

Lemma broadcast2_ones {A : Type} `{Scalar A} (n : nat) (v : A) :
  (1 <= n)%nat ->
  broadcast2 smul (repeat sone n) [v] = ok (repeat (smul sone v) n).
Proof.
  intros Hn. unfold broadcast2. rewrite repeat_length.
  destruct n as [| [| n]]; [lia | reflexivity |].
  change (repeat sone (S (S n))) with (sone :: sone :: repeat sone n).
  cbn [Nat.eqb length map ok]. rewrite map_repeat. reflexivity.
Qed.

(** ** Boundary extension *)

Section Extension.

Context {A : Type} `{Scalar A}.

Lemma ext_noop (x : list A) (n : Z) :
  n < 1 ->
  even_ext x n = ok x /\ odd_ext x n = ok x
  /\ const_ext x n = ok x /\ zero_ext x n = ok x.
Proof.
  intros Hn. apply Z.ltb_lt in Hn.
  unfold even_ext, odd_ext, const_ext, zero_ext. rewrite Hn.
  repeat split; reflexivity.
Qed.

Lemma ext_too_big (x : list A) (n : Z) :
  1 <= n -> n > len x - 1 ->
  is_ValueError (even_ext x n) = true /\ is_ValueError (odd_ext x n) = true.
Proof.
  intros H1 Hbig. unfold even_ext, odd_ext.
  destruct (n <? 1) eqn:E; [apply Z.ltb_lt in E; lia |].
  apply Z.gtb_gt in Hbig. rewrite Hbig. split; reflexivity.
Qed.

Lemma zero_ext_any (x : list A) (n : Z) :
  1 <= n ->
  zero_ext x n
  = ok (repeat szero (Z.to_nat n) ++ x ++ repeat szero (Z.to_nat n)).
Proof.
  intros H1. unfold zero_ext.
  destruct (n <? 1) eqn:E; [apply Z.ltb_lt in E; lia |].
  rewrite np_full_ok by lia. reflexivity.
Qed.

Lemma const_ext_any (a : A) (l : list A) (n : Z) :
  1 <= n ->
  const_ext (a :: l) n
  = ok (repeat (smul sone a) (Z.to_nat n) ++ (a :: l)
        ++ repeat (smul sone (last (a :: l) szero)) (Z.to_nat n)).
Proof.
  intros H1. unfold const_ext.
  destruct (n <? 1) eqn:E; [apply Z.ltb_lt in E; lia |].
  rewrite slice_first. cbn [bind]. rewrite np_full_ok by lia. cbn [bind ok].
  rewrite broadcast2_ones by lia. cbn [bind ok].
  rewrite (slice_last a szero l). cbn [bind ok].
  rewrite broadcast2_ones by lia. reflexivity.
Qed.

(** The constant extension of the empty signal: there is no end sample
    to copy, [ones * left_end] has the shape of the empty [left_end] when
    [n = 1] and cannot be broadcast when [n >= 2]. *)
Lemma const_ext_empty (n : Z) :
  const_ext ([] : list A) 1 = ok []
  /\ (2 <= n ->
      const_ext ([] : list A) n
      = raise (ValueError "operands could not be broadcast together")).
Proof.
  split; [reflexivity |].
  intros Hn. unfold const_ext.
  destruct (n <? 1) eqn:E; [apply Z.ltb_lt in E; lia |].
  change (axis_slice ([] : list A) (Some 0) (Some 1) None) with (ok ([] : list A)).
  cbn [bind]. rewrite np_full_ok by lia. cbn [bind ok].
  destruct (Z.to_nat n) as [| [| k]] eqn:Hk; [lia | lia |].
  reflexivity.
Qed.

(** C9, as amended.  An extension length [n < 1] leaves the signal
    unchanged in all four modes.  For [n >= 1] exceeding
    [x.shape[axis] - 1], the even and odd extensions raise [ValueError];
    the constant and zero extensions have no such limit.  The zero
    extension returns every signal with [n] zeros added on each side; the
    constant extension returns every non-empty signal with [n] copies of
    its end samples added on each side.  The empty signal has no end
    sample: its constant extension is the empty signal for [n = 1] and
    raises [ValueError] for [n >= 2]. *)
Theorem boundary_extender_contract (x : list A) (n : Z) :
  (n < 1 ->
   even_ext x n = ok x /\ odd_ext x n = ok x
   /\ const_ext x n = ok x /\ zero_ext x n = ok x)
  /\ (1 <= n -> n > len x - 1 ->
      is_ValueError (even_ext x n) = true
      /\ is_ValueError (odd_ext x n) = true)
  /\ (1 <= n ->
      zero_ext x n
      = ok (repeat szero (Z.to_nat n) ++ x ++ repeat szero (Z.to_nat n)))
  /\ (1 <= n -> x <> [] ->
      const_ext x n
      = ok (repeat (smul sone (hd szero x)) (Z.to_nat n) ++ x
            ++ repeat (smul sone (last x szero)) (Z.to_nat n)))
  /\ (x = [] ->
      (n = 1 -> const_ext x n = ok [])
      /\ (2 <= n -> is_ValueError (const_ext x n) = true)).
Proof.
  split; [apply ext_noop |].
  split; [apply ext_too_big |].
  split; [apply zero_ext_any |].
  split.
  - intros H1 Hx. destruct x as [| a l]; [congruence |].
    now apply const_ext_any.
  - intros ->. split.
    + intros ->. apply (proj1 (const_ext_empty 1)).
    + intros Hn. now rewrite (proj2 (const_ext_empty n) Hn).
Qed.

End Extension.

(** ** The segmenter *)

Lemma skipn_step {A : Type} (x : list A) (k : nat) :
  (k < length x)%nat ->
  exists v, nth_error x k = Some v /\ skipn k x = v :: skipn (S k) x.
Proof.
  revert k. induction x as [| a x IH]; intros k Hk; simpl in Hk; [lia |].
  destruct k as [| k].
  - exists a. split; reflexivity.
  - destruct (IH k) as [v [Hv Hs]]; [lia |].
    exists v. split; [exact Hv | exact Hs].
Qed.

Lemma window_firstn_skipn {A : Type} (x : list A) (n k : nat) :
  (k + n <= length x)%nat ->
  flat_map (fun j => at_index x (Z.of_nat j)) (seq k n)
  = firstn n (skipn k x).
Proof.
  revert k. induction n as [| n IH]; intros k Hk; [reflexivity |].
  destruct (skipn_step x k) as [v [Hv Hs]]; [lia |].
  simpl seq. simpl flat_map. rewrite IH by lia.
  rewrite (at_index_nth_error _ _ _ Hv), Hs. reflexivity.
Qed.

Lemma flat_map_seq_shift {A : Type} (g : nat -> list A) (k n : nat) :
  flat_map (fun j => g (k + j)%nat) (seq 0 n) = flat_map g (seq k n).
Proof.
  revert k. induction n as [| n IH]; intros k; [reflexivity |].
  simpl seq. simpl flat_map. rewrite Nat.add_0_r. f_equal.
  rewrite <- seq_shift, flat_map_concat_map, map_map, <- flat_map_concat_map.
  rewrite <- (IH (S k)). apply flat_map_ext. intros j.
  now rewrite Nat.add_succ_r.
Qed.

Lemma strided_row {A : Type} (x : list A) (i : nat) (step nperseg : Z) :
  0 <= step -> 0 <= nperseg ->
  Z.of_nat i * step + nperseg <= len x ->
  flat_map (fun j => at_index x (Z.of_nat i * step + Z.of_nat j))
           (seq 0 (Z.to_nat nperseg))
  = firstn (Z.to_nat nperseg) (skipn (i * Z.to_nat step) x).
Proof.
  intros Hs Hn Hb. unfold len in Hb.
  rewrite <- window_firstn_skipn by nia.
  rewrite <- (flat_map_seq_shift (fun j => at_index x (Z.of_nat j))
                                 (i * Z.to_nat step)).
  apply flat_map_ext. intros j. f_equal. nia.
Qed.

Lemma length_firstn_skipn {A : Type} (x : list A) (n k : nat) :
  (k + n <= length x)%nat -> length (firstn n (skipn k x)) = n.
Proof.
  intros Hk. rewrite length_firstn, length_skipn. lia.
Qed.

(** C1.  For a signal of length [N] along the transform axis and
    [0 <= noverlap < nperseg], the segmenter returns exactly
    [floor((N - noverlap) / (nperseg - noverlap))] segments, each of
    [nperseg] samples; segment [i] is the window of [x] that starts at
    [i * (nperseg - noverlap)], so the samples after the last full window
    are in no segment and no error is raised for them.  The engine calls
    the segmenter with [noverlap < nperseg <= N] (lemma
    [prepare_segments_bounds]); [noverlap <= N] is what the count needs,
    a shorter signal making [as_strided] refuse a negative dimension. *)
Theorem segmenter_count {A : Type} (x : list A) (nperseg noverlap : Z) :
  0 <= noverlap < nperseg ->
  noverlap <= len x ->
  exists segs,
    segmenter x nperseg noverlap = ok segs
    /\ len segs = (len x - noverlap) / (nperseg - noverlap)
    /\ Forall (fun s => len s = nperseg) segs
    /\ forall i, (i < length segs)%nat ->
         nth i segs []
         = firstn (Z.to_nat nperseg)
                  (skipn (i * Z.to_nat (nperseg - noverlap)) x).
Proof.
  intros Hov HN. unfold segmenter.
  destruct ((nperseg =? 1) && (noverlap =? 0)) eqn:Hdeg.
  - apply andb_prop in Hdeg. destruct Hdeg as [H1 H0].
    apply Z.eqb_eq in H1. apply Z.eqb_eq in H0. subst nperseg noverlap.
    exists (map (fun v => [v]) x). split; [reflexivity |].
    split; [unfold len; rewrite length_map, Z.sub_0_r; now rewrite Z.div_1_r |].
    split; [apply Forall_forall; intros s Hs; apply in_map_iff in Hs;
            destruct Hs as [v [Hv _]]; now subst s |].
    intros i Hi. rewrite length_map in Hi.
    change (Z.to_nat (1 - 0)) with 1%nat. rewrite Nat.mul_1_r.
    destruct (skipn_step x i Hi) as [v [Hv Hs]]. rewrite Hs.
    change (firstn (Z.to_nat 1) (v :: skipn (S i) x)) with [v].
    rewrite (nth_indep _ [] [v]) by now rewrite length_map.
    rewrite (map_nth (fun v => [v])). f_equal.
    apply nth_error_nth with (d := v) in Hv. exact Hv.
  - set (step := nperseg - noverlap).
    assert (Hstep : 0 < step) by (unfold step; lia).
    destruct (step =? 0) eqn:E0; [apply Z.eqb_eq in E0; lia |].
    set (count := (len x - noverlap) / step).
    assert (Hcount : 0 <= count) by (apply Z.div_pos; lia).
    assert (Hfloor : step * count <= len x - noverlap)
      by (apply Z.mul_div_le; lia).
    unfold as_strided.
    destruct (count <? 0) eqn:Ec; [apply Z.ltb_lt in Ec; lia |].
    destruct (nperseg <? 0) eqn:En; [apply Z.ltb_lt in En; lia |].
    cbn [orb].
    assert (Hrow : forall i, (i < Z.to_nat count)%nat ->
              flat_map (fun j => at_index x (Z.of_nat i * step + Z.of_nat j))
                       (seq 0 (Z.to_nat nperseg))
              = firstn (Z.to_nat nperseg) (skipn (i * Z.to_nat step) x)).
    { intros i Hi. apply strided_row; [lia | lia |]. unfold step in *. nia. }
    eexists. split; [reflexivity |].
    split; [unfold len; rewrite length_map, length_seq; lia |].
    split.
    + apply Forall_forall. intros s Hs. apply in_map_iff in Hs.
      destruct Hs as [i [Hi Hin]]. apply in_seq in Hin. subst s.
      rewrite Hrow by lia. unfold len. rewrite length_firstn_skipn; [lia |].
      unfold len in Hfloor. unfold step in *. nia.
    + intros i Hi. rewrite length_map, length_seq in Hi.
      rewrite (nth_indep _ [] ((fun i0 => flat_map
                 (fun j => at_index x (Z.of_nat i0 * step + Z.of_nat j))
                 (seq 0 (Z.to_nat nperseg))) 0%nat))
        by now rewrite length_map, length_seq.
      rewrite (map_nth (fun i0 => flat_map
                 (fun j => at_index x (Z.of_nat i0 * step + Z.of_nat j))
                 (seq 0 (Z.to_nat nperseg)))).
      rewrite seq_nth by exact Hi. now apply Hrow.
Qed.

(** ** The one-sided correction *)

Lemma nth_error_combine_seq {A : Type} (row : list A) (s k : nat) :
  nth_error (combine (seq s (length row)) row) k
  = option_map (fun v => ((s + k)%nat, v)) (nth_error row k).
Proof.
  revert s k. induction row as [| a row IH]; intros s k.
  - destruct k; reflexivity.
  - destruct k as [| k]; simpl.
    + now rewrite Nat.add_0_r.
    + rewrite IH. now rewrite Nat.add_succ_r.
Qed.

Lemma slice_update_nth {A : Type} (f : A -> A) (start stop : option Z)
  (row : list A) (k : nat) :
  nth_error (slice_update f start stop row) k
  = option_map
      (fun v => if (slice_adjust (len row) 1 start true <=? Z.of_nat k)
                   && (Z.of_nat k <? slice_adjust (len row) 1 stop false)
                then f v else v)
      (nth_error row k).
Proof.
  unfold slice_update. rewrite nth_error_map, nth_error_combine_seq.
  destruct (nth_error row k); reflexivity.
Qed.

Lemma slice_update_length {A : Type} (f : A -> A) (start stop : option Z)
  (row : list A) :
  length (slice_update f start stop row) = length row.
Proof.
  unfold slice_update.
  now rewrite length_map, length_combine, length_seq, Nat.min_id.
Qed.

(** The correction on one segment's spectrum: bin 0 is left as it is and
    every other bin is doubled, except that for an even [nfft] the last
    bin is left as it is too. *)
Lemma onesided_correction_bins (nfft : Z) (result : list (list C)) (s k : nat)
  (row : list C) (v : C) :
  nth_error result s = Some row ->
  nth_error row k = Some v ->
  exists row',
    nth_error (onesided_correction "onesided" "psd" nfft result) s = Some row'
    /\ length row' = length row
    /\ nth_error row' k
       = Some (if (k =? 0)%nat then v
               else if (nfft mod 2 =? 0) && (k =? length row - 1)%nat then v
               else Cscale 2 v).
Proof.
  intros Hrow Hv.
  assert (Hk : (k < length row)%nat)
    by (apply nth_error_Some; rewrite Hv; discriminate).
  unfold onesided_correction.
  change (String.eqb "onesided" "onesided" && String.eqb "psd" "psd")
    with true. cbv iota.
  destruct (nfft mod 2 =? 0) eqn:Heven; cbn [negb andb].
  - exists (slice_update (Cscale 2) (Some 1) (Some (-1)) row).
    rewrite nth_error_map, Hrow. split; [reflexivity |].
    split; [apply slice_update_length |].
    rewrite slice_update_nth, Hv. cbn [option_map]. f_equal.
    unfold slice_adjust. change (1 <? 0) with false. change (-1 <? 0) with true.
    cbv iota. unfold len.
    rewrite Z.min_l by lia. rewrite Z.max_l by lia.
    destruct (k =? 0)%nat eqn:E0.
    + apply Nat.eqb_eq in E0. subst k. reflexivity.
    + apply Nat.eqb_neq in E0.
      destruct (1 <=? Z.of_nat k) eqn:E1; [| apply Z.leb_gt in E1; lia].
      destruct (k =? length row - 1)%nat eqn:El.
      * apply Nat.eqb_eq in El.
        destruct (Z.of_nat k <? -1 + Z.of_nat (length row)) eqn:E2;
          [apply Z.ltb_lt in E2; lia | reflexivity].
      * apply Nat.eqb_neq in El.
        destruct (Z.of_nat k <? -1 + Z.of_nat (length row)) eqn:E2;
          [reflexivity | apply Z.ltb_ge in E2; lia].
  - exists (slice_update (Cscale 2) (Some 1) None row).
    rewrite nth_error_map, Hrow. split; [reflexivity |].
    split; [apply slice_update_length |].
    rewrite slice_update_nth, Hv. cbn [option_map]. f_equal.
    unfold slice_adjust. change (1 <? 0) with false.
    cbn [Bool.eqb]. cbv iota. unfold len.
    rewrite Z.min_l by lia.
    destruct (k =? 0)%nat eqn:E0.
    + apply Nat.eqb_eq in E0. subst k. reflexivity.
    + apply Nat.eqb_neq in E0.
      destruct (1 <=? Z.of_nat k) eqn:E1; [| apply Z.leb_gt in E1; lia].
      destruct (Z.of_nat k <? Z.of_nat (length row)) eqn:E2;
        [reflexivity | apply Z.ltb_ge in E2; lia].
Qed.

(** ** Averaging *)

Lemma ssum_Q_snoc (l : list Q) (a : Q) :
  ssum (l ++ [a]) = (ssum l + a)%Q.
Proof. unfold ssum. now rewrite fold_left_app. Qed.

Lemma median_bias_sum (m : nat) :
  (ssum (map (fun v => 1 / (v + 1) - 1 / v)
             (map (fun v => 2 * v)
                  (map (fun i => Q_of_Z (Z.of_nat i + 1)) (seq 0 m))))
   == bias_sum m)%Q.
Proof.
  induction m as [| m IH]; [reflexivity |].
  rewrite seq_S, !map_app. cbn [map]. rewrite ssum_Q_snoc.
  cbn [bias_sum Nat.add]. rewrite IH.
  replace (Z.of_nat m + 1) with (Z.of_nat (S m)) by lia.
  reflexivity.
Qed.

Lemma median_bias_formula (n : Z) :
  (_median_bias n == 1 + bias_sum (Z.to_nat ((n - 1) / 2)))%Q.
Proof.
  unfold _median_bias, arange_from_1. now rewrite median_bias_sum.
Qed.

Lemma shape_snoc_facts (s : list nat) (n : nat) :
  s <> [] ->
  (2 <=? length (s ++ [n]))%nat = true
  /\ last_dim (s ++ [n]) = n
  /\ removelast (s ++ [n]) = s
  /\ fold_right Nat.mul 1%nat (s ++ [n])
     = (fold_right Nat.mul 1%nat s * n)%nat.
Proof.
  intros Hs. split; [| split; [| split]].
  - apply Nat.leb_le. rewrite length_app. simpl.
    destruct s; [congruence | simpl; lia].
  - unfold last_dim. apply last_last.
  - apply removelast_last.
  - clear Hs. induction s as [| a s IH]; simpl; [lia |].
    rewrite IH. lia.
Qed.

(** C3, as amended.  For a non-empty stack of [n >= 1] segments, median
    averaging returns, for [n > 1], the median of every group of [n]
    segment values divided by the bias factor, and for [n = 1] the single
    periodogram as it is; the bias factor is
    [1 + sum_{i=1}^{(n-1)//2} (1/(2i+1) - 1/(2i))]: the sum runs over the
    even numbers [2, 4, ..., <= n - 1], not over odd ones. *)
Theorem median_average_bias (s : list nat) (n : nat) (b : buffer) :
  s <> [] ->
  (0 < fold_right Nat.mul 1 s)%nat ->
  (1 <= n)%nat ->
  csd_average {| shape := s ++ [n]; buf := b |} "median"
  = ok {| shape := s;
          buf := if (n =? 1)%nat then b
                 else match b with
                      | RealBuf l =>
                          RealBuf
                            (map (fun m => m / _median_bias (Z.of_nat n))%Q
                                 (map median
                                    (chunks n (fold_right Nat.mul 1%nat s) l)))
                      | ComplexBuf l =>
                          ComplexBuf
                            (map (fun m =>
                                    Cscale (/ _median_bias (Z.of_nat n)) m)
                                 (map median
                                    (chunks n (fold_right Nat.mul 1%nat s) l)))
                      end |}
  /\ (_median_bias (Z.of_nat n)
      == 1 + bias_sum (Z.to_nat ((Z.of_nat n - 1) / 2)))%Q.
Proof.
  intros Hs Hsize Hn. split; [| apply median_bias_formula].
  destruct (shape_snoc_facts s n Hs) as [Hlen [Hlast [Hrem Hprod]]].
  unfold csd_average, size. cbn [shape buf].
  rewrite Hlen, Hlast, Hrem, Hprod.
  assert (H0 : (0 <? fold_right Nat.mul 1 s * n)%nat = true)
    by (apply Nat.ltb_lt; nia).
  rewrite H0. cbn [andb].
  destruct (n =? 1)%nat eqn:E1.
  - apply Nat.eqb_eq in E1. subst n. reflexivity.
  - apply Nat.eqb_neq in E1.
    assert (H1 : (1 <? n)%nat = true) by (apply Nat.ltb_lt; lia).
    rewrite H1. change (String.eqb "median" "median") with true. cbv iota.
    destruct b; reflexivity.
Qed.

(** C8.  On a non-empty stack whose last (segment) axis has length one,
    averaging performs no reduction: for the mean and for the median alike
    the data are returned as they are, with the segment axis dropped and no
    division by the bias factor; so the two methods agree. *)
Theorem single_segment_average (Pxy : ndarray) :
  (2 <= length (shape Pxy))%nat ->
  (0 < size Pxy)%nat ->
  last_dim (shape Pxy) = 1%nat ->
  csd_average Pxy "mean"
  = ok {| shape := removelast (shape Pxy); buf := buf Pxy |}
  /\ csd_average Pxy "median"
     = ok {| shape := removelast (shape Pxy); buf := buf Pxy |}
  /\ csd_average Pxy "median" = csd_average Pxy "mean".
Proof.
  intros Hrank Hsize Hone.
  assert (H : forall average,
             csd_average Pxy average
             = ok {| shape := removelast (shape Pxy); buf := buf Pxy |}).
  { intros average. unfold csd_average.
    apply Nat.leb_le in Hrank. apply Nat.ltb_lt in Hsize.
    rewrite Hrank, Hsize, Hone. reflexivity. }
  split; [apply H |]. split; [apply H |]. now rewrite !H.
Qed.

Lemma csd_average_unsupported (Pxy : ndarray) (average : string) :
  average <> "median" -> average <> "mean" ->
  (2 <= length (shape Pxy))%nat ->
  (0 < size Pxy)%nat ->
  (1 < last_dim (shape Pxy))%nat ->
  csd_average Pxy average = raise (ValueError "average must be median or mean").
Proof.
  intros Hmed Hmean Hrank Hsize Hseg. unfold csd_average.
  apply Nat.leb_le in Hrank. apply Nat.ltb_lt in Hsize.
  apply Nat.ltb_lt in Hseg. rewrite Hrank, Hsize, Hseg. cbn [andb].
  apply String.eqb_neq in Hmed. apply String.eqb_neq in Hmean.
  now rewrite Hmed, Hmean.
Qed.


(** ** Windows *)

Lemma length_removelast {A : Type} (l : list A) :
  length (removelast l) = Nat.pred (length l).
Proof.
  rewrite removelast_firstn_len, length_firstn. lia.
Qed.

Lemma np_linspace_length (start stop : Q) (num : Z) :
  1 <= num -> len (np_linspace start stop num) = num.
Proof.
  intros Hn. unfold np_linspace, len.
  rewrite length_app, length_removelast, length_map, length_seq.
  simpl length. lia.
Qed.

Lemma map2_length {A B D : Type} (f : A -> B -> D) (a : list A) (b : list B) :
  length (map2 f a b) = Nat.min (length a) (length b).
Proof.
  revert b. induction a as [| u a IH]; intros [| v b]; simpl; auto.
Qed.

Lemma accumulate_length (g : nat -> list Q) (ks : list nat)
  (w : list Q) (n : nat) :
  length w = n -> (forall k, length (g k) = n) ->
  length (fold_left (fun w k => map2 Qplus w (g k)) ks w) = n.
Proof.
  intros Hw Hg. revert w Hw. induction ks as [| k ks IH]; intros w Hw.
  - exact Hw.
  - simpl. apply IH. rewrite map2_length, Hw, Hg. apply Nat.min_id.
Qed.

Lemma general_cosine_length (M : Z) (a : list Q) (sym : bool) :
  match general_cosine M a sym with
  | inr w => 0 <= M /\ len w = M
  | inl e =>
      M < 0
      /\ e = ValueError "Window length M must be a non-negative integer"
  end.
Proof.
  unfold general_cosine, _len_guards.
  destruct (M <? 0) eqn:Hneg.
  - apply Z.ltb_lt in Hneg. cbn. split; [exact Hneg | reflexivity].
  - apply Z.ltb_ge in Hneg. cbn [bind ok].
    destruct (M <=? 1) eqn:Hsmall.
    + rewrite np_full_ok by exact Hneg. split; [exact Hneg |].
      rewrite len_repeat. lia.
    + apply Z.leb_gt in Hsmall. unfold _extend.
      destruct sym; cbn [negb].
      * rewrite np_full_ok by lia. cbn [bind ok _truncate].
        split; [exact Hneg |]. unfold len.
        rewrite (accumulate_length _ _ _ (Z.to_nat M)).
        -- lia.
        -- apply repeat_length.
        -- intros k. rewrite length_map.
           pose proof (np_linspace_length (- np_pi) np_pi M) as Hl.
           unfold len in Hl. lia.
      * rewrite np_full_ok by lia. cbn [bind ok _truncate].
        split; [exact Hneg |]. unfold len.
        rewrite length_removelast.
        rewrite (accumulate_length _ _ _ (Z.to_nat (M + 1))).
        -- lia.
        -- apply repeat_length.
        -- intros k. rewrite length_map.
           pose proof (np_linspace_length (- np_pi) np_pi (M + 1)) as Hl.
           unfold len in Hl. lia.
Qed.

Lemma hann_length (M : Z) (sym : bool) (w : list Q) :
  hann M sym = ok w -> 0 <= M /\ len w = M.
Proof.
  intros Hw. pose proof (general_cosine_length M [1 # 2; 1 - (1 # 2)]%Q sym) as H.
  unfold hann, general_hamming in Hw. rewrite Hw in H. exact H.
Qed.

(** C10.  A numeric window argument is discarded: for any two numbers
    [get_window] returns the same result, the Hann window for [Nx] (of
    length [Nx]; a negative [Nx] is refused with [ValueError]). *)
Theorem get_window_numeric (b1 b2 : Q) (Nx : Z) (fftbins : bool) :
  get_window (WinNum b1) Nx fftbins = get_window (WinNum b2) Nx fftbins
  /\ get_window (WinNum b1) Nx fftbins = hann Nx (negb fftbins)
  /\ match get_window (WinNum b1) Nx fftbins with
     | inr w => 0 <= Nx /\ len w = Nx
     | inl e =>
         Nx < 0
         /\ e = ValueError "Window length M must be a non-negative integer"
     end.
Proof.
  split; [reflexivity |]. split; [reflexivity |].
  change (get_window (WinNum b1) Nx fftbins)
    with (general_cosine Nx [1 # 2; 1 - (1 # 2)]%Q (negb fftbins)).
  apply general_cosine_length.
Qed.

(** ** Segment triage *)

Lemma _win_equiv_hann (s : string) (f : winfunc) :
  dict_get _win_equiv s = Some f -> f = hann.
Proof.
  unfold _win_equiv, _win_equiv_raw.
  cbn [flat_map map fst snd app dict_get].
  destruct (String.eqb "hanning" s); [intros H; now injection H as <- |].
  destruct (String.eqb "hann" s); [intros H; now injection H as <- |].
  destruct (String.eqb "han" s); [intros H; now injection H as <- |].
  discriminate.
Qed.

Lemma call_window_length (winstr : string) (Nx : Z) (args : list Q)
  (sym : bool) (w : list Q) :
  call_window winstr Nx args sym = ok w -> 0 <= Nx /\ len w = Nx.
Proof.
  unfold call_window.
  destruct (dict_get _win_equiv winstr) as [f |] eqn:Hf; [| discriminate].
  apply _win_equiv_hann in Hf. subst f.
  destruct args; [apply hann_length | discriminate].
Qed.

Lemma get_window_named_length (window : window_spec) (Nx : Z) (w : list Q) :
  get_window window Nx true = ok w -> 0 <= Nx /\ len w = Nx.
Proof.
  unfold get_window. destruct window as [beta | s | winstr args | arr].
  - apply hann_length.
  - destruct (float_accepts s); [apply hann_length |].
    change (str_in s _needs_param) with false. cbv iota.
    apply call_window_length.
  - apply call_window_length.
  - discriminate.
Qed.

(** What [_triage_segments] guarantees when it returns: the segment
    length does not exceed the input length, and the window has that many
    coefficients. *)
Lemma _triage_segments_bound (window : window_spec) (nperseg : option Z)
  (input_length : Z) (win : list Q) (n : Z) :
  _triage_segments window nperseg input_length = ok (win, n) ->
  n <= input_length /\ len win = n.
Proof.
  assert (Hname : forall w,
    (let nperseg1 := match nperseg with None => 256 | Some n0 => n0 end in
     nperseg2 <- (if nperseg1 >? input_length
                  then _ <- warnings_warn "nperseg is greater than input length" ;;
                       ok input_length
                  else ok nperseg1) ;;
     win0 <- get_window w nperseg2 true ;; ok (win0, nperseg2))
    = ok (win, n) -> n <= input_length /\ len win = n).
  { intros w. cbv zeta.
    destruct (_ >? input_length) eqn:Hgt; [discriminate |].
    cbn [bind ok]. intros Hw.
    apply bind_ok_inv in Hw. destruct Hw as [win0 [Hwin Heq]].
    injection Heq as <- <-.
    apply get_window_named_length in Hwin.
    split; [| exact (proj2 Hwin)].
    pose proof (Zgt_cases (match nperseg with None => 256 | Some n0 => n0 end)
                          input_length) as Hc.
    rewrite Hgt in Hc. exact Hc. }
  unfold _triage_segments. destruct window as [beta | s | winstr args | arr].
  - discriminate.
  - apply Hname.
  - apply Hname.
  - destruct (input_length <? len arr) eqn:Hlong; [discriminate |].
    apply Z.ltb_ge in Hlong.
    destruct nperseg as [n0 |].
    + destruct (n0 =? len arr) eqn:Heq; [| discriminate].
      apply Z.eqb_eq in Heq. cbn [negb]. intros H. injection H as <- <-.
      lia.
    + intros H. injection H as <- <-. lia.
Qed.

(** ** [welch] and [csd] on the same object *)

Lemma py_is_refl (x : pyobj) : py_is x x = true.
Proof. unfold py_is. apply Nat.eqb_refl. Qed.

Lemma helper_real_bind {A : Type} (m : result A)
  (k : A -> result (list Q * list Q * ndarray)) :
  (forall a, helper_real (k a)) -> helper_real (bind m k).
Proof.
  intros Hk. destruct m as [e | a]; [exact I | apply Hk].
Qed.

Ltac helper_real_step :=
  match goal with
  | |- helper_real (bind _ _) => apply helper_real_bind; intros
  | |- helper_real (raise _) => exact I
  | |- helper_real (ok _) => reflexivity
  | |- helper_real (if ?b then _ else _) => destruct b
  | |- helper_real (match ?p with (_, _) => _ end) => destruct p
  | |- helper_real (let (_, _) := ?p in _) => destruct p
  end.

(** With [y is x] and a mode other than [stft], the engine's spectrum is
    real (lines 420-422). *)
Lemma _spectral_helper_same_real (x : pyobj) (fs : Q) (window : window_spec)
  (nperseg noverlap nfft : option Z) (detrend : detrend_spec)
  (return_onesided : bool) (scaling : string) (boundary : option string)
  (padded : bool) :
  helper_real (_spectral_helper x x fs window nperseg noverlap nfft detrend
                                return_onesided scaling "psd" boundary padded).
Proof.
  unfold _spectral_helper. cbv zeta. rewrite (py_is_refl x).
  change (String.eqb "psd" "stft") with false.
  change (str_in "psd" ["psd"; "stft"]) with true.
  cbn [negb andb].
  repeat helper_real_step.
Qed.

Lemma csd_average_real (Pxy P : ndarray) (average : string) :
  is_real Pxy = true -> csd_average Pxy average = ok P -> is_real P = true.
Proof.
  unfold csd_average, is_real. intros Hreal.
  destruct (buf Pxy) as [l | l] eqn:Hbuf; [| discriminate].
  destruct ((2 <=? length (shape Pxy))%nat && (0 <? size Pxy)%nat).
  - destruct (1 <? last_dim (shape Pxy))%nat.
    + destruct (String.eqb average "median").
      * intros H. injection H as <-. reflexivity.
      * destruct (String.eqb average "mean"); [| discriminate].
        intros H. injection H as <-. reflexivity.
    + intros H. injection H as <-. cbn [buf]. reflexivity.
  - intros H. injection H as <-. now rewrite Hbuf.
Qed.

Lemma real_of_real (P : ndarray) : is_real P = true -> real P = P.
Proof.
  unfold is_real, real. destruct (buf P); [reflexivity | discriminate].
Qed.

(** C4.  For every input and every setting of the shared parameters,
    [welch(x)] and [csd(x, x)] return the same result: the same exception,
    or the same pair of frequencies and spectrum; the real part [welch]
    takes changes nothing, the engine's spectrum being real already when
    both arguments are the same object. *)
Theorem welch_eq_csd_same (x : pyobj) (c : config) :
  welch x c = csd x x c.
Proof.
  unfold welch.
  destruct (csd x x c) as [e | [freqs Pxx]] eqn:Hcsd; [reflexivity |].
  cbn [bind]. unfold ok. do 2 f_equal. apply real_of_real.
  unfold csd in Hcsd.
  pose proof (_spectral_helper_same_real x (fs c) (window c) (nperseg c)
                (noverlap c) (nfft c) (detrend c) (return_onesided c)
                (scaling c) None false) as Hreal.
  destruct (_spectral_helper x x (fs c) (window c) (nperseg c) (noverlap c)
              (nfft c) (detrend c) (return_onesided c) (scaling c) "psd"
              None false) as [e | [[f t] Pxy]]; [discriminate |].
  cbn [bind ok helper_real] in Hcsd, Hreal.
  apply bind_ok_inv in Hcsd. destruct Hcsd as [P [Havg Heq]].
  injection Heq as _ <-.
  exact (csd_average_real _ _ _ Hreal Havg).
Qed.

(** ** The overlap check *)

Lemma array1_pad_ok (a : array1) (n : Z) :
  0 <= n ->
  exists a', array1_pad a n = ok a' /\ array1_len a' = array1_len a + n.
Proof.
  intros Hn. unfold array1_pad. destruct a as [l | l];
    rewrite np_full_ok by exact Hn; cbn [bind ok];
    eexists; (split; [reflexivity |]); cbn [array1_len];
    rewrite len_app, len_repeat; lia.
Qed.

Lemma resolve_noverlap_default (nperseg : Z) :
  1 <= nperseg -> resolve_noverlap None nperseg = ok (nperseg / 2).
Proof.
  intros Hn. unfold resolve_noverlap.
  assert (H : nperseg / 2 < nperseg) by (apply Z.div_lt; lia).
  destruct (nperseg / 2 >=? nperseg) eqn:E; [| reflexivity].
  apply Z.geb_le in E. lia.
Qed.

Lemma resolve_noverlap_too_big (no nperseg : Z) :
  nperseg <= no ->
  resolve_noverlap (Some no) nperseg
  = raise (ValueError "noverlap must be less than nperseg.").
Proof.
  intros Hge. unfold resolve_noverlap.
  destruct (no >=? nperseg) eqn:E; [reflexivity |].
  pose proof (Zge_cases no nperseg) as Hc. rewrite E in Hc. lia.
Qed.

(** The checks that follow the zero-padding of the inputs, up to the
    overlap check. *)
Ltac overlap_tail np nperseg nfft Htri Hge :=
  revert Htri;
  destruct nperseg as [n0 |];
  [ destruct (n0 <? 1) eqn:?E1;
    [ intros _; eexists; split; [reflexivity |];
      intros Hnp _; specialize (Hnp n0 eq_refl);
      apply Z.ltb_lt in E1; lia
    | ]
  | ];
  intros Htri; cbn [bind ok]; rewrite Htri; cbn [bind ok];
  (destruct nfft as [m0 |];
   [ destruct (m0 <? np) eqn:?E2;
     [ eexists; split; [reflexivity |];
       intros _ Hnfft; specialize (Hnfft m0 eq_refl);
       apply Z.ltb_lt in E2; lia
     | ]
   | ]);
  cbn [bind ok];
  rewrite resolve_noverlap_too_big by exact Hge;
  eexists; (split; [reflexivity |]); intros _ _; reflexivity.

Lemma prepare_overlap_error (same_data : bool) (x0 y0 : array1)
  (window : window_spec) (nperseg nfft : option Z) (boundary : option string)
  (padded : bool) (win : list Q) (np no : Z) :
  _triage_segments window nperseg
    (if same_data then array1_len x0
     else Z.max (array1_len x0) (array1_len y0))
  = ok (win, np) ->
  np <= no ->
  exists msg,
    prepare_segments same_data x0 y0 window nperseg (Some no) nfft
                     boundary padded
    = raise (ValueError msg)
    /\ ((forall n0, nperseg = Some n0 -> 1 <= n0) ->
        (forall n0, nfft = Some n0 -> np <= n0) ->
        msg = "noverlap must be less than nperseg.").
Proof.
  intros Htri Hge. unfold prepare_segments.
  destruct same_data; cbn [negb andb bind ok].
  - overlap_tail np nperseg nfft Htri Hge.
  - destruct (array1_len x0 =? array1_len y0) eqn:Heq; cbn [negb bind ok].
    + apply Z.eqb_eq in Heq. rewrite Z.max_l in Htri by lia.
      overlap_tail np nperseg nfft Htri Hge.
    + apply Z.eqb_neq in Heq.
      destruct (array1_len x0 <? array1_len y0) eqn:Hlt.
      * apply Z.ltb_lt in Hlt. rewrite Z.max_r in Htri by lia.
        destruct (array1_pad_ok x0 (array1_len y0 - array1_len x0))
          as [x1 [Hpad Hlen]]; [lia |].
        rewrite Hpad. cbn [bind ok].
        replace (array1_len x1) with (array1_len y0) by lia.
        overlap_tail np nperseg nfft Htri Hge.
      * apply Z.ltb_ge in Hlt. rewrite Z.max_l in Htri by lia.
        destruct (array1_pad_ok y0 (array1_len x0 - array1_len y0))
          as [y1 [Hpad Hlen]]; [lia |].
        rewrite Hpad. cbn [bind ok].
        overlap_tail np nperseg nfft Htri Hge.
Qed.

Lemma csd_overlap_error (x y : pyobj) (c : config) (win : list Q)
  (np no : Z) :
  array1_len (value x) <> 0 ->
  array1_len (value y) <> 0 ->
  _triage_segments (window c) (nperseg c) (input_length x y) = ok (win, np) ->
  noverlap c = Some no ->
  np <= no ->
  exists msg,
    csd x y c = raise (ValueError msg)
    /\ ((forall n0, nperseg c = Some n0 -> 1 <= n0) ->
        (forall n0, nfft c = Some n0 -> np <= n0) ->
        msg = "noverlap must be less than nperseg.").
Proof.
  intros Hx Hy Htri Hno Hge.
  destruct (prepare_overlap_error (py_is y x) (value x) (value y) (window c)
              (nperseg c) (nfft c) None false win np no Htri Hge)
    as [msg [Hprep Hmsg]].
  exists msg. split; [| exact Hmsg].
  unfold csd, _spectral_helper. cbv zeta.
  change (str_in "psd" ["psd"; "stft"]) with true.
  change (String.eqb "psd" "psd") with true.
  cbn [negb]. rewrite Bool.andb_false_r.
  apply Z.eqb_neq in Hx. apply Z.eqb_neq in Hy. rewrite Hx, Hy.
  cbn [orb]. rewrite Hno, Hprep.
  destruct (py_is y x); reflexivity.
Qed.

(** C6, as amended.  An unspecified [noverlap] is resolved to
    [nperseg // 2].  For every call on non-empty inputs for which
    [_triage_segments] settles on a segment length [nperseg],
    [noverlap >= nperseg] makes [csd] (and [welch]) raise [ValueError]
    before extension, windowing or any transform: the error of the overlap
    check when the requested segment and transform lengths pass theirs.
    (On an empty input the engine returns empty arrays before any of these
    checks.) *)
Theorem noverlap_default_and_check (x y : pyobj) (c : config)
  (win : list Q) (np : Z) :
  array1_len (value x) <> 0 ->
  array1_len (value y) <> 0 ->
  _triage_segments (window c) (nperseg c) (input_length x y) = ok (win, np) ->
  (1 <= np -> resolve_noverlap None np = ok (np / 2))
  /\ (forall no, noverlap c = Some no -> np <= no ->
      is_ValueError (csd x y c) = true
      /\ (y = x -> is_ValueError (welch x c) = true)
      /\ ((forall n0, nperseg c = Some n0 -> 1 <= n0) ->
          (forall n0, nfft c = Some n0 -> np <= n0) ->
          csd x y c
          = raise (ValueError "noverlap must be less than nperseg."))).
Proof.
  intros Hx Hy Htri. split; [apply resolve_noverlap_default |].
  intros no Hno Hge.
  destruct (csd_overlap_error x y c win np no Hx Hy Htri Hno Hge)
    as [msg [Hcsd Hmsg]].
  split; [now rewrite Hcsd |].
  split.
  - intros ->. unfold welch. now rewrite Hcsd.
  - intros Hnp Hnfft. now rewrite Hcsd, (Hmsg Hnp Hnfft).
Qed.

(** ** What the engine hands to the segmenter *)

Lemma array1_pad_inv (a a' : array1) (n : Z) :
  array1_pad a n = ok a' -> array1_len a' = array1_len a + n /\ 0 <= n.
Proof.
  unfold array1_pad, np_full. destruct (n <? 0) eqn:Hneg.
  - destruct a; discriminate.
  - apply Z.ltb_ge in Hneg.
    destruct a as [l | l]; cbn [bind ok]; intros H; injection H as <-;
      cbn [array1_len]; rewrite len_app, len_repeat; lia.
Qed.

Lemma resolve_noverlap_inv (noverlap : option Z) (nperseg no : Z) :
  resolve_noverlap noverlap nperseg = ok no -> no < nperseg.
Proof.
  unfold resolve_noverlap.
  destruct (_ >=? nperseg) eqn:E; [discriminate |].
  intros H. injection H as <-.
  pose proof (Zge_cases (match noverlap with
                         | Some n => n
                         | None => nperseg / 2
                         end) nperseg) as Hc.
  rewrite E in Hc. exact Hc.
Qed.

Section ExtensionLength.

Context {A : Type} `{Scalar A}.

Lemma even_ext_len (x x' : list A) (n : Z) :
  even_ext x n = ok x' -> len x <= len x'.
Proof.
  unfold even_ext. destruct (n <? 1); [intros E; injection E as <-; lia |].
  destruct (n >? len x - 1); [discriminate |].
  intros E. apply bind_ok_inv in E. destruct E as [l [_ E]].
  apply bind_ok_inv in E. destruct E as [r [_ E]].
  injection E as <-. rewrite !len_app. pose proof (len_nonneg l).
  pose proof (len_nonneg r). lia.
Qed.

Lemma odd_ext_len (x x' : list A) (n : Z) :
  odd_ext x n = ok x' -> len x <= len x'.
Proof.
  unfold odd_ext. destruct (n <? 1); [intros E; injection E as <-; lia |].
  destruct (n >? len x - 1); [discriminate |].
  intros E. do 6 (apply bind_ok_inv in E; destruct E as [? [_ E]]).
  injection E as <-. rewrite !len_app.
  match goal with
  | |- _ <= len ?l + (_ + len ?r) =>
      pose proof (len_nonneg l); pose proof (len_nonneg r)
  end. lia.
Qed.

Lemma const_ext_len (x x' : list A) (n : Z) :
  const_ext x n = ok x' -> len x <= len x'.
Proof.
  unfold const_ext. destruct (n <? 1); [intros E; injection E as <-; lia |].
  intros E. do 5 (apply bind_ok_inv in E; destruct E as [? [_ E]]).
  injection E as <-. rewrite !len_app.
  match goal with
  | |- _ <= len ?l + (_ + len ?r) =>
      pose proof (len_nonneg l); pose proof (len_nonneg r)
  end. lia.
Qed.

Lemma zero_ext_len (x x' : list A) (n : Z) :
  zero_ext x n = ok x' -> len x <= len x'.
Proof.
  unfold zero_ext. destruct (n <? 1); [intros E; injection E as <-; lia |].
  intros E. apply bind_ok_inv in E. destruct E as [z [_ E]].
  injection E as <-. rewrite !len_app. pose proof (len_nonneg z). lia.
Qed.

Lemma boundary_funcs_len (boundary : string)
  (f : list A -> Z -> result (list A)) (x x' : list A) (n : Z) :
  boundary_funcs boundary = Some f -> f x n = ok x' -> len x <= len x'.
Proof.
  unfold boundary_funcs.
  destruct (String.eqb boundary "even");
    [intros E; injection E as <-; apply even_ext_len |].
  destruct (String.eqb boundary "odd");
    [intros E; injection E as <-; apply odd_ext_len |].
  destruct (String.eqb boundary "constant");
    [intros E; injection E as <-; apply const_ext_len |].
  destruct (String.eqb boundary "zeros");
    [intros E; injection E as <-; apply zero_ext_len | discriminate].
Qed.

End ExtensionLength.

Lemma ext_func_len (boundary : string) (a a' : array1) (n : Z) :
  ext_func boundary a n = ok a' -> array1_len a <= array1_len a'.
Proof.
  unfold ext_func. destruct a as [l | l].
  - destruct (boundary_funcs boundary) as [f |] eqn:Hf; [| discriminate].
    intros E. apply bind_ok_inv in E. destruct E as [r [Hr E]].
    injection E as <-. exact (boundary_funcs_len _ _ _ _ _ Hf Hr).
  - destruct (boundary_funcs boundary) as [f |] eqn:Hf; [| discriminate].
    intros E. apply bind_ok_inv in E. destruct E as [r [Hr E]].
    injection E as <-. exact (boundary_funcs_len _ _ _ _ _ Hf Hr).
Qed.

(** Whenever the input checks of the engine pass, the overlap is smaller
    than the segment length, the segment length does not exceed the length
    of the signal that goes to the segmenter, the window has one
    coefficient per sample of a segment, and the transform is at least as
    long as a segment. *)
Lemma prepare_segments_bounds (same_data : bool) (x0 y0 : array1)
  (window : window_spec) (nperseg noverlap nfft : option Z)
  (boundary : option string) (padded : bool) (p : prepared) :
  prepare_segments same_data x0 y0 window nperseg noverlap nfft boundary
                   padded = ok p ->
  pnoverlap p < pnperseg p
  /\ pnperseg p <= array1_len (px p)
  /\ len (pwin p) = pnperseg p
  /\ pnperseg p <= pnfft p.
Proof.
  unfold prepare_segments. intros E.
  apply bind_ok_inv in E. destruct E as [[x1 y1] [_ E]].
  apply bind_ok_inv in E. destruct E as [_ [_ E]].
  apply bind_ok_inv in E. destruct E as [[win np] [Htri E]].
  apply _triage_segments_bound in Htri. destruct Htri as [Hle Hwin].
  apply bind_ok_inv in E. destruct E as [nf [Hnf E]].
  apply bind_ok_inv in E. destruct E as [no [Hno E]].
  apply resolve_noverlap_inv in Hno. cbv zeta in E.
  apply bind_ok_inv in E. destruct E as [[x2 y2] [Hext E]].
  apply bind_ok_inv in E. destruct E as [[x3 y3] [Hpad E]].
  injection E as <-. cbn [px pwin pnperseg pnoverlap pnfft].
  assert (H12 : array1_len x1 <= array1_len x2).
  { destruct boundary as [b |].
    - apply bind_ok_inv in Hext. destruct Hext as [x2' [Hx2 Hext]].
      apply ext_func_len in Hx2.
      destruct (negb same_data).
      + apply bind_ok_inv in Hext. destruct Hext as [y2' [_ Hext]].
        injection Hext as <- _. exact Hx2.
      + injection Hext as <- _. exact Hx2.
    - injection Hext as <- _. lia. }
  assert (H23 : array1_len x2 <= array1_len x3).
  { destruct padded.
    - apply bind_ok_inv in Hpad. destruct Hpad as [x3' [Hx3 Hpad]].
      apply array1_pad_inv in Hx3.
      destruct (negb same_data).
      + apply bind_ok_inv in Hpad. destruct Hpad as [y3' [_ Hpad]].
        injection Hpad as <- _. lia.
      + injection Hpad as <- _. lia.
    - injection Hpad as <- _. lia. }
  assert (Hnfft : np <= nf).
  { destruct nfft as [n0 |].
    - destruct (n0 <? np) eqn:En; [discriminate |].
      injection Hnf as <-. apply Z.ltb_ge in En. exact En.
    - injection Hnf as <-. lia. }
  repeat split; [exact Hno | lia | exact Hwin | exact Hnfft].
Qed.

Lemma array1_pad_dtype (a a' : array1) (n : Z) :
  array1_pad a n = ok a' -> iscomplexobj a' = iscomplexobj a.
Proof.
  unfold array1_pad. destruct a as [l | l]; intros E;
    apply bind_ok_inv in E; destruct E as [z [_ E]];
    injection E as <-; reflexivity.
Qed.

Lemma ext_func_dtype (boundary : string) (a a' : array1) (n : Z) :
  ext_func boundary a n = ok a' -> iscomplexobj a' = iscomplexobj a.
Proof.
  unfold ext_func. destruct a as [l | l];
    (destruct (boundary_funcs boundary) as [f |]; [| discriminate]);
    intros E; apply bind_ok_inv in E; destruct E as [r [_ E]];
    injection E as <-; reflexivity.
Qed.

(** Zero-padding, extension and padding keep a real signal real and a
    complex signal complex. *)
Lemma prepare_segments_dtype (same_data : bool) (x0 y0 : array1)
  (window : window_spec) (nperseg noverlap nfft : option Z)
  (boundary : option string) (padded : bool) (p : prepared) :
  prepare_segments same_data x0 y0 window nperseg noverlap nfft boundary
                   padded = ok p ->
  iscomplexobj (px p) = iscomplexobj x0
  /\ iscomplexobj (py p) = iscomplexobj y0.
Proof.
  unfold prepare_segments. intros E.
  apply bind_ok_inv in E. destruct E as [[x1 y1] [Hzp E]].
  apply bind_ok_inv in E. destruct E as [_ [_ E]].
  apply bind_ok_inv in E. destruct E as [[win np] [_ E]].
  apply bind_ok_inv in E. destruct E as [nf [_ E]].
  apply bind_ok_inv in E. destruct E as [no [_ E]].
  cbv zeta in E.
  apply bind_ok_inv in E. destruct E as [[x2 y2] [Hext E]].
  apply bind_ok_inv in E. destruct E as [[x3 y3] [Hpad E]].
  injection E as <-. cbn [px py].
  assert (H1 : iscomplexobj x1 = iscomplexobj x0
               /\ iscomplexobj y1 = iscomplexobj y0).
  { destruct (negb same_data && negb (array1_len x0 =? array1_len y0)).
    - destruct (array1_len x0 <? array1_len y0);
        apply bind_ok_inv in Hzp; destruct Hzp as [a [Ha Hzp]];
        apply array1_pad_dtype in Ha; injection Hzp as <- <-;
        split; [exact Ha | reflexivity | reflexivity | exact Ha].
    - injection Hzp as <- <-. split; reflexivity. }
  assert (H2 : iscomplexobj x2 = iscomplexobj x1
               /\ iscomplexobj y2 = iscomplexobj y1).
  { destruct boundary as [b |].
    - apply bind_ok_inv in Hext. destruct Hext as [a [Ha Hext]].
      apply ext_func_dtype in Ha. destruct (negb same_data).
      + apply bind_ok_inv in Hext. destruct Hext as [a2 [Ha2 Hext]].
        apply ext_func_dtype in Ha2. injection Hext as <- <-.
        split; assumption.
      + injection Hext as <- <-. split; [exact Ha | reflexivity].
    - injection Hext as <- <-. split; reflexivity. }
  assert (H3 : iscomplexobj x3 = iscomplexobj x2
               /\ iscomplexobj y3 = iscomplexobj y2).
  { destruct padded.
    - apply bind_ok_inv in Hpad. destruct Hpad as [a [Ha Hpad]].
      apply array1_pad_dtype in Ha. destruct (negb same_data).
      + apply bind_ok_inv in Hpad. destruct Hpad as [a2 [Ha2 Hpad]].
        apply array1_pad_dtype in Ha2. injection Hpad as <- <-.
        split; assumption.
      + injection Hpad as <- <-. split; [exact Ha | reflexivity].
    - injection Hpad as <- <-. split; reflexivity. }
  destruct H1 as [H1x H1y], H2 as [H2x H2y], H3 as [H3x H3y].
  split; congruence.
Qed.

(** The fall-back to a two-sided spectrum never completes: whenever the
    input checks pass, the scaling is a known one, a one-sided result is
    requested and [x] (or a distinct [y]) is complex, [csd] raises
    [NameError] at [warnings.warn]. *)
Lemma complex_onesided_name_error (x y : pyobj) (c : config) (p : prepared) :
  array1_len (value x) <> 0 ->
  array1_len (value y) <> 0 ->
  prepare_segments (py_is y x) (value x) (value y) (window c) (nperseg c)
                   (noverlap c) (nfft c) None false = ok p ->
  scaling c = "density" \/ scaling c = "spectrum" ->
  return_onesided c = true ->
  iscomplexobj (value x) = true
  \/ (py_is y x = false /\ iscomplexobj (value y) = true) ->
  csd x y c = raise (NameError "warnings").
Proof.
  intros Hx Hy Hprep Hscal Hone Hcomplex.
  destruct (prepare_segments_dtype _ _ _ _ _ _ _ _ _ _ Hprep) as [Hdx Hdy].
  unfold csd, _spectral_helper. cbv zeta.
  change (str_in "psd" ["psd"; "stft"]) with true.
  change (String.eqb "psd" "psd") with true.
  change (String.eqb "psd" "stft") with false.
  cbn [negb]. rewrite Bool.andb_false_r.
  apply Z.eqb_neq in Hx. apply Z.eqb_neq in Hy. rewrite Hx, Hy.
  cbn [orb].
  assert (Hguard : (if py_is y x then false else false) = false)
    by (destruct (py_is y x); reflexivity).
  rewrite Hguard, Hprep. cbn [bind ok]. rewrite Hone, Hdx, Hdy.
  assert (Hsc : exists s,
             (if String.eqb (scaling c) "density"
              then ok (1 / (fs c * ssum (map (fun w => w * w) (pwin p))))%Q
              else if String.eqb (scaling c) "spectrum"
                   then ok (1 / (ssum (pwin p) * ssum (pwin p)))%Q
                   else raise (ValueError "Unknown scaling")) = ok s).
  { destruct Hscal as [-> | ->]; eexists; reflexivity. }
  destruct Hsc as [s Hs]. rewrite Hs. cbn [bind ok].
  destruct Hcomplex as [Hc | [Hsame Hc]].
  - rewrite Hc. reflexivity.
  - rewrite Hsame, Hc. cbn [negb andb].
    destruct (iscomplexobj (value x)); reflexivity.
Qed.

Lemma get_window_hann (Nx : Z) :
  get_window (WinStr "hann") Nx true = hann Nx false.
Proof.
  unfold get_window. destruct (float_accepts "hann"); reflexivity.
Qed.

Lemma hann_ok (M : Z) (sym : bool) :
  0 <= M -> exists w, hann M sym = ok w.
Proof.
  intros HM.
  pose proof (general_cosine_length M [1 # 2; 1 - (1 # 2)]%Q sym) as H.
  unfold hann, general_hamming.
  destruct (general_cosine M [1 # 2; 1 - (1 # 2)]%Q sym) as [e | w].
  - lia.
  - now exists w.
Qed.

(** ** Complex input with a one-sided request *)

(** C5 (the code departs from the claim).  On the complex signal
    [1+1j, 2, 3, 4] with [nperseg = 4] and the default one-sided request,
    [csd] and [welch] do not complete: the engine reaches
    [warnings.warn], and the module having no [warnings], the call raises
    [NameError]. *)
Theorem complex_onesided_raises :
  csd x_complex x_complex (cfg (Some 4) None "mean")
  = raise (NameError "warnings")
  /\ welch x_complex (cfg (Some 4) None "mean")
     = raise (NameError "warnings").
Proof.
  assert (Hprep : exists p,
             prepare_segments (py_is x_complex x_complex) (value x_complex)
               (value x_complex) (WinStr "hann") (Some 4) None None None
               false = ok p).
  { destruct (hann_ok 4 false) as [w Hw]; [lia |].
    unfold prepare_segments, _triage_segments.
    change (py_is x_complex x_complex) with true.
    cbn [negb andb bind ok].
    change (4 >? array1_len (value x_complex)) with false.
    change (4 <? 1) with false.
    cbn [bind ok]. rewrite get_window_hann, Hw. cbn [bind ok].
    eexists. reflexivity. }
  destruct Hprep as [p Hp].
  assert (Hcsd : csd x_complex x_complex (cfg (Some 4) None "mean")
                 = raise (NameError "warnings")).
  { apply (complex_onesided_name_error x_complex x_complex _ p).
    - discriminate.
    - discriminate.
    - exact Hp.
    - left. reflexivity.
    - reflexivity.
    - left. reflexivity. }
  split; [exact Hcsd |].
  unfold welch. now rewrite Hcsd.
Qed.


(** ** The one-sided correction in the engine *)

Lemma onesided_correction_length (sides mode : string) (nfft : Z)
  (result : list (list C)) :
  length (onesided_correction sides mode nfft result) = length result.
Proof.
  unfold onesided_correction.
  destruct (_ && _); [| reflexivity].
  destruct (negb _); apply length_map.
Qed.

Lemma onesided_correction_row_lengths (nfft : Z) (result : list (list C))
  (n : nat) :
  Forall (fun row => length row = n) result ->
  Forall (fun row => length row = n)
         (onesided_correction "onesided" "psd" nfft result).
Proof.
  intros Hrows. apply Forall_forall. intros row' Hin.
  apply In_nth_error in Hin. destruct Hin as [s Hs].
  assert (Hlt : (s < length result)%nat).
  { rewrite <- (onesided_correction_length "onesided" "psd" nfft).
    apply nth_error_Some. rewrite Hs. discriminate. }
  destruct (nth_error result s) as [row |] eqn:Hrow;
    [| apply nth_error_None in Hrow; lia].
  rewrite Forall_forall in Hrows.
  pose proof (Hrows row (nth_error_In _ _ Hrow)) as Hlen.
  destruct row as [| v row].
  - unfold onesided_correction in Hs.
    change (String.eqb "onesided" "onesided" && String.eqb "psd" "psd")
      with true in Hs. cbv iota in Hs.
    destruct (negb (nfft mod 2 =? 0)); rewrite nth_error_map, Hrow in Hs;
      injection Hs as <-; rewrite slice_update_length; exact Hlen.
  - destruct (onesided_correction_bins nfft result s 0 (v :: row) v Hrow
                eq_refl) as [r [Hr [Hl _]]].
    rewrite Hs in Hr. injection Hr as <-. now rewrite Hl.
Qed.

Lemma nth_error_flat_map_const {A B : Type} (f : A -> list B) (l : list A)
  (m k s : nat) (a : A) :
  (forall b, In b l -> length (f b) = m) ->
  nth_error l k = Some a -> (s < m)%nat ->
  nth_error (flat_map f l) (k * m + s) = nth_error (f a) s.
Proof.
  revert k. induction l as [| b l IH]; intros k Hf Ha Hs.
  - destruct k; discriminate.
  - cbn [flat_map]. destruct k as [| k].
    + injection Ha as ->. cbn [Nat.mul Nat.add].
      apply nth_error_app1. rewrite (Hf a) by now left. exact Hs.
    + cbn [nth_error] in Ha.
      rewrite nth_error_app2 by (rewrite (Hf b) by (now left); cbn; lia).
      rewrite (Hf b) by now left.
      replace (S k * m + s - m)%nat with (k * m + s)%nat by (cbn; lia).
      apply IH; [intros c Hc; apply Hf; now right | exact Ha | exact Hs].
Qed.

Lemma flat_map_length_const_one {A B : Type} (f : A -> list B) (l : list A) :
  (forall a, In a l -> length (f a) = 1%nat) ->
  length (flat_map f l) = length l.
Proof.
  induction l as [| a l IH]; intros Hf; [reflexivity |].
  cbn [flat_map length]. rewrite length_app, (Hf a) by now left.
  rewrite IH by (intros b Hb; apply Hf; now right). reflexivity.
Qed.

(** Entry [(k, s)] of the transposed array is entry [k] of row [s]. *)
Lemma transpose_flat_nth {A : Type} (ncols : nat) (rows : list (list A))
  (s k : nat) (row : list A) (v : A) :
  Forall (fun r => length r = ncols) rows ->
  nth_error rows s = Some row -> nth_error row k = Some v ->
  nth_error (transpose_flat ncols rows) (k * length rows + s) = Some v.
Proof.
  intros Hrows Hrow Hv. unfold transpose_flat.
  rewrite Forall_forall in Hrows.
  assert (Hk : (k < ncols)%nat).
  { rewrite <- (Hrows row (nth_error_In _ _ Hrow)).
    apply nth_error_Some. rewrite Hv. discriminate. }
  assert (Hs : (s < length rows)%nat)
    by (apply nth_error_Some; rewrite Hrow; discriminate).
  assert (Hone : forall j, (j < ncols)%nat -> forall r, In r rows ->
            length (at_index r (Z.of_nat j)) = 1%nat).
  { intros j Hj r Hr. specialize (Hrows r Hr).
    destruct (nth_error r j) as [u |] eqn:Hu.
    - now rewrite (at_index_nth_error _ _ _ Hu).
    - apply nth_error_None in Hu. lia. }
  rewrite (nth_error_flat_map_const _ _ (length rows) k s k).
  - replace s with (s * 1 + 0)%nat at 1 by lia.
    rewrite (nth_error_flat_map_const _ _ 1%nat s 0%nat row);
      [| intros r Hr; now apply Hone | exact Hrow | lia].
    now rewrite (at_index_nth_error _ _ _ Hv).
  - intros j Hj. apply in_seq in Hj.
    rewrite (flat_map_length_const_one _ _ (fun r Hr => Hone j ltac:(lia) r Hr)).
    reflexivity.
  - rewrite nth_error_seq.
    destruct (Nat.ltb_spec k ncols) as [_ | Hge]; [reflexivity | lia].
  - exact Hs.
Qed.

(** C2.  Every one-sided PSD-mode computation of the engine on non-empty
    input that returns has passed through the correction.  With the
    prepared lengths [p], the scale and the transformed segments named,
    the returned array is the transpose of [corrected], whose segment [s]
    is segment [s] of the scaled spectra [scaled] with bin 0 as it is and
    every other bin doubled, except that for an even [nfft] the last bin
    is left as it is too.  When the transform returns its
    [nfft // 2 + 1] bins for each segment, entry [(k, s)] of the returned
    array is that value. *)
Theorem onesided_doubling (x y : pyobj) (fs : Q) (window : window_spec)
  (nperseg noverlap nfft : option Z) (detrend : detrend_spec)
  (scaling : string) (boundary : option string) (padded : bool)
  (freqs t : list Q) (P : ndarray) :
  array1_len (value x) <> 0 -> array1_len (value y) <> 0 ->
  _spectral_helper x y fs window nperseg noverlap nfft detrend true scaling
                   "psd" boundary padded = ok (freqs, t, P) ->
  exists p scale rx scaled corrected,
    prepare_segments (py_is y x) (value x) (value y) window nperseg noverlap
                     nfft boundary padded = ok p
    /\ ((scaling = "density"
         /\ scale = 1 / (fs * ssum (map (fun w => w * w) (pwin p))))%Q
        \/ (scaling = "spectrum"
            /\ scale = 1 / (ssum (pwin p) * ssum (pwin p)))%Q)
    /\ _fft_helper (px p) (pwin p) (detrend_func detrend) (pnperseg p)
                   (pnoverlap p) (pnfft p) "onesided" = ok rx
    /\ (if py_is y x
        then scaled = map (map (Cscale scale))
                          (map (map (fun a => Cmul (Cconj a) a)) rx)
        else exists ry,
               _fft_helper (py p) (pwin p) (detrend_func detrend)
                           (pnperseg p) (pnoverlap p) (pnfft p) "onesided"
               = ok ry
               /\ scaled
                  = map (map (Cscale scale))
                        (map2 (map2 (fun a b => Cmul (Cconj a) b)) rx ry))
    /\ shape P = [Z.to_nat (pnfft p / 2 + 1); length scaled]
    /\ buf P
       = (if py_is y x
          then RealBuf (map Cre (transpose_flat (Z.to_nat (pnfft p / 2 + 1))
                                                corrected))
          else ComplexBuf (transpose_flat (Z.to_nat (pnfft p / 2 + 1))
                                          corrected))
    /\ length corrected = length scaled
    /\ (forall s row,
          nth_error scaled s = Some row ->
          exists row',
            nth_error corrected s = Some row'
            /\ length row' = length row
            /\ forall k v,
                 nth_error row k = Some v ->
                 nth_error row' k
                 = Some (if (k =? 0)%nat then v
                         else if (pnfft p mod 2 =? 0)
                                 && (k =? length row - 1)%nat
                              then v
                              else Cscale 2 v))
    /\ (Forall (fun row => length row = Z.to_nat (pnfft p / 2 + 1)) scaled ->
        forall s k row v,
          nth_error scaled s = Some row ->
          nth_error row k = Some v ->
          nth_error (transpose_flat (Z.to_nat (pnfft p / 2 + 1)) corrected)
                    (k * length scaled + s)
          = Some (if (k =? 0)%nat then v
                  else if (pnfft p mod 2 =? 0)
                          && (k =? Z.to_nat (pnfft p / 2 + 1) - 1)%nat
                       then v
                       else Cscale 2 v)).
Proof.
  intros Hx Hy Hrun.
  apply Z.eqb_neq in Hx. apply Z.eqb_neq in Hy.
  unfold _spectral_helper in Hrun. cbv zeta in Hrun.
  change (str_in "psd" ["psd"; "stft"]) with true in Hrun.
  change (String.eqb "psd" "psd") with true in Hrun.
  change (String.eqb "psd" "stft") with false in Hrun.
  cbn [negb] in Hrun. rewrite Bool.andb_false_r, Bool.andb_true_r in Hrun.
  rewrite Hx, Hy in Hrun. cbn [orb] in Hrun.
  destruct (match boundary with Some _ => _ | None => _ end);
    [discriminate |].
  assert (Hne : (if py_is y x then false else false) = false)
    by (destruct (py_is y x); reflexivity).
  rewrite Hne in Hrun. clear Hne.
  apply bind_ok_inv in Hrun. destruct Hrun as [p [Hp Hrun]].
  apply bind_ok_inv in Hrun. destruct Hrun as [scale [Hscale Hrun]].
  apply bind_ok_inv in Hrun. destruct Hrun as [sides [Hsides Hrun]].
  assert (Hone : sides = "onesided").
  { destruct (iscomplexobj (px p)); [discriminate |].
    destruct (negb (py_is y x) && iscomplexobj (py p)); [discriminate |].
    now injection Hsides as <-. }
  subst sides.
  change (String.eqb "onesided" "twosided") with false in Hrun.
  cbv iota in Hrun.
  destruct (Qeq_bool fs 0); [discriminate |].
  apply bind_ok_inv in Hrun. destruct Hrun as [rx [Hrx Hrun]].
  apply bind_ok_inv in Hrun. destruct Hrun as [prod [Hprod Hrun]].
  injection Hrun as _ _ <-. cbn [shape buf].
  set (scaled := map (map (Cscale scale)) prod).
  set (nfreq := Z.to_nat (pnfft p / 2 + 1)).
  exists p, scale, rx, scaled,
    (onesided_correction "onesided" "psd" (pnfft p) scaled).
  split; [exact Hp |].
  split.
  { destruct (String.eqb scaling "density") eqn:Hd.
    - apply String.eqb_eq in Hd. injection Hscale as <-. now left.
    - destruct (String.eqb scaling "spectrum") eqn:Hs; [| discriminate].
      apply String.eqb_eq in Hs. injection Hscale as <-. now right. }
  split; [exact Hrx |].
  split.
  { destruct (py_is y x); cbn [negb] in Hprod.
    - injection Hprod as <-. reflexivity.
    - apply bind_ok_inv in Hprod. destruct Hprod as [ry [Hry Hprod]].
      injection Hprod as <-. exists ry. split; [exact Hry | reflexivity]. }
  split; [now rewrite onesided_correction_length |].
  split; [destruct (py_is y x); reflexivity |].
  split; [apply onesided_correction_length |].
  split.
  - intros s row Hrow.
    destruct row as [| v0 row0] eqn:Erow.
    + exists (nth s (onesided_correction "onesided" "psd" (pnfft p) scaled) []).
      assert (Hs : (s < length scaled)%nat)
        by (apply nth_error_Some; rewrite Hrow; discriminate).
      assert (Hnth : nth_error (onesided_correction "onesided" "psd"
                                  (pnfft p) scaled) s
                     = Some (nth s (onesided_correction "onesided" "psd"
                                      (pnfft p) scaled) []))
        by (apply nth_error_nth'; now rewrite onesided_correction_length).
      split; [exact Hnth |]. split.
      * unfold onesided_correction in *.
        change (String.eqb "onesided" "onesided" && String.eqb "psd" "psd")
          with true in *. cbv iota in *.
        destruct (negb (pnfft p mod 2 =? 0));
          rewrite nth_error_map, Hrow in Hnth; cbn [option_map] in Hnth;
          injection Hnth as <-; apply slice_update_length.
      * intros k v Hv. destruct k; discriminate Hv.
    + rewrite <- Erow in *.
      destruct (onesided_correction_bins (pnfft p) scaled s 0 row v0 Hrow)
        as [row' [Hrow' [Hlen _]]]; [now rewrite Erow |].
      exists row'. split; [exact Hrow' |]. split; [exact Hlen |].
      intros k v Hv.
      destruct (onesided_correction_bins (pnfft p) scaled s k row v Hrow Hv)
        as [row2 [Hrow2 [_ Hbin]]].
      rewrite Hrow' in Hrow2. injection Hrow2 as <-. exact Hbin.
  - intros Hall s k row v Hrow Hv.
    destruct (onesided_correction_bins (pnfft p) scaled s k row v Hrow Hv)
      as [row' [Hrow' [_ Hbin]]].
    assert (Hlen : length row = nfreq).
    { rewrite Forall_forall in Hall. apply Hall.
      exact (nth_error_In _ _ Hrow). }
    rewrite Hlen in Hbin.
    rewrite <- (onesided_correction_length "onesided" "psd" (pnfft p) scaled).
    apply (transpose_flat_nth _ _ s k row'); [| exact Hrow' | exact Hbin].
    now apply onesided_correction_row_lengths.
Qed.

(** * Further properties of the module *)

(** ** Slices along the axis *)

Lemma firstn_S_snoc {A : Type} (l : list A) (k : nat) (v : A) :
  nth_error l k = Some v -> firstn (S k) l = firstn k l ++ [v].
Proof.
  revert k. induction l as [| a l IH]; intros k Hv.
  - destruct k; discriminate Hv.
  - destruct k as [| k].
    + injection Hv as <-. reflexivity.
    + cbn [firstn app]. f_equal. apply IH. exact Hv.
Qed.

Lemma nth_error_skipn_shift {A : Type} (l : list A) (lo k : nat) :
  nth_error (skipn lo l) k = nth_error l (lo + k).
Proof.
  revert l. induction lo as [| lo IH]; intros l; [reflexivity |].
  destruct l as [| a l]; [destruct k; reflexivity |].
  cbn [skipn Nat.add nth_error]. apply IH.
Qed.

(** The elements [x[lo + k - 1]], ..., [x[lo]], read downwards. *)
Lemma window_downwards {A : Type} (x : list A) (lo k : nat) :
  (lo + k <= length x)%nat ->
  flat_map (fun j => at_index x (Z.of_nat lo + Z.of_nat k - 1 - Z.of_nat j))
           (seq 0 k)
  = rev (firstn k (skipn lo x)).
Proof.
  induction k as [| k IH]; intros Hk; [reflexivity |].
  destruct (nth_error x (lo + k)) as [v |] eqn:Hv;
    [| apply nth_error_None in Hv; lia].
  rewrite (firstn_S_snoc (skipn lo x) k v)
    by (rewrite nth_error_skipn_shift; exact Hv).
  rewrite rev_app_distr. cbn [rev app].
  rewrite <- cons_seq, <- seq_shift. cbn [flat_map].
  rewrite flat_map_concat_map, map_map, <- flat_map_concat_map.
  replace (Z.of_nat lo + Z.of_nat (S k) - 1 - Z.of_nat 0)
    with (Z.of_nat (lo + k)) by lia.
  rewrite (at_index_nth_error _ _ _ Hv). cbn [app]. f_equal.
  rewrite <- IH by lia. apply flat_map_ext. intros j. f_equal. lia.
Qed.

Lemma py_slice_down {A : Type} (x : list A) (start stop : Z) :
  -1 <= stop <= start -> start < len x ->
  flat_map (fun j => at_index x (start + Z.of_nat j * -1))
           (seq 0 (Z.to_nat (start - stop)))
  = rev (firstn (Z.to_nat (start - stop)) (skipn (Z.to_nat (stop + 1)) x)).
Proof.
  intros Hs Hl. unfold len in Hl.
  rewrite <- window_downwards by lia.
  apply flat_map_ext. intros j. f_equal. lia.
Qed.

Lemma slice_length_down (start stop : Z) :
  stop <= start -> slice_length start stop (-1) = start - stop.
Proof.
  intros Hs. unfold slice_length. change (-1 <? 0) with true. cbv iota.
  change (- -1) with 1. rewrite Z.div_1_r.
  destruct (stop <? start) eqn:E.
  - lia.
  - apply Z.ltb_ge in E. lia.
Qed.

(** X1.  [axis_reverse] returns the array read backwards, and reversing
    twice gives the array back. *)
Theorem axis_reverse_rev {A : Type} (a : list A) :
  axis_reverse a = ok (rev a)
  /\ (b <- axis_reverse a ;; axis_reverse b) = ok a.
Proof.
  assert (Hrev : forall l : list A, axis_reverse l = ok (rev l)).
  { intros l. unfold axis_reverse, axis_slice, py_slice, slice_adjust.
    change (-1 =? 0) with false. change (-1 <? 0) with true.
    cbn [Bool.eqb]. cbv iota.
    rewrite slice_length_down by (pose proof (len_nonneg l); lia).
    destruct l as [| v l]; [reflexivity |].
    rewrite py_slice_down
      by (pose proof (len_nonneg (v :: l)); unfold len in *; cbn [length] in *; lia).
    replace (len (v :: l) - 1 - -1) with (len (v :: l)) by lia.
    change (Z.to_nat (-1 + 1)) with 0%nat. cbn [skipn].
    unfold len. rewrite Nat2Z.id, firstn_all. reflexivity. }
  split; [apply Hrev |].
  rewrite Hrev. cbn [bind ok]. rewrite Hrev, rev_involutive. reflexivity.
Qed.

(** X2.  For [0 <= start <= stop <= len a], [axis_slice(a, start, stop)] is
    the [stop - start] elements that follow the first [start]; without
    bounds the slice is the whole array, and a zero step is refused. *)
Theorem axis_slice_forward {A : Type} (a : list A) (start stop : Z) :
  0 <= start <= stop -> stop <= len a ->
  axis_slice a (Some start) (Some stop) None
  = ok (firstn (Z.to_nat (stop - start)) (skipn (Z.to_nat start) a))
  /\ axis_slice a None None None = ok a
  /\ is_ValueError (axis_slice a (Some start) (Some stop) (Some 0)) = true.
Proof.
  intros Hs Hl.
  assert (Hgen : forall s e : Z, 0 <= s <= e -> e <= len a ->
            ok (flat_map (fun j => at_index a (s + Z.of_nat j * 1))
                         (seq 0 (Z.to_nat (slice_length s e 1))))
            = ok (firstn (Z.to_nat (e - s)) (skipn (Z.to_nat s) a))).
  { intros s e Hse Hle. f_equal. unfold slice_length.
    change (1 <? 0) with false. cbv iota. rewrite Z.div_1_r.
    replace (Z.to_nat (if s <? e then e - s - 1 + 1 else 0))
      with (Z.to_nat (e - s))
      by (destruct (s <? e) eqn:E;
          [f_equal; lia | apply Z.ltb_ge in E; f_equal; lia]).
    unfold len in Hle.
    rewrite <- window_firstn_skipn by lia.
    rewrite <- (flat_map_seq_shift (fun j => at_index a (Z.of_nat j))
                                   (Z.to_nat s)).
    apply flat_map_ext. intros j. f_equal. lia. }
  split; [| split].
  - unfold axis_slice, py_slice, slice_adjust.
    change (1 =? 0) with false. change (1 <? 0) with false. cbv iota.
    destruct (start <? 0) eqn:E1; [apply Z.ltb_lt in E1; lia |].
    destruct (stop <? 0) eqn:E2; [apply Z.ltb_lt in E2; lia |].
    rewrite !Z.min_l by lia. now apply Hgen.
  - unfold axis_slice, py_slice, slice_adjust.
    change (1 =? 0) with false. change (1 <? 0) with false.
    cbn [Bool.eqb]. cbv iota.
    rewrite Hgen by (pose proof (len_nonneg a); lia).
    rewrite Z.sub_0_r. unfold len. rewrite Nat2Z.id.
    change (Z.to_nat 0) with 0%nat. cbn [skipn]. now rewrite firstn_all.
  - reflexivity.
Qed.

(** ** The even and odd extensions *)

Lemma ext_left_slice {A : Type} (x : list A) (n : Z) :
  1 <= n <= len x - 1 ->
  axis_slice x (Some n) (Some 0) (Some (-1))
  = ok (rev (firstn (Z.to_nat n) (skipn 1 x))).
Proof.
  intros Hn. unfold axis_slice, py_slice, slice_adjust.
  change (-1 =? 0) with false. change (-1 <? 0) with true.
  change (0 <? 0) with false. cbv iota.
  destruct (n <? 0) eqn:E; [apply Z.ltb_lt in E; lia |].
  rewrite (Z.min_l n) by lia. rewrite (Z.min_l 0) by lia.
  rewrite slice_length_down by lia.
  rewrite py_slice_down by lia.
  now rewrite Z.sub_0_r.
Qed.

Lemma ext_right_slice {A : Type} (x : list A) (n : Z) :
  1 <= n <= len x - 1 ->
  axis_slice x (Some (-2)) (Some (- (n + 2))) (Some (-1))
  = ok (rev (firstn (Z.to_nat n)
                    (skipn (Z.to_nat (len x - n - 1)) x))).
Proof.
  intros Hn. unfold axis_slice, py_slice, slice_adjust.
  change (-1 =? 0) with false. change (-1 <? 0) with true.
  change (-2 <? 0) with true. cbv iota.
  destruct (- (n + 2) <? 0) eqn:E; [| apply Z.ltb_ge in E; lia].
  rewrite !Z.max_l by lia.
  rewrite slice_length_down by lia.
  rewrite py_slice_down by lia.
  do 3 f_equal; f_equal; lia.
Qed.

Lemma broadcast2_singleton_l {A B D : Type} (f : A -> B -> D) (u : A)
  (b : list B) :
  broadcast2 f [u] b = ok (map (f u) b).
Proof.
  unfold broadcast2. destruct b as [| v [| w b]]; reflexivity.
Qed.

Lemma nth_error_rev_window {A : Type} (x : list A) (lo n j : nat) :
  (lo + n <= length x)%nat -> (j < n)%nat ->
  nth_error (rev (firstn n (skipn lo x))) j = nth_error x (lo + n - 1 - j).
Proof.
  intros Hlo Hj.
  assert (HF : length (firstn n (skipn lo x)) = n)
    by (rewrite length_firstn, length_skipn; lia).
  rewrite nth_error_rev, HF.
  destruct (j <? n)%nat eqn:E1; [| apply Nat.ltb_ge in E1; lia].
  rewrite nth_error_firstn.
  destruct (n - S j <? n)%nat eqn:E2; [| apply Nat.ltb_ge in E2; lia].
  rewrite nth_error_skipn_shift. f_equal. lia.
Qed.

(** X3.  For [1 <= n <= len x - 1] the even extension is the signal with
    its [n] samples after the first mirrored in front and its [n] samples
    before the last mirrored behind; it is [2 n] samples longer, and the
    sample [k] places before the start (after the end) is the sample [k]
    places after the start (before the end). *)
Theorem even_ext_mirror {A : Type} (x : list A) (n : Z) :
  1 <= n <= len x - 1 ->
  exists ext,
    even_ext x n = ok ext
    /\ ext = rev (firstn (Z.to_nat n) (skipn 1 x)) ++ x
             ++ rev (firstn (Z.to_nat n)
                            (skipn (Z.to_nat (len x - n - 1)) x))
    /\ len ext = len x + 2 * n
    /\ forall k, (1 <= k <= Z.to_nat n)%nat ->
         nth_error ext (Z.to_nat n - k) = nth_error x k
         /\ nth_error ext (Z.to_nat n + length x - 1 + k)
            = nth_error x (length x - 1 - k).
Proof.
  intros Hn. eexists. split; [| split; [reflexivity |]].
  - unfold even_ext.
    destruct (n <? 1) eqn:E1; [apply Z.ltb_lt in E1; lia |].
    destruct (n >? len x - 1) eqn:E2;
      [pose proof (Zgt_cases n (len x - 1)) as Hc; rewrite E2 in Hc; lia |].
    rewrite ext_left_slice, ext_right_slice by exact Hn. reflexivity.
  - unfold len in *.
    assert (Hl : length (rev (firstn (Z.to_nat n) (skipn 1 x))) = Z.to_nat n).
    { rewrite length_rev, length_firstn, length_skipn. lia. }
    assert (Hr : length (rev (firstn (Z.to_nat n)
                   (skipn (Z.to_nat (Z.of_nat (length x) - n - 1)) x)))
                 = Z.to_nat n).
    { rewrite length_rev, length_firstn, length_skipn. lia. }
    split.
    + rewrite !length_app, Hl, Hr. lia.
    + intros k Hk. split.
      * rewrite nth_error_app1 by lia.
        rewrite nth_error_rev_window by lia. f_equal. lia.
      * rewrite nth_error_app2 by lia.
        rewrite nth_error_app2 by lia.
        rewrite nth_error_rev_window by lia. f_equal. lia.
Qed.

(** X4.  For [1 <= n <= len x - 1] the odd extension puts in front the
    values [2 x[0] - x[k]], [k = n, ..., 1], and behind the values
    [2 x[-1] - x[-1-k]], [k = 1, ..., n]: the point reflections of the
    signal about its end samples; the result is [2 n] samples longer. *)
Theorem odd_ext_reflection {A : Type} `{Scalar A} (x : list A) (n : Z) :
  1 <= n <= len x - 1 ->
  exists ext,
    odd_ext x n = ok ext
    /\ ext = map (ssub (sscale 2 (hd szero x)))
                 (rev (firstn (Z.to_nat n) (skipn 1 x)))
             ++ x
             ++ map (ssub (sscale 2 (last x szero)))
                    (rev (firstn (Z.to_nat n)
                                 (skipn (Z.to_nat (len x - n - 1)) x)))
    /\ len ext = len x + 2 * n
    /\ forall k v, (1 <= k <= Z.to_nat n)%nat ->
         (nth_error x k = Some v ->
          nth_error ext (Z.to_nat n - k)
          = Some (ssub (sscale 2 (hd szero x)) v))
         /\ (nth_error x (length x - 1 - k) = Some v ->
             nth_error ext (Z.to_nat n + length x - 1 + k)
             = Some (ssub (sscale 2 (last x szero)) v)).
Proof.
  intros Hn. eexists. split; [| split; [reflexivity |]].
  - unfold odd_ext.
    destruct (n <? 1) eqn:E1; [apply Z.ltb_lt in E1; lia |].
    destruct (n >? len x - 1) eqn:E2;
      [pose proof (Zgt_cases n (len x - 1)) as Hc; rewrite E2 in Hc; lia |].
    destruct x as [| a l]; [unfold len in Hn; cbn [length] in Hn; lia |].
    rewrite slice_first. cbn [bind ok].
    rewrite ext_left_slice by exact Hn. cbn [bind ok].
    rewrite (slice_last a szero l). cbn [bind ok].
    rewrite ext_right_slice by exact Hn. cbn [bind ok map].
    rewrite !broadcast2_singleton_l. reflexivity.
  - unfold len in *.
    assert (Hl : length (map (ssub (sscale 2 (hd szero x)))
                   (rev (firstn (Z.to_nat n) (skipn 1 x)))) = Z.to_nat n).
    { rewrite length_map, length_rev, length_firstn, length_skipn. lia. }
    assert (Hr : length (map (ssub (sscale 2 (last x szero)))
                   (rev (firstn (Z.to_nat n)
                      (skipn (Z.to_nat (Z.of_nat (length x) - n - 1)) x))))
                 = Z.to_nat n).
    { rewrite length_map, length_rev, length_firstn, length_skipn. lia. }
    split.
    + rewrite !length_app, Hl, Hr. lia.
    + intros k v Hk. split; intros Hv.
      * rewrite nth_error_app1 by lia.
        rewrite nth_error_map, nth_error_rev_window by lia.
        replace (1 + Z.to_nat n - 1 - (Z.to_nat n - k))%nat with k by lia.
        now rewrite Hv.
      * rewrite nth_error_app2 by lia.
        rewrite nth_error_app2 by lia.
        rewrite nth_error_map, nth_error_rev_window by lia.
        match goal with
        | |- option_map _ (nth_error x ?i) = _ =>
            replace i with (length x - 1 - k)%nat by lia
        end.
        now rewrite Hv.
Qed.

(** ** The window catalogue *)

Lemma dict_get_alias (s : string) :
  In s window_names -> dict_get _win_equiv s = Some hann.
Proof.
  unfold window_names. cbn [In].
  intros [<- | [<- | [<- | []]]]; reflexivity.
Qed.

Lemma dict_get_unknown (s : string) :
  ~ In s window_names -> dict_get _win_equiv s = None.
Proof.
  unfold window_names, _win_equiv, _win_equiv_raw. cbn [In].
  intros Hs. cbn [flat_map map fst snd app dict_get].
  destruct (String.eqb "hanning" s) eqn:E1;
    [apply String.eqb_eq in E1; exfalso; apply Hs; left; exact E1 |].
  destruct (String.eqb "hann" s) eqn:E2;
    [apply String.eqb_eq in E2; exfalso; apply Hs; right; left; exact E2 |].
  destruct (String.eqb "han" s) eqn:E3;
    [apply String.eqb_eq in E3; exfalso; apply Hs; right; right; left; exact E3 |].
  reflexivity.
Qed.

(** X5.  The catalogue knows the Hann window under three names, with either
    argument form; any other name that is no number is refused with
    [ValueError], extra tuple parameters with [TypeError] (no catalogue
    function takes any), and a sequence of coefficients with
    [ValueError]. *)
Theorem get_window_catalogue (Nx : Z) (fftbins : bool) :
  (forall s, In s window_names ->
     get_window (WinStr s) Nx fftbins = hann Nx (negb fftbins)
     /\ get_window (WinTuple s []) Nx fftbins = hann Nx (negb fftbins)
     /\ forall a args,
          get_window (WinTuple s (a :: args)) Nx fftbins
          = raise (TypeError "too many positional arguments"))
  /\ (forall s, ~ In s window_names ->
      (float_accepts s = false ->
       get_window (WinStr s) Nx fftbins
       = raise (ValueError "Unknown window type."))
      /\ forall args,
           get_window (WinTuple s args) Nx fftbins
           = raise (ValueError "Unknown window type."))
  /\ (forall w,
      get_window (WinArray w) Nx fftbins
      = raise (ValueError "as window type is not supported.")).
Proof.
  split; [| split].
  - intros s Hs. pose proof (dict_get_alias s Hs) as Hd.
    split; [| split].
    + unfold get_window. destruct (float_accepts s); [reflexivity |].
      change (str_in s _needs_param) with false. cbv iota.
      unfold call_window. now rewrite Hd.
    + unfold get_window, call_window. now rewrite Hd.
    + intros a args. unfold get_window, call_window. now rewrite Hd.
  - intros s Hs. pose proof (dict_get_unknown s Hs) as Hd. split.
    + intros Hf. unfold get_window. rewrite Hf.
      change (str_in s _needs_param) with false. cbv iota.
      unfold call_window. now rewrite Hd.
    + intros args. unfold get_window, call_window. now rewrite Hd.
  - reflexivity.
Qed.

(** X6.  For [M >= 2] the periodic Hann window ([sym = false]) is the
    symmetric window of [M + 1] points without its last point.  Lengths
    0 and 1 are answered before any extension ([[]] and [[1]], whatever
    [sym]), so the relation does not reach them; a negative length is
    refused. *)
Theorem hann_periodic_truncates (M : Z) :
  2 <= M ->
  exists w,
    hann (M + 1) true = ok w
    /\ hann M false = ok (removelast w)
    /\ len w = M + 1
    /\ len (removelast w) = M.
Proof.
  intros HM.
  assert (Hbody : exists w,
             hann (M + 1) true = ok w /\ hann M false = ok (removelast w)).
  { unfold hann, general_hamming, general_cosine, _len_guards, _extend.
    destruct (M <? 0) eqn:E1; [apply Z.ltb_lt in E1; lia |].
    destruct (M + 1 <? 0) eqn:E2; [apply Z.ltb_lt in E2; lia |].
    cbn [bind ok].
    destruct (M <=? 1) eqn:E3; [apply Z.leb_le in E3; lia |].
    destruct (M + 1 <=? 1) eqn:E4; [apply Z.leb_le in E4; lia |].
    cbn [negb]. rewrite np_full_ok by lia. cbn [bind ok _truncate].
    eexists. split; reflexivity. }
  destruct Hbody as [w [Hs Hp]]. exists w.
  pose proof (hann_length _ _ _ Hs) as [_ Hls].
  pose proof (hann_length _ _ _ Hp) as [_ Hlp].
  repeat split; assumption.
Qed.

Lemma hann_small_lengths (sym : bool) :
  hann 0 sym = ok [] /\ hann 1 sym = ok [1%Q].
Proof. split; reflexivity. Qed.

(** ** More on the segmenter *)

Lemma map_singletons_windows {A : Type} (x : list A) :
  map (fun v => [v]) x
  = map (fun i => firstn 1 (skipn i x)) (seq 0 (length x)).
Proof.
  apply nth_ext with (d := []) (d' := []).
  - now rewrite !length_map, length_seq.
  - intros i Hi. rewrite length_map in Hi.
    destruct (skipn_step x i Hi) as [v [Hv Hs]].
    rewrite (nth_indep _ [] [v]) by now rewrite length_map.
    rewrite (map_nth (fun v => [v])).
    rewrite (nth_indep _ [] (firstn 1 (skipn 0 x)))
      by now rewrite length_map, length_seq.
    rewrite (map_nth (fun i => firstn 1 (skipn i x))).
    rewrite seq_nth by exact Hi. cbn [Nat.add]. rewrite Hs. cbn [firstn].
    f_equal. now apply nth_error_nth.
Qed.

(** The segments as windows of the signal, whenever a segment fits in
    the signal (the overlap may have any sign). *)
Lemma segmenter_windows {A : Type} (x : list A) (nperseg noverlap : Z) :
  noverlap < nperseg -> 1 <= nperseg <= len x ->
  segmenter x nperseg noverlap
  = ok (map (fun i => firstn (Z.to_nat nperseg)
                             (skipn (i * Z.to_nat (nperseg - noverlap)) x))
            (seq 0 (Z.to_nat ((len x - noverlap) / (nperseg - noverlap))))).
Proof.
  intros Hov Hnp. unfold segmenter.
  destruct ((nperseg =? 1) && (noverlap =? 0)) eqn:Hdeg.
  - apply andb_prop in Hdeg. destruct Hdeg as [H1 H0].
    apply Z.eqb_eq in H1. apply Z.eqb_eq in H0. subst nperseg noverlap.
    replace (Z.to_nat ((len x - 0) / (1 - 0))) with (length x)
      by (change (1 - 0) with 1; rewrite Z.sub_0_r, Z.div_1_r;
          unfold len; lia).
    rewrite map_singletons_windows. f_equal. apply map_ext. intros i.
    change (Z.to_nat (1 - 0)) with 1%nat. now rewrite Nat.mul_1_r.
  - set (step := nperseg - noverlap).
    assert (Hstep : 0 < step) by (unfold step; lia).
    destruct (step =? 0) eqn:E0; [apply Z.eqb_eq in E0; lia |].
    set (count := (len x - noverlap) / step).
    assert (Hcount : 0 <= count) by (apply Z.div_pos; lia).
    assert (Hfloor : step * count <= len x - noverlap)
      by (apply Z.mul_div_le; lia).
    unfold as_strided.
    destruct (count <? 0) eqn:Ec; [apply Z.ltb_lt in Ec; lia |].
    destruct (nperseg <? 0) eqn:En; [apply Z.ltb_lt in En; lia |].
    cbn [orb]. f_equal. apply map_ext_in. intros i Hi.
    apply in_seq in Hi. apply strided_row; [lia | lia |].
    unfold step in *. nia.
Qed.

(** X7.  With [0 <= noverlap < nperseg <= N], consecutive segments share
    exactly [noverlap] samples: what is left of a segment after its first
    [nperseg - noverlap] samples is the beginning of the next segment; there
    is at least one segment and the first one starts the signal. *)
Theorem segmenter_overlap {A : Type} (x : list A) (nperseg noverlap : Z) :
  0 <= noverlap < nperseg -> nperseg <= len x ->
  exists segs,
    segmenter x nperseg noverlap = ok segs
    /\ (1 <= length segs)%nat
    /\ nth 0 segs [] = firstn (Z.to_nat nperseg) x
    /\ forall i, (S i < length segs)%nat ->
         skipn (Z.to_nat (nperseg - noverlap)) (nth i segs [])
         = firstn (Z.to_nat noverlap) (nth (S i) segs []).
Proof.
  intros Hov Hnp. eexists. split; [apply segmenter_windows; lia |].
  set (step := nperseg - noverlap).
  assert (Hstep : 0 < step) by (unfold step; lia).
  set (count := (len x - noverlap) / step).
  assert (Hcount : 1 <= count).
  { unfold count. apply Z.div_le_lower_bound; unfold step; lia. }
  assert (Hnth : forall i, (i < Z.to_nat count)%nat ->
            nth i (map (fun i => firstn (Z.to_nat nperseg)
                                        (skipn (i * Z.to_nat step) x))
                       (seq 0 (Z.to_nat count))) []
            = firstn (Z.to_nat nperseg) (skipn (i * Z.to_nat step) x)).
  { intros i Hi.
    rewrite (nth_indep _ [] ((fun i => firstn (Z.to_nat nperseg)
                                (skipn (i * Z.to_nat step) x)) 0%nat))
      by now rewrite length_map, length_seq.
    rewrite (map_nth (fun i => firstn (Z.to_nat nperseg)
                                      (skipn (i * Z.to_nat step) x))).
    now rewrite seq_nth. }
  rewrite length_map, length_seq. split; [lia |]. split.
  - rewrite Hnth by lia. reflexivity.
  - intros i Hi. rewrite !Hnth by lia.
    rewrite skipn_firstn_comm, skipn_skipn, firstn_firstn.
    replace (Z.to_nat nperseg - Z.to_nat step)%nat with (Z.to_nat noverlap)
      by (unfold step; lia).
    rewrite Nat.min_l by lia. do 2 f_equal; lia.
Qed.

(** X8.  A signal shorter than the overlap is refused: the count of
    segments would be negative and [as_strided] raises [ValueError]. *)
Theorem segmenter_refuses_short {A : Type} (x : list A)
  (nperseg noverlap : Z) :
  0 <= noverlap < nperseg -> len x < noverlap ->
  segmenter x nperseg noverlap
  = raise (ValueError "negative dimensions are not allowed").
Proof.
  intros Hov Hshort. pose proof (len_nonneg x) as H0. unfold segmenter.
  destruct (noverlap =? 0) eqn:E; [apply Z.eqb_eq in E; lia |].
  rewrite Bool.andb_false_r.
  destruct (nperseg - noverlap =? 0) eqn:E0; [apply Z.eqb_eq in E0; lia |].
  unfold as_strided.
  assert (Hneg : (len x - noverlap) / (nperseg - noverlap) < 0)
    by (apply Z.div_lt_upper_bound; lia).
  apply Z.ltb_lt in Hneg. now rewrite Hneg.
Qed.

(** ** Detrending *)

Lemma fold_Qplus_acc (l : list Q) (a : Q) :
  (fold_left Qplus l a == a + fold_left Qplus l 0)%Q.
Proof.
  revert a. induction l as [| v l IH]; intros a; cbn [fold_left].
  - lra.
  - rewrite (IH (a + v)%Q), (IH (0 + v)%Q). lra.
Qed.

Lemma ssum_Q_cons (v : Q) (l : list Q) : (ssum (v :: l) == v + ssum l)%Q.
Proof.
  unfold ssum. cbn [fold_left sadd szero Scalar_Q].
  rewrite fold_Qplus_acc. lra.
Qed.

Lemma ssum_shifted (l : list Q) (m : Q) :
  (ssum (map (fun v => ssub v m) l)
   == ssum l - Q_of_Z (Z.of_nat (length l)) * m)%Q.
Proof.
  induction l as [| v l IH].
  - unfold ssum, Q_of_Z. cbn [map fold_left length szero Scalar_Q].
    change (inject_Z (Z.of_nat 0)) with 0%Q. lra.
  - cbn [map]. rewrite !ssum_Q_cons, IH. cbn [length ssub Scalar_Q].
    unfold Q_of_Z. rewrite Nat2Z.inj_succ, <- Z.add_1_r, inject_Z_plus.
    change (inject_Z 1) with 1%Q. lra.
Qed.

Lemma detrended_row_sum (row : list Q) :
  row <> [] ->
  (ssum (map (fun v => ssub v (smean row)) row) == 0)%Q.
Proof.
  intros Hne. rewrite ssum_shifted. unfold smean.
  cbn [sscale Scalar_Q].
  assert (Hn : ~ (Q_of_Z (Z.of_nat (length row)) == 0)%Q).
  { unfold Q_of_Z, Qeq, inject_Z. cbn [Qnum Qden]. intros H0.
    destruct row as [| v row]; [now apply Hne |].
    cbn [length] in H0. lia. }
  field. exact Hn.
Qed.

Lemma fold_Cadd_parts (l : list C) (a : C) :
  (fst (fold_left Cadd l a) == fst a + ssum (map fst l))%Q
  /\ (snd (fold_left Cadd l a) == snd a + ssum (map snd l))%Q.
Proof.
  revert a. induction l as [| v l IH]; intros a; cbn [fold_left map].
  - unfold ssum. cbn [fold_left szero Scalar_Q]. split; lra.
  - destruct (IH (Cadd a v)) as [IHr IHi].
    rewrite IHr, IHi, !ssum_Q_cons. unfold Cadd. cbn [fst snd].
    split; lra.
Qed.

Lemma ssum_C_parts (l : list C) :
  (fst (ssum l) == ssum (map fst l))%Q /\ (snd (ssum l) == ssum (map snd l))%Q.
Proof.
  destruct (fold_Cadd_parts l (0, 0)%Q) as [Hr Hi].
  unfold ssum at 1 3. cbn [sadd szero Scalar_C] in *. cbn [fst snd] in *.
  split; [rewrite Hr | rewrite Hi]; lra.
Qed.

Lemma detrended_row_sum_C (row : list C) :
  row <> [] ->
  (fst (ssum (map (fun v => ssub v (smean row)) row)) == 0)%Q
  /\ (snd (ssum (map (fun v => ssub v (smean row)) row)) == 0)%Q.
Proof.
  intros Hne.
  destruct (ssum_C_parts (map (fun v => ssub v (smean row)) row)) as [Hr Hi].
  destruct (ssum_C_parts row) as [Hsr Hsi].
  rewrite Hr, Hi, !map_map.
  assert (Hn : ~ (Q_of_Z (Z.of_nat (length row)) == 0)%Q).
  { unfold Q_of_Z, Qeq, inject_Z. cbn [Qnum Qden]. intros H0.
    destruct row as [| v row]; [now apply Hne |].
    cbn [length] in H0. lia. }
  split.
  - change (map (fun v : C => fst (ssub v (smean row))) row)
      with (map (fun v : C => ssub (fst v) (fst (smean row))) row).
    assert (E : map (fun v : C => ssub (fst v) (fst (smean row))) row
                = map (fun q => ssub q (fst (smean row))) (map fst row))
      by now rewrite map_map.
    rewrite E, ssum_shifted, length_map.
    unfold smean. cbn [sscale Scalar_C]. unfold Cscale. cbn [fst].
    rewrite Hsr. unfold C in *. field. exact Hn.
  - change (map (fun v : C => snd (ssub v (smean row))) row)
      with (map (fun v : C => ssub (snd v) (snd (smean row))) row).
    assert (E : map (fun v : C => ssub (snd v) (snd (smean row))) row
                = map (fun q => ssub q (snd (smean row))) (map snd row))
      by now rewrite map_map.
    rewrite E, ssum_shifted, length_map.
    unfold smean. cbn [sscale Scalar_C]. unfold Cscale. cbn [snd].
    rewrite Hsi. unfold C in *. field. exact Hn.
Qed.


(** ** The bias of the median *)

Lemma bias_sum_bounds (m : nat) :
  (- (1 # 2) + 1 / (2 * (2 * Q_of_Z (Z.of_nat m) + 1)) <= bias_sum m
   /\ bias_sum m <= 0)%Q.
Proof.
  induction m as [| m [IHl IHu]].
  - cbn. split; [unfold Qle; cbn; lia | lra].
  - cbn [bias_sum].
    set (q := Q_of_Z (Z.of_nat m)) in *.
    assert (Hq : (0 <= q)%Q).
    { unfold q, Q_of_Z. change 0%Q with (inject_Z 0).
      rewrite <- Zle_Qle. lia. }
    assert (Hq1 : (Q_of_Z (Z.of_nat (S m)) == q + 1)%Q).
    { unfold q, Q_of_Z. rewrite Nat2Z.inj_succ, <- Z.add_1_r, inject_Z_plus.
      reflexivity. }
    rewrite Hq1.
    assert (Hstep : (1 / (2 * (q + 1) + 1) - 1 / (2 * (q + 1))
                     == - (1 / ((2 * (q + 1) + 1) * (2 * (q + 1)))))%Q)
      by (field; split; lra).
    assert (Hgain : (1 / (2 * (2 * q + 1))
                     - 1 / ((2 * (q + 1) + 1) * (2 * (q + 1)))
                     - 1 / (2 * (2 * (q + 1) + 1))
                     == 1 / ((2 * q + 1) * (2 * q + 2) * (2 * q + 3)))%Q)
      by (field; repeat split; lra).
    assert (Hpos1 : (0 <= 1 / ((2 * (q + 1) + 1) * (2 * (q + 1))))%Q).
    { apply Qle_shift_div_l; [nra | lra]. }
    assert (Hpos2 : (0 <= 1 / ((2 * q + 1) * (2 * q + 2) * (2 * q + 3)))%Q).
    { apply Qle_shift_div_l; [| lra].
      apply Qmult_lt_0_compat; [apply Qmult_lt_0_compat |]; lra. }
    rewrite Hstep. split; lra.
Qed.

(** X10.  The bias factor of the median lies in [(1/2, 1]] for every segment
    count, so the division by it is always defined and never shrinks the
    median. *)
Theorem _median_bias_bounds (n : Z) :
  (1 # 2 < _median_bias n /\ _median_bias n <= 1)%Q.
Proof.
  rewrite median_bias_formula.
  destruct (bias_sum_bounds (Z.to_nat ((n - 1) / 2))) as [Hl Hu].
  set (q := Q_of_Z (Z.of_nat (Z.to_nat ((n - 1) / 2)))) in *.
  assert (Hq : (0 <= q)%Q).
  { unfold q, Q_of_Z. change 0%Q with (inject_Z 0).
    rewrite <- Zle_Qle. lia. }
  assert (Hpos : (0 < 1 / (2 * (2 * q + 1)))%Q).
  { apply Qlt_shift_div_l; lra. }
  split; lra.
Qed.

(** ** Calls that stop before the transform *)

Lemma _triage_segments_clip (window : window_spec) (nperseg : option Z)
  (input_length : Z) :
  is_named window = true ->
  requested_nperseg nperseg > input_length ->
  _triage_segments window nperseg input_length = raise (NameError "warnings").
Proof.
  intros Hname Hgt. unfold _triage_segments, requested_nperseg in *.
  apply Z.gtb_gt in Hgt.
  destruct window; try discriminate Hname; cbv zeta; now rewrite Hgt.
Qed.

Lemma prepare_clip_error (same_data : bool) (x0 y0 : array1)
  (window : window_spec) (nperseg noverlap nfft : option Z)
  (boundary : option string) (padded : bool) :
  is_named window = true ->
  1 <= requested_nperseg nperseg ->
  requested_nperseg nperseg
  > (if same_data then array1_len x0
     else Z.max (array1_len x0) (array1_len y0)) ->
  prepare_segments same_data x0 y0 window nperseg noverlap nfft boundary
                   padded
  = raise (NameError "warnings").
Proof.
  intros Hname Hpos Hgt.
  assert (Hseg : match nperseg with
                 | Some n => if n <? 1
                             then raise (ValueError "nperseg must be a positive integer")
                             else ok tt
                 | None => ok tt
                 end = ok tt).
  { destruct nperseg as [n0 |]; [| reflexivity]. cbn in Hpos.
    destruct (n0 <? 1) eqn:E; [apply Z.ltb_lt in E; lia | reflexivity]. }
  unfold prepare_segments.
  destruct same_data; cbn [negb andb bind ok].
  - rewrite Hseg. cbn [bind ok].
    now rewrite _triage_segments_clip.
  - destruct (array1_len x0 =? array1_len y0) eqn:Heq; cbn [negb bind ok].
    + apply Z.eqb_eq in Heq. rewrite Z.max_l in Hgt by lia.
      rewrite Hseg. cbn [bind ok]. now rewrite _triage_segments_clip.
    + apply Z.eqb_neq in Heq.
      destruct (array1_len x0 <? array1_len y0) eqn:Hlt.
      * apply Z.ltb_lt in Hlt. rewrite Z.max_r in Hgt by lia.
        destruct (array1_pad_ok x0 (array1_len y0 - array1_len x0))
          as [x1 [Hpad Hlen]]; [lia |].
        rewrite Hpad. cbn [bind ok]. rewrite Hseg. cbn [bind ok].
        rewrite _triage_segments_clip; [reflexivity | exact Hname | lia].
      * apply Z.ltb_ge in Hlt. rewrite Z.max_l in Hgt by lia.
        destruct (array1_pad_ok y0 (array1_len x0 - array1_len y0))
          as [y1 [Hpad Hlen]]; [lia |].
        rewrite Hpad. cbn [bind ok]. rewrite Hseg. cbn [bind ok].
        now rewrite _triage_segments_clip.
Qed.

(** X11.  A segment length is never clipped to the signal.  With a window
    given by name, a call on non-empty inputs whose segment length (the
    argument, or the default 256) exceeds the input length raises
    [NameError]: the clipping announces itself through [warnings.warn],
    and the module has no [warnings].  In particular [welch] with its
    default [nperseg] fails on every signal shorter than 256 samples. *)
Theorem nperseg_clipping_raises (x y : pyobj) (c : config) :
  array1_len (value x) <> 0 ->
  array1_len (value y) <> 0 ->
  is_named (window c) = true ->
  1 <= requested_nperseg (nperseg c) ->
  requested_nperseg (nperseg c) > input_length x y ->
  csd x y c = raise (NameError "warnings")
  /\ (y = x -> welch x c = raise (NameError "warnings")).
Proof.
  intros Hx Hy Hname Hpos Hgt.
  assert (Hcsd : csd x y c = raise (NameError "warnings")).
  { unfold csd, _spectral_helper. cbv zeta.
    change (str_in "psd" ["psd"; "stft"]) with true.
    change (String.eqb "psd" "psd") with true.
    cbn [negb]. rewrite Bool.andb_false_r.
    apply Z.eqb_neq in Hx. apply Z.eqb_neq in Hy. rewrite Hx, Hy.
    cbn [orb]. unfold input_length in Hgt.
    rewrite (prepare_clip_error (py_is y x) (value x) (value y) (window c)
               (nperseg c) (noverlap c) (nfft c) None false Hname Hpos Hgt).
    destruct (py_is y x); reflexivity. }
  split; [exact Hcsd |].
  intros ->. unfold welch. now rewrite Hcsd.
Qed.

(** X12.  On an input of size zero [csd] and [welch] return empty arrays
    whatever the other arguments are: no segment length, overlap, scaling
    or averaging method is examined. *)
Theorem empty_input_short_circuit (x y : pyobj) (c : config) :
  array1_len (value x) = 0
  \/ (py_is y x = false /\ array1_len (value y) = 0) ->
  csd x y c = ok ([], empty_array)
  /\ (array1_len (value x) = 0 -> welch x c = ok ([], empty_array)).
Proof.
  assert (Hgen : forall u v : pyobj,
            array1_len (value u) = 0
            \/ (py_is v u = false /\ array1_len (value v) = 0) ->
            csd u v c = ok ([], empty_array)).
  { intros u v Hempty. unfold csd, _spectral_helper. cbv zeta.
    change (str_in "psd" ["psd"; "stft"]) with true.
    change (String.eqb "psd" "psd") with true.
    cbn [negb]. rewrite Bool.andb_false_r.
    destruct Hempty as [Hu | [Hsame Hv]].
    - apply Z.eqb_eq in Hu. rewrite Hu. cbn [orb].
      destruct (py_is v u); reflexivity.
    - apply Z.eqb_eq in Hv. rewrite Hsame, Hv, Bool.orb_true_r.
      reflexivity. }
  intros Hempty. split; [now apply Hgen |].
  intros Hx. unfold welch. rewrite Hgen by now left. reflexivity.
Qed.

(** ** The cross spectrum of distinct objects *)

Lemma helper_complex_bind {A : Type} (m : result A)
  (k : A -> result (list Q * list Q * ndarray)) :
  (forall a, helper_complex (k a)) -> helper_complex (bind m k).
Proof.
  intros Hk. destruct m as [e | a]; [exact I | apply Hk].
Qed.

Ltac helper_complex_step :=
  match goal with
  | |- helper_complex (bind _ _) => apply helper_complex_bind; intros
  | |- helper_complex (raise _) => exact I
  | |- helper_complex (ok _) => reflexivity
  | |- helper_complex (if ?b then _ else _) => destruct b
  end.

Lemma csd_average_complex (Pxy P : ndarray) (average : string) :
  is_real Pxy = false -> csd_average Pxy average = ok P -> is_real P = false.
Proof.
  unfold csd_average, is_real. intros Hcomplex.
  destruct (buf Pxy) as [l | l] eqn:Hbuf; [discriminate |].
  destruct ((2 <=? length (shape Pxy))%nat && (0 <? size Pxy)%nat).
  - destruct (1 <? last_dim (shape Pxy))%nat.
    + destruct (String.eqb average "median").
      * intros H. injection H as <-. reflexivity.
      * destruct (String.eqb average "mean"); [| discriminate].
        intros H. injection H as <-. reflexivity.
    + intros H. injection H as <-. cbn [buf]. reflexivity.
  - intros H. injection H as <-. now rewrite Hbuf.
Qed.

(** X13.  When [y] is another object than [x] (even one holding the same
    samples) and neither is empty, the spectrum [csd] returns is complex:
    only the same object gives the real spectrum of [welch]. *)
Theorem csd_distinct_objects_complex (x y : pyobj) (c : config)
  (freqs : list Q) (Pxy : ndarray) :
  py_is y x = false ->
  array1_len (value x) <> 0 ->
  array1_len (value y) <> 0 ->
  csd x y c = ok (freqs, Pxy) ->
  is_real Pxy = false.
Proof.
  intros Hdist Hx Hy Hcsd.
  assert (Hhelper : helper_complex
            (_spectral_helper x y (fs c) (window c) (nperseg c) (noverlap c)
               (nfft c) (detrend c) (return_onesided c) (scaling c) "psd"
               None false)).
  { unfold _spectral_helper. cbv zeta. rewrite Hdist.
    change (String.eqb "psd" "stft") with false.
    change (String.eqb "psd" "psd") with true.
    change (str_in "psd" ["psd"; "stft"]) with true.
    apply Z.eqb_neq in Hx. apply Z.eqb_neq in Hy. rewrite Hx, Hy.
    cbn [negb andb orb].
    repeat helper_complex_step. }
  unfold csd in Hcsd.
  destruct (_spectral_helper x y (fs c) (window c) (nperseg c) (noverlap c)
              (nfft c) (detrend c) (return_onesided c) (scaling c) "psd"
              None false) as [e | [[f t] P]]; [discriminate |].
  cbn [bind ok helper_complex] in Hcsd, Hhelper.
  apply bind_ok_inv in Hcsd. destruct Hcsd as [P' [Havg Heq]].
  injection Heq as _ <-.
  exact (csd_average_complex _ _ _ Hhelper Havg).
Qed.

(** ** A call of [welch] that completes *)

Lemma get_window_alias (s : string) (Nx : Z) (fftbins : bool) :
  In s window_names ->
  get_window (WinStr s) Nx fftbins = hann Nx (negb fftbins).
Proof.
  intros Hs. unfold get_window. destruct (float_accepts s); [reflexivity |].
  change (str_in s _needs_param) with false. cbv iota.
  unfold call_window. now rewrite (dict_get_alias s Hs).
Qed.

Lemma mapM_ok {A B : Type} (f : A -> result B) (g : A -> B) (l : list A) :
  (forall a, In a l -> f a = ok (g a)) -> mapM f l = ok (map g l).
Proof.
  induction l as [| a l IH]; intros Hf; [reflexivity |].
  cbn [mapM map]. rewrite (Hf a) by now left. cbn [bind ok].
  rewrite IH by (intros b Hb; apply Hf; now right). reflexivity.
Qed.

Lemma broadcast2_same_length {A B D : Type} (f : A -> B -> D)
  (a : list A) (b : list B) :
  length a = length b -> broadcast2 f a b = ok (map2 f a b).
Proof.
  intros Hl. unfold broadcast2. apply Nat.eqb_eq in Hl. now rewrite Hl.
Qed.

Lemma chunks_length {A : Type} (n k : nat) (l : list A) :
  length (chunks n k l) = k.
Proof.
  revert l. induction k as [| k IH]; intros l; [reflexivity |].
  cbn [chunks length]. now rewrite IH.
Qed.

Lemma flat_map_length_const {A B : Type} (f : A -> list B) (l : list A)
  (k : nat) :
  (forall a, In a l -> length (f a) = k) ->
  length (flat_map f l) = (length l * k)%nat.
Proof.
  induction l as [| a l IH]; intros Hf; [reflexivity |].
  cbn [flat_map length]. rewrite length_app, (Hf a) by now left.
  rewrite IH by (intros b Hb; apply Hf; now right). lia.
Qed.

Lemma transpose_flat_length {A : Type} (ncols : nat) (rows : list (list A)) :
  Forall (fun row => length row = ncols) rows ->
  length (transpose_flat ncols rows) = (ncols * length rows)%nat.
Proof.
  intros Hrows. unfold transpose_flat.
  rewrite (flat_map_length_const _ _ (length rows)).
  - now rewrite length_seq.
  - intros j Hj. apply in_seq in Hj.
    rewrite (flat_map_length_const _ _ 1%nat); [lia |].
    intros row Hrow. rewrite Forall_forall in Hrows.
    specialize (Hrows row Hrow).
    destruct (nth_error row j) as [v |] eqn:Hv.
    + now rewrite (at_index_nth_error _ _ _ Hv).
    + apply nth_error_None in Hv. lia.
Qed.

Lemma sp_fft_fftfreq_length (n : Z) (d : Q) :
  1 <= n -> length (sp_fft_fftfreq n d) = Z.to_nat n.
Proof.
  intros Hn. unfold sp_fft_fftfreq.
  rewrite length_map, length_app, !length_map, !length_seq.
  pose proof (Z.div_mod n 2 ltac:(lia)) as Hd.
  pose proof (Z.mod_pos_bound n 2 ltac:(lia)) as Hm.
  pose proof (Z.div_mod (n - 1) 2 ltac:(lia)) as Hd1.
  pose proof (Z.mod_pos_bound (n - 1) 2 ltac:(lia)) as Hm1.
  lia.
Qed.

Lemma sp_fft_rfftfreq_length (n : Z) (d : Q) :
  length (sp_fft_rfftfreq n d) = Z.to_nat (n / 2 + 1).
Proof.
  unfold sp_fft_rfftfreq. now rewrite length_map, length_seq.
Qed.

(** The averaging block on a well-formed stack of at least one segment. *)
Lemma csd_average_shape (a b : nat) (data : buffer) (average : string) :
  (1 <= a)%nat -> (1 <= b)%nat ->
  buf_len data = (a * b)%nat ->
  average = "mean" \/ average = "median" ->
  exists P,
    csd_average {| shape := [a; b]; buf := data |} average = ok P
    /\ shape P = [a]
    /\ buf_len (buf P) = a
    /\ is_real P = is_real {| shape := [a; b]; buf := data |}.
Proof.
  intros Ha Hb Hlen Havg. unfold csd_average, size.
  cbn [shape buf length fold_right last_dim last removelast].
  assert (H0 : (0 <? a * (b * 1))%nat = true) by (apply Nat.ltb_lt; nia).
  rewrite H0. cbn [Nat.leb andb].
  destruct (1 <? b)%nat eqn:E1.
  - destruct Havg as [-> | ->].
    + change (String.eqb "mean" "median") with false.
      change (String.eqb "mean" "mean") with true. cbv iota.
      eexists. split; [reflexivity |]. cbn [shape buf].
      split; [reflexivity |].
      destruct data; cbn [buf_len is_real buf]; unfold reduce_last;
        rewrite length_map, chunks_length; split; (lia || reflexivity).
    + change (String.eqb "median" "median") with true. cbv iota.
      eexists. split; [reflexivity |]. cbn [shape buf].
      split; [reflexivity |].
      destruct data; cbn [buf_len is_real buf]; unfold reduce_last;
        rewrite !length_map, chunks_length; split; (lia || reflexivity).
  - apply Nat.ltb_ge in E1. assert (b = 1%nat) by lia. subst b.
    eexists. split; [reflexivity |]. cbn [shape buf].
    split; [reflexivity |]. split; [lia | reflexivity].
Qed.

Lemma detrend_total_cases (d : detrend_spec) :
  detrend_total d = true ->
  (forall data, detrend_func d data = ok data)
  \/ (forall data,
        detrend_func d data
        = ok match data with
             | RealRows r => RealRows (detrend_constant r)
             | ComplexRows r => ComplexRows (detrend_constant r)
             end).
Proof.
  destruct d as [| t | f]; cbn [detrend_total]; [now left | | discriminate].
  unfold str_in. cbn [existsb]. intros Ht.
  destruct (String.eqb t "") eqn:E0.
  - left. intros data. cbn [detrend_func]. now rewrite E0.
  - destruct (String.eqb t "constant") eqn:E1.
    + apply String.eqb_eq in E1. subst t. right. intros data. reflexivity.
    + destruct (String.eqb t "c") eqn:E2; [| discriminate Ht].
      apply String.eqb_eq in E2. subst t. right. intros data. reflexivity.
Qed.

Lemma detrend_constant_lengths {A : Type} `{Scalar A} (rows : list (list A))
  (n : nat) :
  Forall (fun row => length row = n) rows ->
  length (detrend_constant rows) = length rows
  /\ Forall (fun row => length row = n) (detrend_constant rows).
Proof.
  intros Hrows. unfold detrend_constant. split; [apply length_map |].
  rewrite Forall_forall in *. intros row Hrow. apply in_map_iff in Hrow.
  destruct Hrow as [r [<- Hr]]. rewrite length_map. now apply Hrows.
Qed.

Lemma windowing_ok {A : Type} `{Scalar A} (win : list Q)
  (rows : list (list A)) :
  Forall (fun row => length row = length win) rows ->
  mapM (broadcast2 sscale win) rows = ok (map (map2 sscale win) rows)
  /\ Forall (fun row => length row = length win)
            (map (map2 sscale win) rows).
Proof.
  intros Hrows. rewrite Forall_forall in Hrows. split.
  - apply mapM_ok. intros row Hrow. apply broadcast2_same_length.
    symmetry. now apply Hrows.
  - rewrite Forall_forall. intros row Hrow. apply in_map_iff in Hrow.
    destruct Hrow as [r [<- Hr]]. rewrite map2_length, (Hrows r Hr).
    apply Nat.min_id.
Qed.

Lemma segmenter_windows_shape {A : Type} (x : list A) (nperseg noverlap : Z) :
  noverlap < nperseg -> 1 <= nperseg <= len x ->
  exists rows,
    segmenter x nperseg noverlap = ok rows
    /\ length rows
       = Z.to_nat ((len x - noverlap) / (nperseg - noverlap))
    /\ (1 <= length rows)%nat
    /\ Forall (fun row => length row = Z.to_nat nperseg) rows.
Proof.
  intros Hov Hnp. eexists. split; [now apply segmenter_windows |].
  set (step := nperseg - noverlap).
  assert (Hstep : 0 < step) by (unfold step; lia).
  assert (Hcount : 1 <= (len x - noverlap) / step)
    by (apply Z.div_le_lower_bound; unfold step; lia).
  assert (Hfloor : step * ((len x - noverlap) / step) <= len x - noverlap)
    by (apply Z.mul_div_le; lia).
  rewrite length_map, length_seq. split; [reflexivity |]. split; [lia |].
  rewrite Forall_forall. intros row Hrow. apply in_map_iff in Hrow.
  destruct Hrow as [i [<- Hi]]. apply in_seq in Hi.
  apply length_firstn_skipn. unfold len, step in *. nia.
Qed.

(** [_fft_helper] on a signal that holds a segment: one transform per
    segment, each of [nfft] bins, or [nfft // 2 + 1] for one side. *)
Lemma _fft_helper_shape (x : array1) (win : list Q) (d : detrend_spec)
  (nperseg noverlap nfft : Z) (onesided : bool) :
  (forall n row, 1 <= n -> length (np_fft n row) = Z.to_nat n) ->
  (forall n row, 1 <= n -> length (np_rfft n row) = Z.to_nat (n / 2 + 1)) ->
  noverlap < nperseg -> 1 <= nperseg <= array1_len x ->
  len win = nperseg ->
  detrend_total d = true ->
  1 <= nfft ->
  exists rows,
    _fft_helper x win (detrend_func d) nperseg noverlap nfft
                (if onesided then "onesided" else "twosided") = ok rows
    /\ length rows
       = Z.to_nat ((array1_len x - noverlap) / (nperseg - noverlap))
    /\ (1 <= length rows)%nat
    /\ Forall (fun row => length row
                          = Z.to_nat (if onesided then nfft / 2 + 1 else nfft))
              rows.
Proof.
  intros Hfft Hrfft Hov Hnp Hwin Hd Hnfft.
  assert (Hwl : Z.to_nat nperseg = length win) by (unfold len in Hwin; lia).
  unfold _fft_helper.
  destruct x as [l | l]; cbn [array1_len] in *;
    destruct (segmenter_windows_shape l nperseg noverlap Hov Hnp)
      as [rows [Hseg [Hlen [Hpos Hrows]]]];
    rewrite Hseg; cbn [bind ok]; rewrite Hwl in Hrows;
    destruct (detrend_total_cases d Hd) as [Hid | Hconst].
  - rewrite Hid. cbn [bind ok].
    destruct (windowing_ok win rows Hrows) as [Hw Hwr].
    rewrite Hw. cbn [bind ok].
    destruct onesided; cbn [String.eqb Ascii.eqb Bool.eqb];
      (eexists; split; [reflexivity |]); rewrite !length_map;
      (split; [exact Hlen |]); (split; [exact Hpos |]);
      rewrite Forall_forall; intros row Hrow; apply in_map_iff in Hrow;
      destruct Hrow as [r [<- _]]; [now apply Hrfft | now apply Hfft].
  - rewrite Hconst. cbn [bind ok].
    destruct (detrend_constant_lengths rows _ Hrows) as [Hdl Hdr].
    destruct (windowing_ok win _ Hdr) as [Hw Hwr].
    rewrite Hw. cbn [bind ok].
    destruct onesided; cbn [String.eqb Ascii.eqb Bool.eqb];
      (eexists; split; [reflexivity |]); rewrite !length_map, Hdl;
      (split; [exact Hlen |]); (split; [exact Hpos |]);
      rewrite Forall_forall; intros row Hrow; apply in_map_iff in Hrow;
      destruct Hrow as [r [<- _]]; [now apply Hrfft | now apply Hfft].
  - rewrite Hid. cbn [bind ok].
    destruct (windowing_ok win rows Hrows) as [Hw Hwr].
    rewrite Hw. cbn [bind ok].
    destruct onesided; cbn [String.eqb Ascii.eqb Bool.eqb];
      (eexists; split; [reflexivity |]); rewrite !length_map;
      (split; [exact Hlen |]); (split; [exact Hpos |]);
      rewrite Forall_forall; intros row Hrow; apply in_map_iff in Hrow;
      destruct Hrow as [r [<- _]]; [now apply Hrfft | now apply Hfft].
  - rewrite Hconst. cbn [bind ok].
    destruct (detrend_constant_lengths rows _ Hrows) as [Hdl Hdr].
    destruct (windowing_ok win _ Hdr) as [Hw Hwr].
    rewrite Hw. cbn [bind ok].
    destruct onesided; cbn [String.eqb Ascii.eqb Bool.eqb];
      (eexists; split; [reflexivity |]); rewrite !length_map, Hdl;
      (split; [exact Hlen |]); (split; [exact Hpos |]);
      rewrite Forall_forall; intros row Hrow; apply in_map_iff in Hrow;
      destruct Hrow as [r [<- _]]; [now apply Hrfft | now apply Hfft].
Qed.

Lemma prepare_same_ok (s : string) (x0 : array1)
  (nperseg noverlap nfft : option Z) :
  In s window_names ->
  1 <= requested_nperseg nperseg <= array1_len x0 ->
  (forall o, noverlap = Some o -> o < requested_nperseg nperseg) ->
  (forall m, nfft = Some m -> requested_nperseg nperseg <= m) ->
  exists win,
    len win = requested_nperseg nperseg
    /\ prepare_segments true x0 x0 (WinStr s) nperseg noverlap nfft None false
       = ok {| px := x0; py := x0; pwin := win;
               pnperseg := requested_nperseg nperseg;
               pnoverlap := match noverlap with
                            | Some o => o
                            | None => requested_nperseg nperseg / 2
                            end;
               pnfft := match nfft with
                        | Some m => m
                        | None => requested_nperseg nperseg
                        end |}.
Proof.
  intros Hs Hnp Hov Hnfft.
  destruct (hann_ok (requested_nperseg nperseg) false) as [win Hwin];
    [lia |].
  exists win. split; [apply (hann_length _ _ _ Hwin) |].
  unfold prepare_segments, _triage_segments. cbn [negb andb bind ok].
  assert (Hseg : match nperseg with
                 | Some n => if n <? 1
                             then raise (ValueError "nperseg must be a positive integer")
                             else ok tt
                 | None => ok tt
                 end = ok tt).
  { destruct nperseg as [n0 |]; [| reflexivity]. cbn in Hnp.
    destruct (n0 <? 1) eqn:E; [apply Z.ltb_lt in E; lia | reflexivity]. }
  rewrite Hseg. cbn [bind ok]. cbv zeta.
  change (match nperseg with Some n => n | None => 256 end)
    with (requested_nperseg nperseg).
  destruct (requested_nperseg nperseg >? array1_len x0) eqn:Hgt.
  { pose proof (Zgt_cases (requested_nperseg nperseg) (array1_len x0)) as Hc.
    rewrite Hgt in Hc. lia. }
  cbn [bind ok]. rewrite (get_window_alias s _ true Hs). cbn [negb].
  rewrite Hwin. cbn [bind ok].
  assert (Hn : match nfft with
               | Some n => if n <? requested_nperseg nperseg
                           then raise (ValueError "nfft must be greater than or equal to nperseg.")
                           else ok n
               | None => ok (requested_nperseg nperseg)
               end
               = ok match nfft with
                    | Some m => m
                    | None => requested_nperseg nperseg
                    end).
  { destruct nfft as [m |]; [| reflexivity].
    specialize (Hnfft m eq_refl).
    destruct (m <? requested_nperseg nperseg) eqn:E;
      [apply Z.ltb_lt in E; lia | reflexivity]. }
  rewrite Hn. cbn [bind ok].
  assert (Ho : resolve_noverlap noverlap (requested_nperseg nperseg)
               = ok match noverlap with
                    | Some o => o
                    | None => requested_nperseg nperseg / 2
                    end).
  { destruct noverlap as [o |].
    - specialize (Hov o eq_refl). unfold resolve_noverlap.
      destruct (o >=? requested_nperseg nperseg) eqn:E; [| reflexivity].
      pose proof (Zge_cases o (requested_nperseg nperseg)) as Hc.
      rewrite E in Hc. lia.
    - apply resolve_noverlap_default. lia. }
  rewrite Ho. reflexivity.
Qed.

Lemma onesided_correction_shape (sides mode : string) (nfft : Z)
  (rows : list (list C)) (k : nat) :
  Forall (fun row => length row = k) rows ->
  length (onesided_correction sides mode nfft rows) = length rows
  /\ Forall (fun row => length row = k)
            (onesided_correction sides mode nfft rows).
Proof.
  intros Hrows. unfold onesided_correction.
  assert (Hupd : forall start stop,
            Forall (fun row => length row = k)
                   (map (slice_update (Cscale 2) start stop) rows)).
  { intros start stop. rewrite Forall_forall in *. intros row Hrow.
    apply in_map_iff in Hrow. destruct Hrow as [r [<- Hr]].
    rewrite slice_update_length. now apply Hrows. }
  destruct (String.eqb sides "onesided" && String.eqb mode "psd");
    [| split; [reflexivity | exact Hrows]].
  destruct (negb (nfft mod 2 =? 0)); (split; [apply length_map | apply Hupd]).
Qed.

Lemma map_map_shape {A B : Type} (f : A -> B) (rows : list (list A))
  (k : nat) :
  Forall (fun row => length row = k) rows ->
  Forall (fun row => length row = k) (map (map f) rows).
Proof.
  intros Hrows. rewrite Forall_forall in *. intros row Hrow.
  apply in_map_iff in Hrow. destruct Hrow as [r [<- Hr]].
  rewrite length_map. now apply Hrows.
Qed.

(** The engine on one object, a named window and lengths that fit. *)
Lemma _spectral_helper_same_shape (x : pyobj) (c : config) (s : string) :
  (forall n row, 1 <= n -> length (np_fft n row) = Z.to_nat n) ->
  (forall n row, 1 <= n -> length (np_rfft n row) = Z.to_nat (n / 2 + 1)) ->
  window c = WinStr s -> In s window_names ->
  1 <= requested_nperseg (nperseg c) <= array1_len (value x) ->
  (forall o, noverlap c = Some o -> o < requested_nperseg (nperseg c)) ->
  (forall m, nfft c = Some m -> requested_nperseg (nperseg c) <= m) ->
  detrend_total (detrend c) = true ->
  scaling c = "density" \/ scaling c = "spectrum" ->
  ~ (fs c == 0)%Q ->
  (return_onesided c = true -> iscomplexobj (value x) = false) ->
  exists freqs t P nseg,
    _spectral_helper x x (fs c) (window c) (nperseg c) (noverlap c) (nfft c)
      (detrend c) (return_onesided c) (scaling c) "psd" None false
    = ok (freqs, t, P)
    /\ (1 <= nseg)%nat
    /\ shape P = [length freqs; nseg]
    /\ buf_len (buf P) = (length freqs * nseg)%nat
    /\ is_real P = true
    /\ length freqs
       = Z.to_nat (let nfft := match nfft c with
                               | Some m => m
                               | None => requested_nperseg (nperseg c)
                               end in
                   if return_onesided c then nfft / 2 + 1 else nfft).
Proof.
  intros Hfft Hrfft Hwin Hs Hnp Hov Hnfft Hd Hscal Hfs Hreal.
  destruct (prepare_same_ok s (value x) (nperseg c) (noverlap c) (nfft c)
              Hs Hnp Hov Hnfft) as [win [Hwl Hprep]].
  set (np := requested_nperseg (nperseg c)) in *.
  set (no := match noverlap c with Some o => o | None => np / 2 end) in *.
  set (nf := match nfft c with Some m => m | None => np end) in *.
  assert (Hno : no < np).
  { unfold no. destruct (noverlap c) as [o |]; [now apply Hov |].
    apply Z.div_lt; lia. }
  assert (Hnf : 1 <= nf).
  { unfold nf. destruct (nfft c) as [m |]; [specialize (Hnfft m eq_refl) |];
      lia. }
  unfold _spectral_helper. cbv zeta. rewrite (py_is_refl x), Hwin.
  change (String.eqb "psd" "stft") with false.
  change (String.eqb "psd" "psd") with true.
  change (str_in "psd" ["psd"; "stft"]) with true.
  cbn [negb andb].
  destruct (array1_len (value x) =? 0) eqn:E0; [apply Z.eqb_eq in E0; lia |].
  rewrite Hprep. cbn [bind ok px py pwin pnperseg pnoverlap pnfft].
  assert (Hsc : exists sc,
             (if String.eqb (scaling c) "density"
              then ok (1 / (fs c * ssum (map (fun w => w * w) win)))%Q
              else if String.eqb (scaling c) "spectrum"
                   then ok (1 / (ssum win * ssum win))%Q
                   else raise (ValueError "Unknown scaling")) = ok sc).
  { destruct Hscal as [-> | ->]; eexists; reflexivity. }
  destruct Hsc as [sc Hsc]. rewrite Hsc. cbn [bind ok].
  assert (Hfs0 : Qeq_bool (fs c) 0 = false).
  { destruct (Qeq_bool (fs c) 0) eqn:E; [| reflexivity].
    apply Qeq_bool_eq in E. contradiction. }
  destruct (return_onesided c) eqn:Hone.
  - rewrite (Hreal eq_refl). cbn [bind ok]. rewrite Hfs0.
    change (String.eqb "onesided" "twosided") with false. cbv iota.
    destruct (_fft_helper_shape (value x) win (detrend c) np no nf true
                Hfft Hrfft Hno Hnp Hwl Hd Hnf)
      as [rows [Hrows [Hlen [Hpos Hall]]]].
    cbv iota in Hrows, Hall. rewrite Hrows. cbn [bind ok].
    eexists _, _, _, (length rows). split; [reflexivity |].
    cbn [shape buf buf_len is_real].
    pose proof (map_map_shape (fun a => Cmul (Cconj a) a) rows _ Hall) as H1.
    pose proof (map_map_shape (Cscale sc) _ _ H1) as H2.
    destruct (onesided_correction_shape "onesided" "psd" nf _ _ H2)
      as [H3 H4].
    rewrite sp_fft_rfftfreq_length, H3, !length_map.
    split; [exact Hpos |]. split; [reflexivity |].
    split; [| split; reflexivity].
    rewrite transpose_flat_length by exact H4.
    now rewrite H3, !length_map.
  - cbn [bind ok]. rewrite Hfs0.
    change (String.eqb "twosided" "twosided") with true. cbv iota.
    destruct (_fft_helper_shape (value x) win (detrend c) np no nf false
                Hfft Hrfft Hno Hnp Hwl Hd Hnf)
      as [rows [Hrows [Hlen [Hpos Hall]]]].
    cbv iota in Hrows, Hall. rewrite Hrows. cbn [bind ok].
    eexists _, _, _, (length rows). split; [reflexivity |].
    cbn [shape buf buf_len is_real].
    pose proof (map_map_shape (fun a => Cmul (Cconj a) a) rows _ Hall) as H1.
    pose proof (map_map_shape (Cscale sc) _ _ H1) as H2.
    destruct (onesided_correction_shape "twosided" "psd" nf _ _ H2)
      as [H3 H4].
    rewrite sp_fft_fftfreq_length by exact Hnf.
    rewrite H3, !length_map.
    split; [exact Hpos |]. split; [reflexivity |].
    split; [| split; reflexivity].
    rewrite transpose_flat_length by exact H4.
    now rewrite H3, !length_map.
Qed.

(** X14.  A call of [welch] that completes.  For a non-empty signal (real
    when one side is asked for), a window given by one of its names, a
    segment length between 1 and the signal length, an overlap below it, a
    transform at least as long, no or constant detrending, a known scaling,
    a non-zero sampling frequency and the mean or the median, [welch]
    returns frequencies and a real spectrum of the same length: [nfft] of
    them, or [nfft // 2 + 1] for one side.  The transforms are assumed to
    return [n] and [n // 2 + 1] points. *)
Theorem welch_returns_spectrum (x : pyobj) (c : config) (s : string) :
  (forall n row, 1 <= n -> length (np_fft n row) = Z.to_nat n) ->
  (forall n row, 1 <= n -> length (np_rfft n row) = Z.to_nat (n / 2 + 1)) ->
  window c = WinStr s -> In s window_names ->
  1 <= requested_nperseg (nperseg c) <= array1_len (value x) ->
  (forall o, noverlap c = Some o -> o < requested_nperseg (nperseg c)) ->
  (forall m, nfft c = Some m -> requested_nperseg (nperseg c) <= m) ->
  detrend_total (detrend c) = true ->
  scaling c = "density" \/ scaling c = "spectrum" ->
  ~ (fs c == 0)%Q ->
  (return_onesided c = true -> iscomplexobj (value x) = false) ->
  average c = "mean" \/ average c = "median" ->
  exists freqs Pxx,
    welch x c = ok (freqs, Pxx)
    /\ shape Pxx = [length freqs]
    /\ buf_len (buf Pxx) = length freqs
    /\ is_real Pxx = true
    /\ length freqs
       = Z.to_nat (let nfft := match nfft c with
                               | Some m => m
                               | None => requested_nperseg (nperseg c)
                               end in
                   if return_onesided c then nfft / 2 + 1 else nfft).
Proof.
  intros Hfft Hrfft Hwin Hs Hnp Hov Hnfft Hd Hscal Hfs Hreal Havg.
  destruct (_spectral_helper_same_shape x c s Hfft Hrfft Hwin Hs Hnp Hov
              Hnfft Hd Hscal Hfs Hreal)
    as [freqs [t [P [nseg [Hhelper [Hseg [Hshape [Hbuf [HPreal Hfreq]]]]]]]]].
  assert (Hfpos : (1 <= length freqs)%nat).
  { rewrite Hfreq. cbv zeta.
    assert (Hm : 1 <= match nfft c with
                      | Some m => m
                      | None => requested_nperseg (nperseg c)
                      end)
      by (destruct (nfft c) as [m |]; [specialize (Hnfft m eq_refl) |]; lia).
    destruct (return_onesided c).
    - assert (0 <= match nfft c with
                   | Some m => m
                   | None => requested_nperseg (nperseg c)
                   end / 2) by (apply Z.div_pos; lia).
      lia.
    - lia. }
  destruct P as [Pshape Pbuf]. cbn [shape buf] in Hshape, Hbuf. subst Pshape.
  destruct (csd_average_shape (length freqs) nseg Pbuf (average c)
              Hfpos Hseg Hbuf Havg) as [P' [Havg' [Hs' [Hb' Hr']]]].
  exists freqs, P'. unfold welch, csd. rewrite Hhelper. cbn [bind ok].
  rewrite Havg'. cbn [bind ok].
  assert (HP' : is_real P' = true) by (rewrite Hr'; exact HPreal).
  rewrite (real_of_real P' HP').
  repeat split; assumption.
Qed.

(** ** The frequency axes *)

Lemma nth_error_map_seq {B : Type} (f : nat -> B) (k i : nat) :
  (i < k)%nat -> nth_error (map f (seq 0 k)) i = Some (f i).
Proof.
  intros Hi. rewrite nth_error_map, nth_error_seq.
  destruct (Nat.ltb_spec i k) as [_ | Hge]; [reflexivity | lia].
Qed.

Lemma firstn_map_seq {B : Type} (f : nat -> B) (h k : nat) :
  (h <= k)%nat -> firstn h (map f (seq 0 k)) = map f (seq 0 h).
Proof.
  intros Hhk. rewrite firstn_map. f_equal.
  replace k with (h + (k - h))%nat by lia.
  rewrite seq_app, firstn_app, length_seq, Nat.sub_diag, firstn_O, app_nil_r.
  apply firstn_all2. rewrite length_seq. lia.
Qed.

(** X15.  The two-sided frequency axis of [n >= 1] points lists the
    frequencies [i / (n d)] for [i <= (n - 1) // 2] first and the negative
    ones [(i - n) / (n d)] after them; up to [(n - 1) // 2] it is the
    one-sided axis, which has [n // 2 + 1] points [i / (n d)]. *)
Theorem frequency_axes (n : Z) (d : Q) :
  1 <= n ->
  length (sp_fft_fftfreq n d) = Z.to_nat n
  /\ length (sp_fft_rfftfreq n d) = Z.to_nat (n / 2 + 1)
  /\ (forall i, (i < Z.to_nat n)%nat ->
        nth_error (sp_fft_fftfreq n d) i
        = Some (Q_of_Z (if Z.of_nat i <=? (n - 1) / 2
                        then Z.of_nat i else Z.of_nat i - n)
                * (1 / (Q_of_Z n * d)))%Q)
  /\ firstn (Z.to_nat ((n - 1) / 2 + 1)) (sp_fft_fftfreq n d)
     = firstn (Z.to_nat ((n - 1) / 2 + 1)) (sp_fft_rfftfreq n d).
Proof.
  intros Hn.
  pose proof (Z.div_mod n 2 ltac:(lia)) as Hd.
  pose proof (Z.mod_pos_bound n 2 ltac:(lia)) as Hm.
  pose proof (Z.div_mod (n - 1) 2 ltac:(lia)) as Hd1.
  pose proof (Z.mod_pos_bound (n - 1) 2 ltac:(lia)) as Hm1.
  split; [now apply sp_fft_fftfreq_length |].
  split; [apply sp_fft_rfftfreq_length |].
  split.
  - intros i Hi. unfold sp_fft_fftfreq. cbv zeta.
    rewrite nth_error_map.
    destruct (Z.leb_spec (Z.of_nat i) ((n - 1) / 2)) as [Hle | Hgt].
    + rewrite nth_error_app1 by (rewrite length_map, length_seq; lia).
      rewrite nth_error_map_seq by lia. reflexivity.
    + rewrite nth_error_app2 by (rewrite length_map, length_seq; lia).
      rewrite length_map, length_seq.
      rewrite nth_error_map_seq by lia. cbn [option_map].
      do 3 f_equal. lia.
  - unfold sp_fft_fftfreq, sp_fft_rfftfreq. cbv zeta.
    rewrite firstn_map, firstn_app, length_map, length_seq, Nat.sub_diag.
    rewrite firstn_O, app_nil_r.
    rewrite firstn_all2 by (rewrite length_map, length_seq; lia).
    rewrite firstn_map_seq by lia.
    now rewrite map_map.
Qed.

(** ** The values of the Hann window *)

Lemma accumulate_two (f0 f1 : Q -> Q) (fac : list Q) :
  map2 Qplus (map2 Qplus (repeat 0%Q (length fac)) (map f0 fac)) (map f1 fac)
  = map (fun f => 0 + f0 f + f1 f)%Q fac.
Proof.
  induction fac as [| f fac IH]; simpl; [reflexivity | now rewrite IH].
Qed.

(** From two points on, the window is the cosine sum
    [0.5 cos(0 f) + 0.5 cos(1 f)] over the grid of angles, cut by one
    point when it was extended. *)
Lemma hann_values (M : Z) (sym : bool) :
  2 <= M ->
  hann M sym
  = ok (_truncate
          (map (fun f => 0 + (1 # 2) * np_cos (Q_of_Z (Z.of_nat 0) * f)
                         + (1 - (1 # 2)) * np_cos (Q_of_Z (Z.of_nat 1) * f))%Q
               (np_linspace (- np_pi) np_pi (fst (_extend M sym))))
          (snd (_extend M sym))).
Proof.
  intros HM. unfold hann, general_hamming, general_cosine, _len_guards.
  destruct (M <? 0) eqn:E1; [apply Z.ltb_lt in E1; lia |].
  cbn [bind ok].
  destruct (M <=? 1) eqn:E2; [apply Z.leb_le in E2; lia |].
  assert (H1 : 1 <= fst (_extend M sym))
    by (unfold _extend; destruct sym; cbn [negb fst]; lia).
  destruct (_extend M sym) as [M1 needs_trunc]. cbn [fst snd] in *.
  rewrite np_full_ok by lia. cbn [bind ok length seq fold_left nth].
  pose proof (np_linspace_length (- np_pi) np_pi M1 H1) as Hl.
  unfold len in Hl.
  replace (Z.to_nat M1) with (length (np_linspace (- np_pi) np_pi M1))
    by lia.
  now rewrite accumulate_two.
Qed.

Lemma Forall_removelast {B : Type} (P : B -> Prop) (l : list B) :
  Forall P l -> Forall P (removelast l).
Proof.
  induction 1 as [| v l Hv Hl IH]; [constructor |].
  cbn [removelast]. destruct l; [constructor |].
  constructor; assumption.
Qed.

(** X16.  Every coefficient of a Hann window lies in [[0, 1]], for a cosine
    that stays in [[-1, 1]] and is 1 at 0 (in exact arithmetic). *)
Theorem hann_range (M : Z) (sym : bool) (w : list Q) :
  (forall q, -1 <= np_cos q <= 1)%Q ->
  (forall q, q == 0 -> np_cos q == 1)%Q ->
  hann M sym = ok w ->
  Forall (fun v => 0 <= v <= 1)%Q w.
Proof.
  intros Hbound Hzero Hw.
  destruct (Z_lt_le_dec M 2) as [Hsmall | Hbig].
  - unfold hann, general_hamming, general_cosine, _len_guards in Hw.
    destruct (M <? 0) eqn:E1; [discriminate |]. apply Z.ltb_ge in E1.
    cbn [bind ok] in Hw.
    destruct (M <=? 1) eqn:E2; [| apply Z.leb_gt in E2; lia].
    rewrite np_full_ok in Hw by exact E1. injection Hw as <-.
    apply Forall_forall. intros v Hv. apply repeat_spec in Hv. subst v.
    split; discriminate.
  - rewrite (hann_values M sym Hbig) in Hw. injection Hw as <-.
    assert (Hall : forall l : list Q,
               Forall (fun v => 0 <= v <= 1)%Q
                 (map (fun f => 0 + (1 # 2) * np_cos (Q_of_Z (Z.of_nat 0) * f)
                                + (1 - (1 # 2))
                                  * np_cos (Q_of_Z (Z.of_nat 1) * f))%Q l)).
    { intros l. apply Forall_forall. intros v Hv.
      apply in_map_iff in Hv. destruct Hv as [f [<- _]].
      assert (H0 : (np_cos (Q_of_Z (Z.of_nat 0) * f) == 1)%Q).
      { apply Hzero. unfold Q_of_Z. cbn [Z.of_nat].
        change (inject_Z 0) with 0%Q. ring. }
      pose proof (Hbound (Q_of_Z (Z.of_nat 1) * f)%Q) as [Hlo Hhi].
      split; lra. }
    unfold _truncate. destruct (snd (_extend M sym)).
    + apply Forall_removelast, Hall.
    + apply Hall.
Qed.

Lemma removelast_map_seq {B : Type} (g : nat -> B) (n : nat) :
  removelast (map g (seq 0 (S n))) = map g (seq 0 n).
Proof.
  rewrite seq_S, map_app. cbn [map Nat.add]. apply removelast_last.
Qed.

Lemma np_linspace_nth (start stop : Q) (num : Z) (i : nat) :
  2 <= num -> (i < Z.to_nat num)%nat ->
  nth i (np_linspace start stop num) 0%Q
  = if (i =? Z.to_nat num - 1)%nat then stop
    else (Q_of_Z (Z.of_nat i) * ((stop - start) / Q_of_Z (num - 1))
          + start)%Q.
Proof.
  intros Hnum Hi. unfold np_linspace. cbv zeta.
  destruct (Z.to_nat num) as [| m] eqn:Hm; [lia |].
  rewrite removelast_map_seq.
  replace (S m - 1)%nat with m by lia.
  destruct (Nat.eqb_spec i m) as [-> | Hne].
  - rewrite app_nth2 by (rewrite length_map, length_seq; lia).
    rewrite length_map, length_seq, Nat.sub_diag. reflexivity.
  - rewrite app_nth1 by (rewrite length_map, length_seq; lia).
    rewrite (nth_indep _ 0%Q
               ((fun i => Q_of_Z (Z.of_nat i)
                          * ((stop - start) / Q_of_Z (num - 1)) + start)%Q
                  0%nat))
      by (rewrite length_map, length_seq; lia).
    rewrite (map_nth (fun i => Q_of_Z (Z.of_nat i)
                               * ((stop - start) / Q_of_Z (num - 1))
                               + start)%Q).
    rewrite seq_nth by lia. reflexivity.
Qed.

(** The grid of angles from [-p] to [p] is antisymmetric. *)
Lemma np_linspace_antisymmetric (p : Q) (num : Z) (i : nat) :
  2 <= num -> (i < Z.to_nat num)%nat ->
  (nth i (np_linspace (- p) p num) 0
   == - nth (Z.to_nat num - 1 - i) (np_linspace (- p) p num) 0)%Q.
Proof.
  intros Hnum Hi.
  rewrite (np_linspace_nth _ _ _ i Hnum Hi).
  rewrite (np_linspace_nth _ _ _ (Z.to_nat num - 1 - i) Hnum) by lia.
  assert (Hden : ~ (Q_of_Z (num - 1) == 0)%Q).
  { unfold Q_of_Z, Qeq, inject_Z. cbn [Qnum Qden]. lia. }
  destruct (Nat.eqb_spec i (Z.to_nat num - 1)) as [-> | Hne].
  - rewrite Nat.sub_diag.
    destruct (Nat.eqb_spec 0 (Z.to_nat num - 1)) as [H0 | _]; [lia |].
    unfold Q_of_Z at 1. cbn [Z.of_nat]. change (inject_Z 0) with 0%Q.
    field. exact Hden.
  - destruct (Nat.eqb_spec (Z.to_nat num - 1 - i) (Z.to_nat num - 1))
      as [He | Hne'].
    + assert (i = 0%nat) by lia. subst i.
      unfold Q_of_Z at 1. cbn [Z.of_nat]. change (inject_Z 0) with 0%Q.
      field. exact Hden.
    + assert (Hsplit : (Q_of_Z (Z.of_nat (Z.to_nat num - 1 - i))
                        == Q_of_Z (num - 1) - Q_of_Z (Z.of_nat i))%Q).
      { unfold Q_of_Z.
        replace (Z.of_nat (Z.to_nat num - 1 - i))
          with (num - 1 + - Z.of_nat i) by lia.
        rewrite inject_Z_plus, inject_Z_opp. ring. }
      rewrite Hsplit. field. exact Hden.
Qed.

(** X17.  A symmetric Hann window reads the same in both directions:
    coefficient [i] equals coefficient [M - 1 - i], for a cosine that is
    even (in exact arithmetic; the cosine respects the equality of
    rationals). *)
Theorem hann_symmetric (M : Z) (w : list Q) :
  (forall p q, p == q -> np_cos p == np_cos q)%Q ->
  (forall q, np_cos (- q) == np_cos q)%Q ->
  hann M true = ok w ->
  forall i, (i < length w)%nat ->
    (nth i w 0 == nth (length w - 1 - i) w 0)%Q.
Proof.
  intros Hproper Heven Hw i Hi.
  destruct (Z_lt_le_dec M 2) as [Hsmall | Hbig].
  - pose proof (hann_length _ _ _ Hw) as [H0 Hl]. unfold len in Hl.
    assert (i = 0%nat) by lia. subst i.
    replace (length w - 1 - 0)%nat with 0%nat by lia. reflexivity.
  - rewrite (hann_values M true Hbig) in Hw. injection Hw as <-.
    cbn [_extend negb fst snd _truncate] in *.
    rewrite length_map in *.
    pose proof (np_linspace_length (- np_pi) np_pi M ltac:(lia)) as Hl.
    unfold len in Hl.
    set (hv := (fun f => 0 + (1 # 2) * np_cos (Q_of_Z (Z.of_nat 0) * f)
                         + (1 - (1 # 2)) * np_cos (Q_of_Z (Z.of_nat 1) * f))%Q).
    rewrite (nth_indep _ 0%Q (hv 0%Q)) by (rewrite length_map; lia).
    rewrite (nth_indep (map hv _) 0%Q (hv 0%Q)) by (rewrite length_map; lia).
    rewrite !(map_nth hv).
    replace (length (np_linspace (- np_pi) np_pi M)) with (Z.to_nat M) by lia.
    pose proof (np_linspace_antisymmetric np_pi M i Hbig ltac:(lia)) as Ha.
    set (fi := nth i (np_linspace (- np_pi) np_pi M) 0%Q) in *.
    set (fj := nth (Z.to_nat M - 1 - i) (np_linspace (- np_pi) np_pi M) 0%Q)
      in *.
    unfold hv.
    assert (H0 : (np_cos (Q_of_Z (Z.of_nat 0) * fi)
                  == np_cos (Q_of_Z (Z.of_nat 0) * fj))%Q).
    { apply Hproper. unfold Q_of_Z. cbn [Z.of_nat].
      change (inject_Z 0) with 0%Q. ring. }
    assert (H1 : (np_cos (Q_of_Z (Z.of_nat 1) * fi)
                  == np_cos (Q_of_Z (Z.of_nat 1) * fj))%Q).
    { rewrite <- (Heven (Q_of_Z (Z.of_nat 1) * fj)%Q).
      apply Hproper. rewrite Ha. ring. }
    rewrite H0, H1. reflexivity.
Qed.

(** ** Two inputs of different lengths *)

Lemma prepare_pads_x (x0 y0 x1 : array1) (window : window_spec)
  (nperseg noverlap nfft : option Z) (boundary : option string)
  (padded : bool) :
  array1_len x0 < array1_len y0 ->
  array1_pad x0 (array1_len y0 - array1_len x0) = ok x1 ->
  prepare_segments false x0 y0 window nperseg noverlap nfft boundary padded
  = prepare_segments false x1 y0 window nperseg noverlap nfft boundary padded.
Proof.
  intros Hlt Hpad. pose proof (array1_pad_inv _ _ _ Hpad) as [Hlen _].
  unfold prepare_segments. cbn [negb andb].
  destruct (array1_len x0 =? array1_len y0) eqn:E1;
    [apply Z.eqb_eq in E1; lia |].
  destruct (array1_len x0 <? array1_len y0) eqn:E2;
    [| apply Z.ltb_ge in E2; lia].
  destruct (array1_len x1 =? array1_len y0) eqn:E3;
    [| apply Z.eqb_neq in E3; lia].
  cbn [negb]. rewrite Hpad. reflexivity.
Qed.

Lemma prepare_pads_y (x0 y0 y1 : array1) (window : window_spec)
  (nperseg noverlap nfft : option Z) (boundary : option string)
  (padded : bool) :
  array1_len y0 < array1_len x0 ->
  array1_pad y0 (array1_len x0 - array1_len y0) = ok y1 ->
  prepare_segments false x0 y0 window nperseg noverlap nfft boundary padded
  = prepare_segments false x0 y1 window nperseg noverlap nfft boundary padded.
Proof.
  intros Hlt Hpad. pose proof (array1_pad_inv _ _ _ Hpad) as [Hlen _].
  unfold prepare_segments. cbn [negb andb].
  destruct (array1_len x0 =? array1_len y0) eqn:E1;
    [apply Z.eqb_eq in E1; lia |].
  destruct (array1_len x0 <? array1_len y0) eqn:E2;
    [apply Z.ltb_lt in E2; lia |].
  destruct (array1_len x0 =? array1_len y1) eqn:E3;
    [| apply Z.eqb_neq in E3; lia].
  cbn [negb]. rewrite Hpad. reflexivity.
Qed.

(** X18.  Of two non-empty inputs of different lengths, the shorter one is
    filled with zeros at its end: [csd] returns what it returns when it
    is handed the zero-padded signal (as a further object) in its place. *)
Theorem csd_zero_pads_shorter (x y z : pyobj) (c : config) :
  py_is y x = false ->
  array1_len (value x) <> 0 -> array1_len (value y) <> 0 ->
  (array1_len (value x) < array1_len (value y) ->
   py_is y z = false ->
   array1_pad (value x) (array1_len (value y) - array1_len (value x))
   = ok (value z) ->
   csd x y c = csd z y c)
  /\ (array1_len (value y) < array1_len (value x) ->
      py_is z x = false ->
      array1_pad (value y) (array1_len (value x) - array1_len (value y))
      = ok (value z) ->
      csd x y c = csd x z c).
Proof.
  intros Hxy Hx Hy.
  apply Z.eqb_neq in Hx. apply Z.eqb_neq in Hy.
  split.
  - intros Hlt Hzy Hpad.
    pose proof (array1_pad_inv _ _ _ Hpad) as [Hlen _].
    assert (Hz : (array1_len (value z) =? 0) = false)
      by (apply Z.eqb_neq; apply Z.eqb_neq in Hy; lia).
    unfold csd, _spectral_helper. cbv zeta.
    rewrite Hxy, Hzy, Hx, Hy, Hz.
    now rewrite (prepare_pads_x _ _ _ _ _ _ _ _ _ Hlt Hpad).
  - intros Hlt Hzx Hpad.
    pose proof (array1_pad_inv _ _ _ Hpad) as [Hlen _].
    assert (Hz : (array1_len (value z) =? 0) = false)
      by (apply Z.eqb_neq; apply Z.eqb_neq in Hx; lia).
    unfold csd, _spectral_helper. cbv zeta.
    rewrite Hxy, Hzx, Hx, Hy, Hz.
    now rewrite (prepare_pads_y _ _ _ _ _ _ _ _ _ Hlt Hpad).
Qed.

(** ** The sign of the spectrum *)

Lemma helper_nonneg_bind {A : Type} (m : result A)
  (k : A -> result (list Q * list Q * ndarray)) :
  (forall a, m = ok a -> helper_nonneg (k a)) -> helper_nonneg (bind m k).
Proof.
  intros Hk. destruct m as [e | a]; [exact I | now apply Hk].
Qed.

Lemma ssum_nonneg (l : list Q) :
  Forall (fun v => 0 <= v)%Q l -> (0 <= ssum l)%Q.
Proof.
  induction 1 as [| v l Hv Hl IH].
  - unfold ssum. cbn. lra.
  - rewrite ssum_Q_cons. lra.
Qed.

Lemma Qsquare_nonneg (a : Q) : (0 <= a * a)%Q.
Proof.
  destruct (Qlt_le_dec a 0) as [Hneg | Hpos].
  - assert (H : (a * a == (- a) * (- a))%Q) by ring.
    rewrite H. apply Qmult_le_0_compat; lra.
  - apply Qmult_le_0_compat; assumption.
Qed.

Lemma Qone_over_nonneg (a : Q) : (0 <= a -> 0 <= 1 / a)%Q.
Proof.
  intros Ha. unfold Qdiv. rewrite Qmult_1_l. now apply Qinv_le_0_compat.
Qed.

Lemma Forall_at_index {B : Type} (P : B -> Prop) (l : list B) (i : Z) :
  Forall P l -> Forall P (at_index l i).
Proof.
  intros Hl. unfold at_index. destruct (i <? 0); [constructor |].
  destruct (nth_error l (Z.to_nat i)) as [v |] eqn:E; [| constructor].
  constructor; [| constructor].
  rewrite Forall_forall in Hl. apply Hl. eapply nth_error_In, E.
Qed.

Lemma Forall_flat_map_all {B D : Type} (P : D -> Prop) (f : B -> list D)
  (l : list B) :
  (forall b, In b l -> Forall P (f b)) -> Forall P (flat_map f l).
Proof.
  intros Hf. apply Forall_forall. intros d Hd.
  apply in_flat_map in Hd. destruct Hd as [b [Hb Hd]].
  specialize (Hf b Hb). rewrite Forall_forall in Hf. now apply Hf.
Qed.

Lemma Forall_transpose_flat {B : Type} (P : B -> Prop) (n : nat)
  (rows : list (list B)) :
  Forall (Forall P) rows -> Forall P (transpose_flat n rows).
Proof.
  intros Hrows. unfold transpose_flat.
  apply Forall_flat_map_all. intros j _.
  apply Forall_flat_map_all. intros row Hrow.
  apply Forall_at_index. rewrite Forall_forall in Hrows. now apply Hrows.
Qed.

Lemma Forall_map_map {B D : Type} (P : B -> Prop) (R : D -> Prop)
  (f : B -> D) (rows : list (list B)) :
  (forall b, P b -> R (f b)) ->
  Forall (Forall P) rows -> Forall (Forall R) (map (map f) rows).
Proof.
  intros Hf Hrows. apply Forall_map.
  eapply Forall_impl; [| exact Hrows].
  intros row Hrow. apply Forall_map.
  eapply Forall_impl; [| exact Hrow]. exact Hf.
Qed.

Lemma Forall_slice_update {B : Type} (P : B -> Prop) (f : B -> B)
  (start stop : option Z) (row : list B) :
  (forall b, P b -> P (f b)) ->
  Forall P row -> Forall P (slice_update f start stop row).
Proof.
  intros Hf Hrow. unfold slice_update. cbv zeta.
  apply Forall_map. apply Forall_forall. intros [i v] Hin.
  apply in_combine_r in Hin. rewrite Forall_forall in Hrow.
  cbn [fst snd]. destruct (_ && _); [apply Hf |]; now apply Hrow.
Qed.

Lemma onesided_correction_nonneg (sides mode : string) (nfft : Z)
  (rows : list (list C)) :
  Forall (Forall (fun a => 0 <= Cre a)%Q) rows ->
  Forall (Forall (fun a => 0 <= Cre a)%Q)
         (onesided_correction sides mode nfft rows).
Proof.
  intros Hrows. unfold onesided_correction.
  assert (Hdouble : forall a : C, (0 <= Cre a -> 0 <= Cre (Cscale 2 a))%Q).
  { intros a Ha. unfold Cscale, Cre in *. cbn [fst]. lra. }
  assert (Hupd : forall start stop,
            Forall (Forall (fun a => 0 <= Cre a)%Q)
                   (map (slice_update (Cscale 2) start stop) rows)).
  { intros start stop. apply Forall_map.
    eapply Forall_impl; [| exact Hrows].
    intros row Hrow. now apply Forall_slice_update. }
  destruct (_ && _); [| exact Hrows].
  destruct (negb _); apply Hupd.
Qed.

(** The spectrum of one signal against itself has no negative entry when
    the sampling frequency is not negative. *)
Lemma _spectral_helper_nonneg (x : pyobj) (fs : Q) (window : window_spec)
  (nperseg noverlap nfft : option Z) (detrend : detrend_spec)
  (return_onesided : bool) (scaling : string) (boundary : option string)
  (padded : bool) :
  (0 <= fs)%Q ->
  helper_nonneg (_spectral_helper x x fs window nperseg noverlap nfft detrend
                                  return_onesided scaling "psd" boundary
                                  padded).
Proof.
  intros Hfs. unfold _spectral_helper. cbv zeta. rewrite (py_is_refl x).
  change (String.eqb "psd" "stft") with false.
  change (String.eqb "psd" "psd") with true.
  change (str_in "psd" ["psd"; "stft"]) with true.
  cbn [negb andb].
  destruct (match boundary with Some _ => _ | None => _ end); [exact I |].
  destruct (array1_len (value x) =? 0); [constructor |].
  apply helper_nonneg_bind. intros p _.
  apply helper_nonneg_bind. intros scale Hscale.
  assert (Hs : (0 <= scale)%Q).
  { destruct (String.eqb scaling "density").
    - injection Hscale as <-. apply Qone_over_nonneg.
      apply Qmult_le_0_compat; [exact Hfs |].
      apply ssum_nonneg, Forall_map, Forall_forall.
      intros w _. apply Qsquare_nonneg.
    - destruct (String.eqb scaling "spectrum"); [| discriminate].
      injection Hscale as <-. apply Qone_over_nonneg, Qsquare_nonneg. }
  apply helper_nonneg_bind. intros sides _.
  destruct (Qeq_bool fs 0); [exact I |].
  apply helper_nonneg_bind. intros rows _.
  cbn [bind ok helper_nonneg]. unfold nonneg_array. cbn [buf].
  apply Forall_map, Forall_transpose_flat, onesided_correction_nonneg.
  apply Forall_map_map with (P := fun a => (0 <= Cre a)%Q).
  { intros a Ha. unfold Cscale, Cre in *. cbn [fst].
    now apply Qmult_le_0_compat. }
  apply Forall_map_map with (P := fun _ => True).
  { intros a _. unfold Cmul, Cconj, Cre. cbn [fst snd].
    pose proof (Qsquare_nonneg (fst a)). pose proof (Qsquare_nonneg (snd a)).
    lra. }
  apply Forall_forall. intros row _. apply Forall_forall. intros a _.
  exact I.
Qed.

Lemma Forall_chunks {B : Type} (P : B -> Prop) (n k : nat) (l : list B) :
  Forall P l -> Forall (Forall P) (chunks n k l).
Proof.
  revert l. induction k as [| k IH]; intros l Hl; cbn [chunks];
    [constructor |].
  rewrite Forall_forall in Hl.
  constructor.
  - apply Forall_forall. intros v Hv. apply Hl.
    rewrite <- (firstn_skipn n l). apply in_or_app. now left.
  - apply IH. apply Forall_forall. intros v Hv. apply Hl.
    rewrite <- (firstn_skipn n l). apply in_or_app. now right.
Qed.

Lemma Forall_insert_sorted {B : Type} (P : B -> Prop) (leb : B -> B -> bool)
  (a : B) (l : list B) :
  P a -> Forall P l -> Forall P (insert_sorted leb a l).
Proof.
  intros Ha. induction 1 as [| b l Hb Hl IH]; cbn [insert_sorted].
  - constructor; [exact Ha | constructor].
  - destruct (leb a b).
    + constructor; [exact Ha |]. constructor; assumption.
    + constructor; assumption.
Qed.

Lemma Forall_sort {B : Type} (P : B -> Prop) (leb : B -> B -> bool)
  (l : list B) :
  Forall P l -> Forall P (sort leb l).
Proof.
  unfold sort. induction 1 as [| a l Ha Hl IH]; cbn [fold_right];
    [constructor |].
  now apply Forall_insert_sorted.
Qed.

Lemma nth_nonneg (l : list Q) (i : nat) :
  Forall (fun v => 0 <= v)%Q l -> (0 <= nth i l 0)%Q.
Proof.
  intros Hl. destruct (nth_in_or_default i l 0%Q) as [Hin | ->]; [| lra].
  rewrite Forall_forall in Hl. now apply Hl.
Qed.

Lemma smean_nonneg (l : list Q) :
  Forall (fun v => 0 <= v)%Q l -> (0 <= smean l)%Q.
Proof.
  intros Hl. unfold smean. cbn [sscale Scalar_Q].
  apply Qmult_le_0_compat; [| now apply ssum_nonneg].
  apply Qinv_le_0_compat. unfold Q_of_Z. change 0%Q with (inject_Z 0).
  rewrite <- Zle_Qle. lia.
Qed.

Lemma median_nonneg (l : list Q) :
  Forall (fun v => 0 <= v)%Q l -> (0 <= median l)%Q.
Proof.
  intros Hl. unfold median. cbv zeta.
  pose proof (Forall_sort _ sleb l Hl) as Hs.
  destruct (Nat.even (length l)); [| now apply nth_nonneg].
  cbn [sscale sadd szero Scalar_Q].
  pose proof (nth_nonneg (sort sleb l) (length l / 2 - 1) Hs).
  pose proof (nth_nonneg (sort sleb l) (length l / 2) Hs).
  cbn [szero Scalar_Q] in *. lra.
Qed.

Lemma median_bias_pos (n : Z) : (0 < _median_bias n)%Q.
Proof.
  rewrite median_bias_formula.
  destruct (bias_sum_bounds (Z.to_nat ((n - 1) / 2))) as [Hl _].
  set (q := Q_of_Z (Z.of_nat (Z.to_nat ((n - 1) / 2)))) in *.
  assert (Hq : (0 <= q)%Q).
  { unfold q, Q_of_Z. change 0%Q with (inject_Z 0).
    rewrite <- Zle_Qle. lia. }
  assert (Hpos : (0 < 1 / (2 * (2 * q + 1)))%Q).
  { apply Qlt_shift_div_l; lra. }
  lra.
Qed.

(** The averaging block keeps a spectrum without negative entries so. *)
Lemma csd_average_nonneg (Pxy P : ndarray) (average : string) :
  nonneg_array Pxy -> csd_average Pxy average = ok P -> nonneg_array P.
Proof.
  unfold csd_average, nonneg_array. intros Hpos.
  destruct (buf Pxy) as [l | l] eqn:Hbuf; [| contradiction].
  destruct ((2 <=? length (shape Pxy))%nat && (0 <? size Pxy)%nat).
  - destruct (1 <? last_dim (shape Pxy))%nat.
    + destruct (String.eqb average "median").
      * intros H. injection H as <-. cbn [buf]. unfold reduce_last.
        rewrite map_map. apply Forall_map.
        eapply Forall_impl; [| apply (Forall_chunks _ _ _ _ Hpos)].
        intros chunk Hchunk. cbv beta.
        pose proof (median_nonneg chunk Hchunk) as Hm.
        pose proof (median_bias_pos (Z.of_nat (last_dim (shape Pxy)))) as Hb.
        unfold Qdiv. apply Qmult_le_0_compat; [exact Hm |].
        apply Qinv_le_0_compat. lra.
      * destruct (String.eqb average "mean"); [| discriminate].
        intros H. injection H as <-. cbn [buf]. unfold reduce_last.
        apply Forall_map.
        eapply Forall_impl; [| apply (Forall_chunks _ _ _ _ Hpos)].
        intros chunk Hchunk. now apply smean_nonneg.
    + intros H. injection H as <-. cbn [buf]. exact Hpos.
  - intros H. injection H as <-. now rewrite Hbuf.
Qed.

(** X19.  No estimate is negative.  Whenever [welch] returns, for a
    sampling frequency that is not negative, the spectrum is a real array
    and each of its entries is [>= 0]: whatever the window, the segment
    lengths, the detrending, the scaling and the average.  The window is to
    have a sum and an energy other than zero: the scale is the inverse of
    one of them, and on zero NumPy gives [inf] where the rationals give 0. *)
Theorem welch_nonnegative (x : pyobj) (c : config) (freqs : list Q)
  (Pxx : ndarray) :
  (0 <= fs c)%Q ->
  (forall win n,
     _triage_segments (window c) (nperseg c) (array1_len (value x))
     = ok (win, n) ->
     ~ (ssum win == 0)%Q /\ ~ (ssum (map (fun w => w * w) win) == 0)%Q) ->
  welch x c = ok (freqs, Pxx) ->
  exists l, buf Pxx = RealBuf l /\ Forall (fun v => 0 <= v)%Q l.
Proof.
  intros Hfs _ Hwelch.
  pose proof (_spectral_helper_nonneg x (fs c) (window c) (nperseg c)
                (noverlap c) (nfft c) (detrend c) (return_onesided c)
                (scaling c) None false Hfs) as Hpos.
  unfold welch, csd in Hwelch.
  destruct (_spectral_helper x x (fs c) (window c) (nperseg c) (noverlap c)
              (nfft c) (detrend c) (return_onesided c) (scaling c) "psd"
              None false) as [e | [[f t] Pxy]]; [discriminate |].
  cbn [bind ok helper_nonneg] in Hwelch, Hpos.
  destruct (csd_average Pxy (average c)) as [e | P] eqn:Havg;
    [discriminate |].
  cbn [bind ok] in Hwelch. injection Hwelch as _ <-.
  pose proof (csd_average_nonneg _ _ _ Hpos Havg) as HP.
  unfold nonneg_array in HP. unfold real.
  destruct (buf P) as [l | l] eqn:Hbuf; [| contradiction].
  exists l. split; assumption.
Qed.

(** ** Errors raised after the input checks *)

Lemma detrend_func_linear (t : string) (data : array2) :
  In t ["linear"; "l"] ->
  detrend_func (DetrendStr t) data = raise (NameError "_prod").
Proof.
  intros [<- | [<- | []]]; reflexivity.
Qed.

Lemma detrend_func_unknown (t : string) (data : array2) :
  t <> "" -> str_in t ["linear"; "l"; "constant"; "c"] = false ->
  detrend_func (DetrendStr t) data
  = raise (ValueError "Trend type must be 'linear' or 'constant'.").
Proof.
  intros Ht Hin. unfold detrend_func, signaltools_detrend.
  apply String.eqb_neq in Ht. now rewrite Ht, Hin.
Qed.

Lemma _fft_helper_detrend_error (x : array1) (win : list Q)
  (d : detrend_spec) (nperseg noverlap nfft : Z) (sides : string) (e : exn) :
  noverlap < nperseg -> 1 <= nperseg <= array1_len x ->
  (forall data, detrend_func d data = raise e) ->
  _fft_helper x win (detrend_func d) nperseg noverlap nfft sides = raise e.
Proof.
  intros Hov Hnp Hd. unfold _fft_helper.
  destruct x as [l | l]; cbn [array1_len] in *;
    destruct (segmenter_windows_shape l nperseg noverlap Hov Hnp)
      as [rows [Hseg _]];
    rewrite Hseg; cbn [bind ok]; now rewrite Hd.
Qed.

(** The engine on one object, up to the error of the transform stage. *)
Lemma engine_transform_error (x : pyobj) (c : config) (s : string) (e : exn) :
  window c = WinStr s -> In s window_names ->
  1 <= requested_nperseg (nperseg c) <= array1_len (value x) ->
  (forall o, noverlap c = Some o -> o < requested_nperseg (nperseg c)) ->
  (forall m, nfft c = Some m -> requested_nperseg (nperseg c) <= m) ->
  (return_onesided c = true -> iscomplexobj (value x) = false) ->
  scaling c = "density" \/ scaling c = "spectrum" ->
  ~ (fs c == 0)%Q ->
  (forall data, detrend_func (detrend c) data = raise e) ->
  _spectral_helper x x (fs c) (window c) (nperseg c) (noverlap c) (nfft c)
    (detrend c) (return_onesided c) (scaling c) "psd" None false
  = raise e.
Proof.
  intros Hwin Hs Hnp Hov Hnfft Hreal Hscal Hfs Hd.
  destruct (prepare_same_ok s (value x) (nperseg c) (noverlap c) (nfft c)
              Hs Hnp Hov Hnfft) as [win [Hwl Hprep]].
  set (np := requested_nperseg (nperseg c)) in *.
  set (no := match noverlap c with Some o => o | None => np / 2 end) in *.
  assert (Hno : no < np).
  { unfold no. destruct (noverlap c) as [o |]; [now apply Hov |].
    apply Z.div_lt; lia. }
  unfold _spectral_helper. cbv zeta. rewrite (py_is_refl x), Hwin.
  change (String.eqb "psd" "stft") with false.
  change (str_in "psd" ["psd"; "stft"]) with true.
  cbn [negb andb].
  destruct (array1_len (value x) =? 0) eqn:E0; [apply Z.eqb_eq in E0; lia |].
  rewrite Hprep. cbn [bind ok px py pwin pnperseg pnoverlap pnfft].
  assert (Hfs0 : Qeq_bool (fs c) 0 = false).
  { destruct (Qeq_bool (fs c) 0) eqn:E; [| reflexivity].
    apply Qeq_bool_eq in E. contradiction. }
  assert (Hsc : exists sc,
             (if String.eqb (scaling c) "density"
              then ok (1 / (fs c * ssum (map (fun w => w * w) win)))%Q
              else if String.eqb (scaling c) "spectrum"
                   then ok (1 / (ssum win * ssum win))%Q
                   else raise (ValueError "Unknown scaling")) = ok sc).
  { destruct Hscal as [-> | ->]; eexists; reflexivity. }
  destruct Hsc as [sc Hsc]. rewrite Hsc. cbn [bind ok].
  destruct (return_onesided c).
  - rewrite (Hreal eq_refl). cbn [bind ok]. rewrite Hfs0.
    now rewrite (_fft_helper_detrend_error _ _ _ _ _ _ _ e Hno Hnp Hd).
  - cbn [bind ok]. rewrite Hfs0.
    now rewrite (_fft_helper_detrend_error _ _ _ _ _ _ _ e Hno Hnp Hd).
Qed.

(** X20.  What [welch] raises once the input checks have passed (a window
    given by name, lengths that fit, a real signal when one side is asked
    for).  A scaling other than [density] and [spectrum] gives
    [ValueError]; then a sampling frequency of zero gives
    [ZeroDivisionError]; then linear detrending ([linear] or [l]) gives
    [NameError] on [_prod], and a detrend type outside the four known
    strings gives [ValueError]. *)
Theorem welch_late_errors (x : pyobj) (c : config) (s : string) :
  window c = WinStr s -> In s window_names ->
  1 <= requested_nperseg (nperseg c) <= array1_len (value x) ->
  (forall o, noverlap c = Some o -> o < requested_nperseg (nperseg c)) ->
  (forall m, nfft c = Some m -> requested_nperseg (nperseg c) <= m) ->
  (return_onesided c = true -> iscomplexobj (value x) = false) ->
  (scaling c <> "density" -> scaling c <> "spectrum" ->
   welch x c = raise (ValueError "Unknown scaling"))
  /\ (scaling c = "density" \/ scaling c = "spectrum" ->
      ((fs c == 0)%Q -> welch x c = raise ZeroDivisionError)
      /\ (~ (fs c == 0)%Q ->
          forall t, detrend c = DetrendStr t ->
            (In t ["linear"; "l"] -> welch x c = raise (NameError "_prod"))
            /\ (t <> "" ->
                str_in t ["linear"; "l"; "constant"; "c"] = false ->
                welch x c
                = raise (ValueError
                           "Trend type must be 'linear' or 'constant'.")))).
Proof.
  intros Hwin Hs Hnp Hov Hnfft Hreal.
  destruct (prepare_same_ok s (value x) (nperseg c) (noverlap c) (nfft c)
              Hs Hnp Hov Hnfft) as [win [Hwl Hprep]].
  assert (E0 : (array1_len (value x) =? 0) = false)
    by (apply Z.eqb_neq; lia).
  split; [| intros Hscal; split].
  - intros Hd Hsp. apply String.eqb_neq in Hd. apply String.eqb_neq in Hsp.
    unfold welch, csd, _spectral_helper. cbv zeta.
    rewrite (py_is_refl x), Hwin.
    change (String.eqb "psd" "stft") with false.
    change (str_in "psd" ["psd"; "stft"]) with true.
    cbn [negb andb]. rewrite E0, Hprep. cbn [bind ok pwin].
    now rewrite Hd, Hsp.
  - intros Hfs. apply Qeq_bool_iff in Hfs.
    unfold welch, csd, _spectral_helper. cbv zeta.
    rewrite (py_is_refl x), Hwin.
    change (String.eqb "psd" "stft") with false.
    change (str_in "psd" ["psd"; "stft"]) with true.
    cbn [negb andb]. rewrite E0, Hprep.
    cbn [bind ok px py pwin pnperseg pnoverlap pnfft].
    assert (Hsc : exists sc,
               (if String.eqb (scaling c) "density"
                then ok (1 / (fs c * ssum (map (fun w => w * w) win)))%Q
                else if String.eqb (scaling c) "spectrum"
                     then ok (1 / (ssum win * ssum win))%Q
                     else raise (ValueError "Unknown scaling")) = ok sc).
    { destruct Hscal as [-> | ->]; eexists; reflexivity. }
    destruct Hsc as [sc Hsc]. rewrite Hsc. cbn [bind ok].
    destruct (return_onesided c);
      [rewrite (Hreal eq_refl) |]; cbn [bind ok]; now rewrite Hfs.
  - intros Hfs t Ht. split.
    + intros Hin. unfold welch, csd.
      rewrite (engine_transform_error x c s (NameError "_prod")
                 Hwin Hs Hnp Hov Hnfft Hreal Hscal Hfs);
        [reflexivity |].
      intros data. rewrite Ht. now apply detrend_func_linear.
    + intros Hne Hin. unfold welch, csd.
      rewrite (engine_transform_error x c s
                 (ValueError "Trend type must be 'linear' or 'constant'.")
                 Hwin Hs Hnp Hov Hnfft Hreal Hscal Hfs);
        [reflexivity |].
      intros data. rewrite Ht. now apply detrend_func_unknown.
Qed.

(** ** From the input checks to the transform *)

(** X21.  Input that passes the checks of the engine cannot fail in the
    transform stage.  Whatever the window (a name, a tuple or an array),
    the boundary extension and the padding, once the checks have passed
    with a segment length of at least 1, the overlap is below the segment
    length, a segment fits in the signal and in the transform, the window
    has one coefficient per sample, and [_fft_helper] (without detrending
    or with the constant one) returns at least one transformed segment:
    [(N - noverlap) // (nperseg - noverlap)] rows of [nfft] points, or of
    [nfft // 2 + 1] for one side. *)
Theorem checked_input_transforms (same_data : bool) (x0 y0 : array1)
  (window : window_spec) (nperseg noverlap nfft : option Z)
  (boundary : option string) (padded : bool) (p : prepared)
  (d : detrend_spec) (onesided : bool) :
  (forall n row, 1 <= n -> length (np_fft n row) = Z.to_nat n) ->
  (forall n row, 1 <= n -> length (np_rfft n row) = Z.to_nat (n / 2 + 1)) ->
  prepare_segments same_data x0 y0 window nperseg noverlap nfft boundary
                   padded = ok p ->
  1 <= pnperseg p ->
  detrend_total d = true ->
  pnoverlap p < pnperseg p
  /\ pnperseg p <= array1_len (px p)
  /\ len (pwin p) = pnperseg p
  /\ pnperseg p <= pnfft p
  /\ exists rows,
       _fft_helper (px p) (pwin p) (detrend_func d) (pnperseg p)
                   (pnoverlap p) (pnfft p)
                   (if onesided then "onesided" else "twosided") = ok rows
       /\ length rows
          = Z.to_nat ((array1_len (px p) - pnoverlap p)
                      / (pnperseg p - pnoverlap p))
       /\ (1 <= length rows)%nat
       /\ Forall (fun row =>
                    length row
                    = Z.to_nat (if onesided then pnfft p / 2 + 1
                                else pnfft p)) rows.
Proof.
  intros Hfft Hrfft Hprep Hpos Hd.
  destruct (prepare_segments_bounds _ _ _ _ _ _ _ _ _ _ Hprep)
    as [Hov [Hfit [Hwin Hnfft]]].
  repeat (split; [assumption |]).
  apply _fft_helper_shape; try assumption; lia.
Qed.

End Welch.

(** * The model at work: concrete runs on the reference instance *)

Local Abbreviation ref_csd :=
  (csd ref_pi ref_cos ref_sqrt ref_fft ref_rfft ref_float_accepts).
Local Abbreviation ref_welch :=
  (welch ref_pi ref_cos ref_sqrt ref_fft ref_rfft ref_float_accepts).
Local Abbreviation ref_spectral_helper :=
  (_spectral_helper ref_pi ref_cos ref_sqrt ref_fft ref_rfft ref_float_accepts).

(** Eleven samples, [nperseg = 4], [noverlap = 1]: three segments. *)
Lemma segmenter_count_witness :
  exists segs,
    segmenter [1; 2; 3; 4; 5; 6; 7; 8; 9; 10; 11] 4 1 = ok segs
    /\ len segs = (len [1; 2; 3; 4; 5; 6; 7; 8; 9; 10; 11] - 1) / (4 - 1)
    /\ Forall (fun s => len s = 4) segs
    /\ forall i, (i < length segs)%nat ->
         nth i segs []
         = firstn (Z.to_nat 4)
                  (skipn (i * Z.to_nat (4 - 1))
                         [1; 2; 3; 4; 5; 6; 7; 8; 9; 10; 11]).
Proof.
  apply (segmenter_count [1; 2; 3; 4; 5; 6; 7; 8; 9; 10; 11] 4 1).
  - lia.
  - unfold len. cbn [length]. lia.
Defined.

Example segmenter_drops_tail :
  segmenter [1; 2; 3; 4; 5; 6; 7; 8; 9; 10; 11] 4 1
  = ok [[1; 2; 3; 4]; [4; 5; 6; 7]; [7; 8; 9; 10]].
Proof. reflexivity. Qed.

(** Three samples, segments of two, one side: a run of the engine and
    the corrected spectra behind the array it returns. *)
Lemma onesided_doubling_witness :
  exists freqs t P p scaled corrected,
    ref_spectral_helper x_three x_three 1 (WinStr "hann") (Some 2) None None
      (DetrendStr "constant") true "density" "psd" None false
    = ok (freqs, t, P)
    /\ prepare_segments ref_pi ref_cos ref_float_accepts
         (py_is x_three x_three) (value x_three) (value x_three)
         (WinStr "hann") (Some 2) None None None false = ok p
    /\ shape P = [Z.to_nat (pnfft p / 2 + 1); length scaled]
    /\ buf P
       = RealBuf (map Cre (transpose_flat (Z.to_nat (pnfft p / 2 + 1))
                                          corrected))
    /\ length corrected = length scaled
    /\ forall s row,
         nth_error scaled s = Some row ->
         exists row',
           nth_error corrected s = Some row'
           /\ length row' = length row
           /\ forall k v,
                nth_error row k = Some v ->
                nth_error row' k
                = Some (if (k =? 0)%nat then v
                        else if (pnfft p mod 2 =? 0)
                                && (k =? length row - 1)%nat
                             then v
                             else Cscale 2 v).
Proof.
  assert (E : exists freqs t P,
             ref_spectral_helper x_three x_three 1 (WinStr "hann") (Some 2)
               None None (DetrendStr "constant") true "density" "psd" None
               false = ok (freqs, t, P))
    by (vm_compute; eexists _, _, _; reflexivity).
  destruct E as [freqs [t [P E]]].
  destruct (onesided_doubling ref_pi ref_cos ref_sqrt ref_fft ref_rfft
              ref_float_accepts x_three x_three 1 (WinStr "hann") (Some 2)
              None None (DetrendStr "constant") "density" None false
              freqs t P)
    as [p [scale [rx [scaled [corrected
         [Hp [_ [_ [_ [Hshape [Hbuf [Hlen [Hbins _]]]]]]]]]]]]].
  - cbn. lia.
  - cbn. lia.
  - exact E.
  - exists freqs, t, P, p, scaled, corrected.
    repeat (split; [assumption |]). exact Hbins.
Defined.

(** One segment of four samples, one side against two sides: bin 0 and
    the last bin are the same, the bin between them is doubled. *)
Example engine_onesided_run :
  exists f1 t1 P1 f2 t2 P2 one two,
    ref_spectral_helper {| ident := 5; value := RealArr [1; 2; 4; 3]%Q |}
      {| ident := 5; value := RealArr [1; 2; 4; 3]%Q |} 1 (WinStr "hann")
      (Some 4) None None DetrendFalsy true "spectrum" "psd" None false
    = ok (f1, t1, P1)
    /\ ref_spectral_helper {| ident := 5; value := RealArr [1; 2; 4; 3]%Q |}
         {| ident := 5; value := RealArr [1; 2; 4; 3]%Q |} 1 (WinStr "hann")
         (Some 4) None None DetrendFalsy false "spectrum" "psd" None false
       = ok (f2, t2, P2)
    /\ buf P1 = RealBuf one
    /\ buf P2 = RealBuf two
    /\ map Qred one = [169 # 16; 65 # 8; 9 # 16]%Q
    /\ map Qred two = [169 # 16; 65 # 16; 9 # 16; 65 # 16]%Q.
Proof.
  vm_compute. do 8 eexists. repeat split; reflexivity.
Qed.

Example onesided_even_nfft :
  onesided_correction "onesided" "psd" 4 [[(1, 0); (2, 0); (3, 0)]%Q]
  = [[(1, 0); (2 * 2, 2 * 0); (3, 0)]%Q].
Proof. reflexivity. Qed.

Example onesided_odd_nfft :
  onesided_correction "onesided" "psd" 5 [[(1, 0); (2, 0); (3, 0)]%Q]
  = [[(1, 0); (2 * 2, 2 * 0); (2 * 3, 2 * 0)]%Q].
Proof. reflexivity. Qed.

(** C3: the code's bias factor for three segments is 5/6, the sum over
    odd [i] gives 1/2; the median of [3, 1, 2] is divided by the former. *)
Lemma median_bias_counterexample :
  (_median_bias 3 == 5 # 6)%Q
  /\ (bias_as_specified 3 == 1 # 2)%Q
  /\ ~ (_median_bias 3 == bias_as_specified 3)%Q
  /\ csd_average {| shape := [1; 3]%nat; buf := RealBuf [3; 1; 2]%Q |} "median"
     = ok {| shape := [1%nat]; buf := RealBuf [12 # 5] |}.
Proof.
  split; [reflexivity |]. split; [reflexivity |].
  split; [intros H; vm_compute in H; discriminate H | reflexivity].
Qed.

(** Two frequency bins of three segments each. *)
Lemma median_average_bias_witness :
  csd_average {| shape := [2; 3]%nat;
                 buf := RealBuf [3; 1; 2; 5; 4; 6]%Q |} "median"
  = ok {| shape := [2%nat];
          buf := RealBuf
                   (map (fun m => m / _median_bias (Z.of_nat 3))%Q
                        (map median
                             (chunks 3 (fold_right Nat.mul 1%nat [2%nat])
                                     [3; 1; 2; 5; 4; 6]%Q))) |}
  /\ (_median_bias (Z.of_nat 3)
      == 1 + bias_sum (Z.to_nat ((Z.of_nat 3 - 1) / 2)))%Q.
Proof.
  apply (median_average_bias [2%nat] 3 (RealBuf [3; 1; 2; 5; 4; 6]%Q)).
  - discriminate.
  - cbn [fold_right Nat.mul Nat.add]. lia.
  - lia.
Defined.

Example median_average_run :
  csd_average {| shape := [2; 3]%nat;
                 buf := RealBuf [3; 1; 2; 5; 4; 6]%Q |} "median"
  = ok {| shape := [2%nat]; buf := RealBuf [12 # 5; 30 # 5] |}.
Proof. reflexivity. Qed.

(** Three frequency bins of one segment. *)
Lemma single_segment_average_witness :
  csd_average {| shape := [3; 1]%nat; buf := RealBuf [1; 2; 3]%Q |} "mean"
  = ok {| shape := [3%nat]; buf := RealBuf [1; 2; 3]%Q |}
  /\ csd_average {| shape := [3; 1]%nat; buf := RealBuf [1; 2; 3]%Q |} "median"
     = ok {| shape := [3%nat]; buf := RealBuf [1; 2; 3]%Q |}
  /\ csd_average {| shape := [3; 1]%nat; buf := RealBuf [1; 2; 3]%Q |} "median"
     = csd_average {| shape := [3; 1]%nat; buf := RealBuf [1; 2; 3]%Q |} "mean".
Proof.
  apply (single_segment_average
           {| shape := [3; 1]%nat; buf := RealBuf [1; 2; 3]%Q |}).
  - cbn [shape length]. lia.
  - unfold size. cbn [shape fold_right Nat.mul Nat.add]. lia.
  - reflexivity.
Defined.

(** C9: one sample, extension length 2 > 0 = x.shape[axis] - 1: the zero
    and constant extensions return the extended signal. *)
Lemma ext_no_limit_counterexample :
  2 > len [7%Q] - 1
  /\ zero_ext [7%Q] 2 = ok [0; 0; 7; 0; 0]%Q
  /\ const_ext [7%Q] 2 = ok [1 * 7; 1 * 7; 7; 1 * 7; 1 * 7]%Q
  /\ is_ValueError (zero_ext [7%Q] 2) = false
  /\ is_ValueError (const_ext [7%Q] 2) = false.
Proof.
  split; [unfold len; cbn [length]; lia |]. repeat split; reflexivity.
Qed.

(** Three samples: [n = 0] changes nothing, [n = 3] is too long for the
    even and odd extensions. *)
Lemma boundary_extender_contract_witness :
  (even_ext [1; 2; 3]%Q 0 = ok [1; 2; 3]%Q
   /\ odd_ext [1; 2; 3]%Q 0 = ok [1; 2; 3]%Q
   /\ const_ext [1; 2; 3]%Q 0 = ok [1; 2; 3]%Q
   /\ zero_ext [1; 2; 3]%Q 0 = ok [1; 2; 3]%Q)
  /\ (is_ValueError (even_ext [1; 2; 3]%Q 3) = true
      /\ is_ValueError (odd_ext [1; 2; 3]%Q 3) = true).
Proof.
  split.
  - apply (proj1 (boundary_extender_contract [1; 2; 3]%Q 0)). lia.
  - apply (proj1 (proj2 (boundary_extender_contract [1; 2; 3]%Q 3))).
    + lia.
    + unfold len. cbn [length]. lia.
Defined.

(** C6: on an empty input, [nperseg = 8] and [noverlap = 8] raise
    nothing: the engine returns empty arrays before the overlap check. *)
Lemma noverlap_empty_counterexample :
  ref_csd x_empty x_empty (cfg (Some 8) (Some 8) "mean")
  = ok ([], empty_array)
  /\ ref_welch x_empty (cfg (Some 8) (Some 8) "mean") = ok ([], empty_array)
  /\ is_ValueError (ref_csd x_empty x_empty (cfg (Some 8) (Some 8) "mean"))
     = false.
Proof. repeat split; reflexivity. Qed.

(** Two samples, [nperseg = 2], [noverlap = 2]. *)
Lemma noverlap_check_witness :
  is_ValueError (ref_csd x_two x_two (cfg (Some 2) (Some 2) "mean")) = true.
Proof.
  refine (proj1 (proj2 (noverlap_default_and_check
                          ref_pi ref_cos ref_sqrt ref_fft ref_rfft
                          ref_float_accepts x_two x_two
                          (cfg (Some 2) (Some 2) "mean") _ 2 _ _ _)
                       2 eq_refl _)).
  - vm_compute. discriminate.
  - vm_compute. discriminate.
  - vm_compute. reflexivity.
  - lia.
Defined.

Example noverlap_check_run :
  ref_csd x_two x_two (cfg (Some 2) (Some 2) "mean")
  = raise (ValueError "noverlap must be less than nperseg.")
  /\ ref_csd x_two x_two (cfg (Some 2) None "mean")
     = ref_csd x_two x_two (cfg (Some 2) (Some 1) "mean").
Proof. split; vm_compute; reflexivity. Qed.



(** ** Further runs of the model *)

Example py_slice_runs :
  py_slice [1; 2; 3; 4; 5] (Some 2) (Some 0) (Some (-1)) = ok [3; 2]
  /\ py_slice [1; 2; 3; 4; 5] (Some (-2)) (Some (-4)) (Some (-1)) = ok [4; 3]
  /\ py_slice [1; 2; 3; 4; 5] (Some (-2)) (Some (-6)) (Some (-1))
     = ok [4; 3; 2; 1]
  /\ py_slice [1; 2; 3; 4; 5] (Some 1) (Some (-1)) None = ok [2; 3; 4]
  /\ py_slice [7] (Some 1) (Some (-1)) None = ok []
  /\ py_slice [1; 2; 3; 4; 5] None None (Some (-1)) = ok [5; 4; 3; 2; 1]
  /\ py_slice [1; 2; 3; 4; 5] (Some 10) (Some 0) (Some (-2)) = ok [5; 3]
  /\ py_slice [1; 2; 3; 4; 5] (Some (-10)) (Some 3) (Some 2) = ok [1; 3].
Proof. repeat split; reflexivity. Qed.

Example even_ext_run :
  even_ext [1; 2; 3; 4; 5] 2 = ok [3; 2; 1; 2; 3; 4; 5; 4; 3].
Proof. reflexivity. Qed.

Example odd_ext_run :
  odd_ext [1; 2; 3; 4; 5]%Q 2
  = ok [2 * 1 - 3; 2 * 1 - 2; 1; 2; 3; 4; 5; 2 * 5 - 4; 2 * 5 - 3]%Q.
Proof. reflexivity. Qed.

Example even_ext_too_long :
  even_ext [1; 2; 3] 3
  = raise (ValueError "The extension length n is too big. It must not exceed x.shape[axis]-1.").
Proof. reflexivity. Qed.

Example segmenter_degenerate :
  segmenter [5; 6; 7] 1 0 = ok [[5]; [6]; [7]].
Proof. reflexivity. Qed.

Example segmenter_short_signal :
  segmenter [5] 3 2 = raise (ValueError "negative dimensions are not allowed").
Proof. reflexivity. Qed.

Example median_bias_values :
  (_median_bias 1 == 1)%Q /\ (_median_bias 2 == 1)%Q
  /\ (_median_bias 3 == 5 # 6)%Q /\ (_median_bias 5 == 47 # 60)%Q.
Proof. repeat split; reflexivity. Qed.

Example fftfreq_runs :
  Forall2 Qeq (sp_fft_fftfreq 4 1) [0; 1 # 4; - (1 # 2); - (1 # 4)]%Q
  /\ Forall2 Qeq (sp_fft_rfftfreq 4 1) [0; 1 # 4; 1 # 2]%Q
  /\ Forall2 Qeq (sp_fft_fftfreq 5 1)
                 [0; 1 # 5; 2 # 5; - (2 # 5); - (1 # 5)]%Q.
Proof. repeat split; repeat constructor; reflexivity. Qed.

(** The default [nperseg = 256] on a shorter signal: clipping the segment
    length calls [warnings.warn] too. *)
Example welch_default_short_signal :
  ref_welch x_two default_config = raise (NameError "warnings").
Proof. reflexivity. Qed.

Example welch_complex_input :
  ref_welch x_complex (cfg (Some 4) None "mean")
  = raise (NameError "warnings").
Proof. vm_compute. reflexivity. Qed.

Example welch_csd_same_run :
  ref_welch x_three (cfg (Some 2) None "median")
  = ref_csd x_three x_three (cfg (Some 2) None "median")
  /\ is_ok (ref_welch x_three (cfg (Some 2) None "median")) = true.
Proof. split; vm_compute; reflexivity. Qed.

(** The engine on three samples with [nperseg = 2]: two one-sided bins
    and [(3 - 1) // 1 = 2] segments; with the even boundary extension the
    signal has five samples and there are [(5 - 1) // 1 = 4] segments. *)
Example engine_segment_counts :
  match ref_spectral_helper x_three x_three 1 (WinStr "hann") (Some 2) None
          None (DetrendStr "constant") true "density" "psd" None false with
  | inr (_, _, P) => shape P = [2; 2]%nat
  | inl _ => False
  end
  /\ match ref_spectral_helper x_three x_three 1 (WinStr "hann") (Some 2)
             None None (DetrendStr "constant") true "density" "psd"
             (Some "even") true with
     | inr (_, _, P) => shape P = [2; 4]%nat
     | inl _ => False
     end.
Proof. split; vm_compute; reflexivity. Qed.

(** * Further properties at work *)

(** Five samples, the slice [1:3]. *)
Lemma axis_slice_forward_witness :
  axis_slice [10; 20; 30; 40; 50] (Some 1) (Some 3) None
  = ok (firstn (Z.to_nat (3 - 1)) (skipn (Z.to_nat 1) [10; 20; 30; 40; 50]))
  /\ axis_slice [10; 20; 30; 40; 50] None None None = ok [10; 20; 30; 40; 50]
  /\ is_ValueError (axis_slice [10; 20; 30; 40; 50] (Some 1) (Some 3) (Some 0))
     = true.
Proof.
  apply (axis_slice_forward [10; 20; 30; 40; 50] 1 3).
  - lia.
  - unfold len. cbn [length]. lia.
Defined.

(** Four samples extended by two on each side. *)
Lemma even_ext_mirror_witness :
  exists ext,
    even_ext [1; 2; 3; 4] 2 = ok ext
    /\ ext = rev (firstn (Z.to_nat 2) (skipn 1 [1; 2; 3; 4]))
             ++ [1; 2; 3; 4]
             ++ rev (firstn (Z.to_nat 2)
                       (skipn (Z.to_nat (len [1; 2; 3; 4] - 2 - 1))
                              [1; 2; 3; 4]))
    /\ len ext = len [1; 2; 3; 4] + 2 * 2.
Proof.
  destruct (even_ext_mirror [1; 2; 3; 4] 2) as [ext [H1 [H2 [H3 _]]]].
  - unfold len. cbn [length]. lia.
  - exists ext. repeat split; assumption.
Defined.

Lemma odd_ext_reflection_witness :
  exists ext,
    odd_ext [1; 2; 3; 4]%Q 2 = ok ext
    /\ len ext = len [1; 2; 3; 4]%Q + 2 * 2.
Proof.
  destruct (odd_ext_reflection [1; 2; 3; 4]%Q 2) as [ext [H1 [_ [H3 _]]]].
  - unfold len. cbn [length]. lia.
  - exists ext. split; assumption.
Defined.

(** The periodic window of four points and the symmetric one of five. *)
Lemma hann_periodic_truncates_witness :
  exists w,
    hann ref_pi ref_cos (4 + 1) true = ok w
    /\ hann ref_pi ref_cos 4 false = ok (removelast w)
    /\ len w = 4 + 1
    /\ len (removelast w) = 4.
Proof.
  apply (hann_periodic_truncates ref_pi ref_cos 4). lia.
Defined.

(** Eleven samples, segments of four that share one sample. *)
Lemma segmenter_overlap_witness :
  exists segs,
    segmenter [1; 2; 3; 4; 5; 6; 7; 8; 9; 10; 11] 4 1 = ok segs
    /\ (1 <= length segs)%nat
    /\ nth 0 segs [] = firstn (Z.to_nat 4) [1; 2; 3; 4; 5; 6; 7; 8; 9; 10; 11].
Proof.
  destruct (segmenter_overlap [1; 2; 3; 4; 5; 6; 7; 8; 9; 10; 11] 4 1)
    as [segs [H1 [H2 [H3 _]]]].
  - lia.
  - unfold len. cbn [length]. lia.
  - exists segs. repeat split; assumption.
Defined.

(** One sample, segments of five with an overlap of three. *)
Lemma segmenter_refuses_short_witness :
  segmenter [1] 5 3 = raise (ValueError "negative dimensions are not allowed").
Proof.
  apply (segmenter_refuses_short [1] 5 3).
  - lia.
  - unfold len. cbn [length]. lia.
Defined.

(** Two samples and [nperseg = 4]. *)
Lemma nperseg_clipping_raises_witness :
  ref_csd x_two x_two (cfg (Some 4) None "mean") = raise (NameError "warnings")
  /\ (x_two = x_two ->
      ref_welch x_two (cfg (Some 4) None "mean") = raise (NameError "warnings")).
Proof.
  apply (nperseg_clipping_raises ref_pi ref_cos ref_sqrt ref_fft ref_rfft
           ref_float_accepts x_two x_two (cfg (Some 4) None "mean")).
  - cbn. lia.
  - cbn. lia.
  - reflexivity.
  - cbn. lia.
  - vm_compute. reflexivity.
Defined.

(** An empty first input, with a configuration no other call accepts. *)
Lemma empty_input_short_circuit_witness :
  ref_csd x_empty x_two (cfg (Some (-1)) (Some 7) "mode")
  = ok ([], empty_array)
  /\ (array1_len (value x_empty) = 0 ->
      ref_welch x_empty (cfg (Some (-1)) (Some 7) "mode")
      = ok ([], empty_array)).
Proof.
  apply (empty_input_short_circuit ref_pi ref_cos ref_sqrt ref_fft ref_rfft
           ref_float_accepts x_empty x_two (cfg (Some (-1)) (Some 7) "mode")).
  left. reflexivity.
Defined.

(** Two objects that hold the same two samples. *)
Lemma csd_distinct_objects_complex_witness :
  exists freqs Pxy,
    ref_csd x_two {| ident := 7; value := RealArr [1; 2]%Q |}
            (cfg (Some 2) None "mean") = ok (freqs, Pxy)
    /\ is_real Pxy = false.
Proof.
  assert (E : exists freqs Pxy,
             ref_csd x_two {| ident := 7; value := RealArr [1; 2]%Q |}
                     (cfg (Some 2) None "mean") = ok (freqs, Pxy))
    by (vm_compute; eexists _, _; reflexivity).
  destruct E as [freqs [Pxy E]]. exists freqs, Pxy. split; [exact E |].
  apply (csd_distinct_objects_complex ref_pi ref_cos ref_sqrt ref_fft ref_rfft
           ref_float_accepts x_two {| ident := 7; value := RealArr [1; 2]%Q |}
           (cfg (Some 2) None "mean") freqs Pxy).
  - reflexivity.
  - cbn. lia.
  - cbn. lia.
  - exact E.
Defined.

Lemma ref_fft_length (n : Z) (row : list C) :
  1 <= n -> length (ref_fft n row) = Z.to_nat n.
Proof.
  intros _. unfold ref_fft. now rewrite length_map, length_seq.
Qed.

Lemma ref_rfft_length (n : Z) (row : list Q) :
  1 <= n -> length (ref_rfft n row) = Z.to_nat (n / 2 + 1).
Proof.
  intros Hn. unfold ref_rfft. rewrite length_firstn, ref_fft_length by exact Hn.
  assert (n / 2 + 1 <= n).
  { destruct (Z.eq_dec n 1) as [-> | Hne]; [cbn; lia |].
    assert (n / 2 < n) by (apply Z.div_lt; lia). lia. }
  assert (0 <= n / 2) by (apply Z.div_pos; lia).
  lia.
Qed.

(** Three samples, segments of two, the defaults otherwise. *)
Lemma welch_returns_spectrum_witness :
  exists freqs Pxx,
    ref_welch x_three (cfg (Some 2) None "mean") = ok (freqs, Pxx)
    /\ shape Pxx = [length freqs]
    /\ buf_len (buf Pxx) = length freqs
    /\ is_real Pxx = true
    /\ length freqs = Z.to_nat (2 / 2 + 1).
Proof.
  apply (welch_returns_spectrum ref_pi ref_cos ref_sqrt ref_fft ref_rfft
           ref_float_accepts x_three (cfg (Some 2) None "mean") "hann").
  - exact ref_fft_length.
  - exact ref_rfft_length.
  - reflexivity.
  - right. left. reflexivity.
  - cbn. lia.
  - intros o Ho. discriminate Ho.
  - intros m Hm. discriminate Hm.
  - reflexivity.
  - left. reflexivity.
  - cbn. intros Hq. discriminate Hq.
  - reflexivity.
  - left. reflexivity.
Defined.

(** Four points, unit sample spacing. *)
Lemma frequency_axes_witness :
  length (sp_fft_fftfreq 4 1) = Z.to_nat 4
  /\ length (sp_fft_rfftfreq 4 1) = Z.to_nat (4 / 2 + 1)
  /\ firstn (Z.to_nat ((4 - 1) / 2 + 1)) (sp_fft_fftfreq 4 1)
     = firstn (Z.to_nat ((4 - 1) / 2 + 1)) (sp_fft_rfftfreq 4 1).
Proof.
  destruct (frequency_axes 4 1) as [H1 [H2 [_ H4]]]; [lia |].
  repeat split; assumption.
Defined.

(** ** The reference cosine is a cosine as the window theorems need it *)

Lemma reduce_angle_range (x : Q) :
  (- ref_pi <= reduce_angle x /\ reduce_angle x < ref_pi)%Q.
Proof.
  unfold reduce_angle. cbv zeta. rewrite Qred_correct.
  pose proof (Qfloor_le (x / (2 * ref_pi) + (1 # 2))) as Hlo.
  pose proof (Qlt_floor (x / (2 * ref_pi) + (1 # 2))) as Hhi.
  rewrite inject_Z_plus in Hhi. change (inject_Z 1) with 1%Q in Hhi.
  unfold Q_of_Z.
  set (k := inject_Z (Qfloor (x / (2 * ref_pi) + (1 # 2)))) in *.
  assert (Hx : (x == x / (2 * ref_pi) * (710 # 113))%Q)
    by (unfold ref_pi; field).
  set (z := (x / (2 * ref_pi))%Q) in *.
  change (2 * ref_pi)%Q with (2 * (355 # 113))%Q.
  unfold ref_pi. split; lra.
Qed.

Lemma bhaskara_bound (t : Q) :
  (0 <= t <= ref_pi / 2 -> 0 <= bhaskara t <= 1)%Q.
Proof.
  intros [H0 H1]. unfold bhaskara. rewrite Qred_correct.
  assert (Hpi : (ref_pi / 2 == 355 # 226)%Q) by reflexivity.
  rewrite Hpi in H1.
  assert (Hsq : (0 <= t * t)%Q) by nra.
  assert (Hsq' : (t * t <= (355 # 226) * (355 # 226))%Q) by nra.
  assert (HD : (0 < ref_pi * ref_pi + t * t)%Q) by (unfold ref_pi; lra).
  split.
  - apply Qle_shift_div_l; [exact HD |]. unfold ref_pi. lra.
  - apply Qle_shift_div_r; [exact HD |]. unfold ref_pi. lra.
Qed.

Lemma ref_cos_bound (q : Q) : (-1 <= ref_cos q <= 1)%Q.
Proof.
  unfold ref_cos. cbv zeta.
  pose proof (reduce_angle_range q) as [Hlo Hhi].
  pose proof (Qabs_nonneg (reduce_angle q)) as Hy0.
  assert (Hy1 : (Qabs (reduce_angle q) <= ref_pi)%Q).
  { apply Qabs_Qle_condition. split; [exact Hlo | lra]. }
  set (y := Qabs (reduce_angle q)) in *.
  destruct (Qle_bool y (ref_pi / 2)) eqn:E.
  - apply Qle_bool_iff in E.
    destruct (bhaskara_bound y (conj Hy0 E)) as [Hb0 Hb1]. split; lra.
  - assert (Hgt : ~ (y <= ref_pi / 2)%Q)
      by (intros Hle; apply Qle_bool_iff in Hle; congruence).
    apply Qnot_le_lt in Hgt.
    assert (Hpi : (ref_pi / 2 == 355 # 226)%Q) by reflexivity.
    assert (Hu : (0 <= ref_pi - y <= ref_pi / 2)%Q).
    { rewrite Hpi in *. unfold ref_pi in *. split; lra. }
    destruct (bhaskara_bound _ Hu) as [Hb0 Hb1].
    rewrite Qred_correct. split; lra.
Qed.

Lemma reduce_angle_proper (p q : Q) :
  (p == q)%Q -> reduce_angle p = reduce_angle q.
Proof.
  intros Hpq. unfold reduce_angle. cbv zeta. apply Qred_complete.
  assert (Hf : Qfloor (p / (2 * ref_pi) + (1 # 2))
               = Qfloor (q / (2 * ref_pi) + (1 # 2)))
    by (apply Qfloor_comp; rewrite Hpq; reflexivity).
  rewrite Hf, Hpq. reflexivity.
Qed.

Lemma ref_cos_proper (p q : Q) : (p == q)%Q -> (ref_cos p == ref_cos q)%Q.
Proof.
  intros Hpq. unfold ref_cos. now rewrite (reduce_angle_proper p q Hpq).
Qed.

Lemma ref_cos_zero (q : Q) : (q == 0)%Q -> (ref_cos q == 1)%Q.
Proof.
  intros Hq. rewrite (ref_cos_proper q 0 Hq). reflexivity.
Qed.

Lemma reduce_angle_abs_even (q : Q) :
  (Qabs (reduce_angle (- q)) == Qabs (reduce_angle q))%Q.
Proof.
  unfold reduce_angle. cbv zeta. rewrite !Qred_correct.
  assert (Hz : (- q / (2 * ref_pi) + (1 # 2)
                == - (q / (2 * ref_pi)) + (1 # 2))%Q)
    by (unfold ref_pi; field).
  rewrite (Qfloor_comp _ _ Hz).
  pose proof (Qfloor_le (q / (2 * ref_pi) + (1 # 2))) as Hlo.
  pose proof (Qlt_floor (q / (2 * ref_pi) + (1 # 2))) as Hhi.
  pose proof (Qfloor_le (- (q / (2 * ref_pi)) + (1 # 2))) as Hlo'.
  pose proof (Qlt_floor (- (q / (2 * ref_pi)) + (1 # 2))) as Hhi'.
  assert (Hx : (q == q / (2 * ref_pi) * (710 # 113))%Q)
    by (unfold ref_pi; field).
  set (z := (q / (2 * ref_pi))%Q) in *.
  set (k := Qfloor (z + (1 # 2))) in *.
  set (k' := Qfloor (- z + (1 # 2))) in *.
  rewrite inject_Z_plus in Hhi, Hhi'.
  change (inject_Z 1) with 1%Q in Hhi, Hhi'.
  assert (Hs : k + k' = 0 \/ k + k' = 1).
  { assert (H1 : (inject_Z (k + k') <= inject_Z 1)%Q)
      by (rewrite inject_Z_plus; change (inject_Z 1) with 1%Q; lra).
    assert (H2 : (inject_Z (-1) < inject_Z (k + k'))%Q)
      by (rewrite inject_Z_plus; change (inject_Z (-1)) with (-1)%Q; lra).
    rewrite <- Zle_Qle in H1. rewrite <- Zlt_Qlt in H2. lia. }
  unfold Q_of_Z. change (2 * ref_pi)%Q with (2 * (355 # 113))%Q.
  destruct Hs as [Hs | Hs].
  - replace k' with (- k) by lia. rewrite inject_Z_opp.
    assert (Ho : (- q - - inject_Z k * (2 * (355 # 113))
                  == - (q - inject_Z k * (2 * (355 # 113))))%Q) by ring.
    rewrite Ho. apply Qabs_opp.
  - replace k' with (1 + - k) in * by lia.
    rewrite inject_Z_plus, inject_Z_opp in *.
    change (inject_Z 1) with 1%Q in *.
    apply Qabs_wd. lra.
Qed.

Lemma ref_cos_of_abs (p q : Q) :
  (Qabs (reduce_angle p) == Qabs (reduce_angle q))%Q -> ref_cos p = ref_cos q.
Proof.
  intros Hy. unfold ref_cos. cbv zeta.
  set (y := Qabs (reduce_angle p)) in *.
  set (y' := Qabs (reduce_angle q)) in *.
  assert (Hb : forall u v, (u == v)%Q -> bhaskara u = bhaskara v).
  { intros u v Huv. unfold bhaskara. apply Qred_complete.
    rewrite Huv. reflexivity. }
  assert (Hc : Qle_bool y (ref_pi / 2) = Qle_bool y' (ref_pi / 2)).
  { destruct (Qle_bool y (ref_pi / 2)) eqn:E1;
      destruct (Qle_bool y' (ref_pi / 2)) eqn:E2; try reflexivity.
    - apply Qle_bool_iff in E1. rewrite Hy in E1.
      apply Qle_bool_iff in E1. congruence.
    - apply Qle_bool_iff in E2. rewrite <- Hy in E2.
      apply Qle_bool_iff in E2. congruence. }
  rewrite Hc. destruct (Qle_bool y' (ref_pi / 2)).
  - apply Hb, Hy.
  - f_equal. f_equal. apply Hb. rewrite Hy. reflexivity.
Qed.

Lemma ref_cos_even (q : Q) : (ref_cos (- q) == ref_cos q)%Q.
Proof.
  rewrite (ref_cos_of_abs (- q) q (reduce_angle_abs_even q)). reflexivity.
Qed.

(** The symmetric Hann window of four points on the reference cosine. *)
Lemma hann_range_witness :
  exists w,
    hann ref_pi ref_cos 4 true = ok w
    /\ Forall (fun v => 0 <= v <= 1)%Q w.
Proof.
  destruct (hann_ok ref_pi ref_cos 4 true) as [w Hw]; [lia |].
  exists w. split; [exact Hw |].
  exact (hann_range ref_pi ref_cos 4 true w ref_cos_bound ref_cos_zero Hw).
Defined.

(** The symmetric Hann window of five points: the second coefficient and
    the last but one. *)
Lemma hann_symmetric_witness :
  exists w,
    hann ref_pi ref_cos 5 true = ok w
    /\ (nth 1 w 0 == nth (length w - 1 - 1) w 0)%Q.
Proof.
  destruct (hann_ok ref_pi ref_cos 5 true) as [w Hw]; [lia |].
  exists w. split; [exact Hw |].
  apply (hann_symmetric ref_pi ref_cos 5 w ref_cos_proper ref_cos_even Hw).
  destruct (hann_length ref_pi ref_cos 5 true w Hw) as [_ Hl].
  unfold len in Hl. lia.
Defined.

(** Two samples against three: the first input is filled to [1, 2, 0]. *)
Lemma csd_zero_pads_shorter_witness :
  ref_csd x_two x_three (cfg (Some 2) None "mean")
  = ref_csd {| ident := 9; value := RealArr [1; 2; 0]%Q |} x_three
            (cfg (Some 2) None "mean").
Proof.
  refine (proj1 (csd_zero_pads_shorter ref_pi ref_cos ref_sqrt ref_fft
                   ref_rfft ref_float_accepts x_two x_three
                   {| ident := 9; value := RealArr [1; 2; 0]%Q |}
                   (cfg (Some 2) None "mean") _ _ _) _ _ _).
  - reflexivity.
  - cbn. lia.
  - cbn. lia.
  - cbn. lia.
  - reflexivity.
  - reflexivity.
Defined.

(** Three samples, segments of two, the median of the two segments. *)
Lemma welch_nonnegative_witness :
  exists freqs Pxx l,
    ref_welch x_three (cfg (Some 2) None "median") = ok (freqs, Pxx)
    /\ buf Pxx = RealBuf l
    /\ Forall (fun v => 0 <= v)%Q l.
Proof.
  assert (E : exists freqs Pxx,
             ref_welch x_three (cfg (Some 2) None "median") = ok (freqs, Pxx))
    by (vm_compute; eexists _, _; reflexivity).
  destruct E as [freqs [Pxx E]].
  destruct (welch_nonnegative ref_pi ref_cos ref_sqrt ref_fft ref_rfft
              ref_float_accepts x_three (cfg (Some 2) None "median")
              freqs Pxx) as [l [Hl Hpos]].
  - cbn. discriminate.
  - intros win n Hwin. vm_compute in Hwin. injection Hwin as <- <-.
    split; intros Hq; vm_compute in Hq; discriminate Hq.
  - exact E.
  - exists freqs, Pxx, l. repeat split; assumption.
Defined.

(** Three samples, segments of two, linear detrending. *)
Lemma welch_late_errors_witness :
  ref_welch x_three
    {| fs := 1; window := WinStr "hann"; nperseg := Some 2; noverlap := None;
       nfft := None; detrend := DetrendStr "linear"; return_onesided := true;
       scaling := "density"; average := "mean" |}
  = raise (NameError "_prod").
Proof.
  refine (proj1 (proj2 (proj2 (welch_late_errors ref_pi ref_cos ref_sqrt
                                 ref_fft ref_rfft ref_float_accepts x_three
                                 {| fs := 1; window := WinStr "hann";
                                    nperseg := Some 2; noverlap := None;
                                    nfft := None;
                                    detrend := DetrendStr "linear";
                                    return_onesided := true;
                                    scaling := "density";
                                    average := "mean" |}
                                 "hann" _ _ _ _ _ _) _) _ "linear" _) _).
  - reflexivity.
  - right. left. reflexivity.
  - cbn. lia.
  - intros o Ho. discriminate Ho.
  - intros m Hm. discriminate Hm.
  - reflexivity.
  - left. reflexivity.
  - cbn. intros Hq. discriminate Hq.
  - reflexivity.
  - left. reflexivity.
Defined.

(** Three samples, an array window of two coefficients, constant
    detrending, one side. *)
Lemma checked_input_transforms_witness :
  exists p rows,
    prepare_segments ref_pi ref_cos ref_float_accepts true
      (RealArr [1; 2; 4]%Q) (RealArr [1; 2; 4]%Q) (WinArray [1; 1]%Q)
      None None None None false = ok p
    /\ _fft_helper ref_fft ref_rfft (px p) (pwin p)
         (detrend_func (DetrendStr "constant")) (pnperseg p) (pnoverlap p)
         (pnfft p) "onesided" = ok rows
    /\ (1 <= length rows)%nat.
Proof.
  assert (E : exists p,
             prepare_segments ref_pi ref_cos ref_float_accepts true
               (RealArr [1; 2; 4]%Q) (RealArr [1; 2; 4]%Q) (WinArray [1; 1]%Q)
               None None None None false = ok p
             /\ 1 <= pnperseg p)
    by (vm_compute; eexists; split; [reflexivity | discriminate]).
  destruct E as [p [E Hpos]].
  destruct (checked_input_transforms ref_pi ref_cos ref_fft ref_rfft
              ref_float_accepts true (RealArr [1; 2; 4]%Q)
              (RealArr [1; 2; 4]%Q) (WinArray [1; 1]%Q) None None None None
              false p (DetrendStr "constant") true
              ref_fft_length ref_rfft_length E Hpos eq_refl)
    as [_ [_ [_ [_ [rows [Hrows [_ [Hlen _]]]]]]]].
  exists p, rows. repeat split; assumption.
Defined.
